(** * build_mods.py: merging mod overlays and deploying them into a game folder

    A shallow embedding of [build_mods.py] over an explicit model of the
    file system, followed by the properties of the safe remover, the
    directory linker, the tree merger, the mod builder, the deployer and
    the undeployer.

    The file system is a finite map from physical paths to nodes.  Paths
    given to the Python library are resolved the way the operating system
    resolves them: links met on the way are followed, up to a bound.  The
    library calls used by the script ([Path.exists], [os.walk],
    [shutil.copy2], ...) are modelled on top of that map; the functions of
    the script itself are transcribed statement by statement. *)

From Stdlib Require Import Strings.String Strings.Ascii Strings.Byte.
From stdpp Require Import base option list strings gmap sorting.

Open Scope string_scope.
Open Scope list_scope.

(** ** Paths, nodes and the store *)

Abbreviation path := (list string).
Abbreviation content := (list byte).

#[global] Instance byte_eq_decision : EqDecision byte := Byte.byte_eq_dec.

(** What sits at a path.  A junction is the Windows directory reparse
    point made by [mklink /J]. *)
Inductive node :=
  | File (data : content)
  | Dir
  | Symlink (target : path)
  | Junction (target : path).

#[global] Instance node_eq_decision : EqDecision node.
Proof. solve_decision. Defined.

Abbreviation fsmap := (gmap path node).

(** Python exception classes that the modelled calls can raise. *)
Inductive exn :=
  | FileNotFoundError
  | FileExistsError
  | NotADirectoryError
  | IsADirectoryError
  | OSError
  | SameFileError
  | ShutilError
  | CalledProcessError
  | BadZipFile
  | ValueError
  | RecursionError.

(** [except OSError] catches exactly these. *)
Definition is_OSError (e : exn) : bool :=
  match e with
  | CalledProcessError | BadZipFile | ValueError | RecursionError => false
  | _ => true
  end.

(** One member of a zip archive: its name split at the separators, and its
    bytes ([None] for a directory member). *)
Abbreviation zip_member := (path * option content)%type.

(** The calls whose order the properties speak about. *)
Inductive event :=
  | Call_symlink (target dest : path)
  | Call_mklink (dest target : path)
  | Call_copytree (src dest : path)
  | Call_copy2 (src dest : path).

(** Everything outside the script: the platform, what the current user may
    do, the archive library, and where the script lives. *)
Record env := Env {
  os_nt : bool;               (* os.name == "nt" *)
  link_budget : nat;          (* links followed in one resolution before the OS gives up *)
  recursion_limit : nat;      (* nesting depth the recursive library walkers can reach *)
  symlink_privilege : bool;   (* may this user create symbolic links *)
  junction_available : bool;  (* does "cmd /c mklink /J" work here *)
  unzip : content → option (list zip_member);  (* zipfile's parser *)
  builder_dir : path          (* Path(__file__).resolve().parent *)
}.

Record world := World {
  w_fs : fsmap;
  w_log : list event
}.

(** ** Path helpers *)

Definition parent (p : path) : path := removelast p.
Definition basename (p : path) : string := List.last p "".

Fixpoint strip_prefix (pre p : path) : option path :=
  match pre, p with
  | [], _ => Some p
  | a :: pre', b :: p' => if decide (a = b) then strip_prefix pre' p' else None
  | _ :: _, [] => None
  end.

(** [under d p]: [p] is [d] or lies below it. *)
Definition under (d p : path) : bool :=
  match strip_prefix d p with Some _ => true | None => false end.

(** The root directory always exists and is not stored. *)
Definition node_at (fs : fsmap) (p : path) : option node :=
  match p with
  | [] => Some Dir
  | _ => fs !! p
  end.

(** Names of the entries directly inside the directory stored at [d]. *)
Definition listdir (fs : fsmap) (d : path) : list string :=
  omap (λ kv : path * node,
          match strip_prefix d kv.1 with
          | Some [name] => Some name
          | _ => None
          end) (map_to_list fs).

(** ** Path resolution *)

(** [locate hops fs cur rest] walks [rest] from the directory [cur]: every
    component but the last must be a directory, links among them are
    followed (at most [hops] of them); the last component is not looked
    at.  The result is the physical place of the last component. *)
Fixpoint locate (hops : nat) (fs : fsmap) : path → path → exn + path :=
  fix go (cur rest : path) {struct rest} : exn + path :=
    match rest with
    | [] => inr cur
    | c :: rest' =>
      match rest' with
      | [] => inr (cur ++ [c])
      | _ :: _ =>
        match fs !! (cur ++ [c]) with
        | None => inl FileNotFoundError
        | Some (File _) => inl NotADirectoryError
        | Some Dir => go (cur ++ [c]) rest'
        | Some (Symlink t) | Some (Junction t) =>
          match hops with
          | 0 => inl OSError
          | S h => locate h fs [] (t ++ rest')
          end
        end
      end
    end.

(** [os.lstat]: the node at a path, a final link not followed. *)
Definition lstat (E : env) (fs : fsmap) (p : path) : exn + (path * node) :=
  match locate (link_budget E) fs [] p with
  | inl e => inl e
  | inr l =>
    match node_at fs l with
    | Some n => inr (l, n)
    | None => inl FileNotFoundError
    end
  end.

(** [os.stat]: as [lstat], final links followed. *)
Fixpoint stat_from (hops : nat) (E : env) (fs : fsmap) (p : path) : exn + (path * node) :=
  match lstat E fs p with
  | inl e => inl e
  | inr (l, Symlink t) | inr (l, Junction t) =>
    match hops with
    | 0 => inl OSError
    | S h => stat_from h E fs t
    end
  | inr (l, n) => inr (l, n)
  end.

Definition stat (E : env) (fs : fsmap) (p : path) : exn + (path * node) :=
  stat_from (link_budget E) E fs p.

(** Where [open(p, "wb")] puts the bytes: final links are followed, an
    absent last component is created, a directory is refused. *)
Fixpoint open_wb_from (hops : nat) (E : env) (fs : fsmap) (p : path) : exn + path :=
  match locate (link_budget E) fs [] p with
  | inl e => inl e
  | inr l =>
    match node_at fs l with
    | None | Some (File _) => inr l
    | Some Dir => inl IsADirectoryError
    | Some (Symlink t) | Some (Junction t) =>
      match hops with
      | 0 => inl OSError
      | S h => open_wb_from h E fs t
      end
    end
  end.

Definition open_wb (E : env) (fs : fsmap) (p : path) : exn + path :=
  open_wb_from (link_budget E) E fs p.

(** ** Queries of [pathlib] and [os.path] *)

Definition path_exists (E : env) (fs : fsmap) (p : path) : bool :=
  match stat E fs p with inr _ => true | inl _ => false end.

Definition path_is_dir (E : env) (fs : fsmap) (p : path) : bool :=
  match stat E fs p with inr (_, Dir) => true | _ => false end.

Definition path_is_symlink (E : env) (fs : fsmap) (p : path) : bool :=
  match lstat E fs p with inr (_, Symlink _) => true | _ => false end.

Definition read_file (E : env) (fs : fsmap) (p : path) : option content :=
  match stat E fs p with inr (_, File data) => Some data | _ => None end.

(** [Path.resolve()]: the physical path when the path resolves; otherwise
    the path is kept as it is written (Python would still resolve the
    part of it that exists; the script resolves only entries of output/
    that it has just listed). *)
Definition path_resolve (E : env) (fs : fsmap) (p : path) : path :=
  match stat E fs p with inr (l, _) => l | inl _ => p end.

(** [os.path.samefile], with its [OSError] read as "no". *)
Definition samefile (E : env) (fs : fsmap) (p q : path) : bool :=
  match stat E fs p, stat E fs q with
  | inr (l1, _), inr (l2, _) => bool_decide (l1 = l2)
  | _, _ => false
  end.

(** [os.scandir] as [os.walk] and [shutil.copytree] read it: the names in
    the directory a path resolves to. *)
Definition scandir (E : env) (fs : fsmap) (p : path) : exn + list string :=
  match stat E fs p with
  | inl e => inl e
  | inr (l, Dir) => inr (listdir fs l)
  | inr (_, _) => inl NotADirectoryError
  end.

(** ** The monad of the script: a world, and an exception or a value *)

Definition M (A : Type) : Type := world → (exn + A) * world.

Definition ret {A} (a : A) : M A := λ w, (inr a, w).
Definition raise {A} (e : exn) : M A := λ w, (inl e, w).
Definition bind {A B} (m : M A) (k : A → M B) : M B :=
  λ w, match m w with
       | (inr a, w') => k a w'
       | (inl e, w') => (inl e, w')
       end.

(** [try m] hands the exception of [m], if any, to the continuation. *)
Definition try {A} (m : M A) : M (exn + A) :=
  λ w, let '(r, w') := m w in (inr r, w').

Definition gets {A} (f : fsmap → A) : M A := λ w, (inr (f (w_fs w)), w).
Definition set_fs (fs : fsmap) : M unit := λ w, (inr tt, World fs (w_log w)).
Definition log (ev : event) : M unit := λ w, (inr tt, World (w_fs w) (w_log w ++ [ev])).
Definition lift {A} (r : exn + A) : M A :=
  match r with inl e => raise e | inr a => ret a end.

Declare Scope fsm_scope.
Delimit Scope fsm_scope with fsm.
Notation "'let*' x ':=' m 'in' k" := (bind m (λ x, k))
  (at level 10, x name, m at level 100, k at level 200) : fsm_scope.
Notation "m1 ;; m2" := (bind m1 (λ _, m2))
  (at level 100, m2 at level 200, right associativity) : fsm_scope.
Open Scope fsm_scope.

(** A [for] loop over a list already computed. *)
Fixpoint for_each {A} (l : list A) (body : A → M unit) : M unit :=
  match l with
  | [] => ret tt
  | x :: l' => body x ;; for_each l' body
  end.

(** A [for] loop that carries a value from one round to the next. *)
Fixpoint fold_m {A B} (f : B → A → M B) (b : B) (l : list A) : M B :=
  match l with
  | [] => ret b
  | x :: l' => let* b' := f b x in fold_m f b' l'
  end.

(** ** Library calls that change the file system *)

Section Library.
Variable E : env.

(** [os.unlink] / [Path.unlink]: removes a file or a link node; on
    Windows a junction too. *)
Definition os_unlink (p : path) : M unit :=
  let* r := gets (λ fs, lstat E fs p) in
  match r with
  | inl e => raise e
  | inr (_, Dir) => raise IsADirectoryError
  | inr (l, _) => λ w, set_fs (delete l (w_fs w)) w
  end.

(** [os.rmdir]: removes an empty directory, or a directory link node. *)
Definition os_rmdir (p : path) : M unit :=
  let* r := gets (λ fs, lstat E fs p) in
  match r with
  | inl e => raise e
  | inr (_, File _) => raise NotADirectoryError
  | inr (l, Dir) =>
    λ w, match listdir (w_fs w) l with
         | [] => set_fs (delete l (w_fs w)) w
         | _ :: _ => raise OSError w
         end
  | inr (l, Symlink _) =>
    if os_nt E then λ w, set_fs (delete l (w_fs w)) w else raise NotADirectoryError
  | inr (l, Junction _) => λ w, set_fs (delete l (w_fs w)) w
  end.

(** [shutil.rmtree]: removes a real directory with all below it; links
    inside are removed, never followed; a link as argument is refused. *)
Definition shutil_rmtree (p : path) : M unit :=
  let* r := gets (λ fs, lstat E fs p) in
  match r with
  | inl e => raise e
  | inr (_, File _) => raise NotADirectoryError
  | inr (_, Symlink _) | inr (_, Junction _) => raise OSError
  | inr (l, Dir) =>
    λ w, set_fs (filter (λ kv : path * node, under l kv.1 = false) (w_fs w)) w
  end.

Definition os_mkdir (p : path) : M unit :=
  let* r := gets (λ fs, locate (link_budget E) fs [] p) in
  match r with
  | inl e => raise e
  | inr l =>
    λ w, match node_at (w_fs w) l with
         | Some _ => raise FileExistsError w
         | None => set_fs (<[l := Dir]> (w_fs w)) w
         end
  end.

(** [Path.mkdir(parents=False, exist_ok=...)]. *)
Definition path_mkdir_one (exist_ok : bool) (p : path) : M unit :=
  let* r := try (os_mkdir p) in
  match r with
  | inr _ => ret tt
  | inl FileNotFoundError => raise FileNotFoundError
  | inl e =>
    if is_OSError e then
      let* isd := gets (λ fs, path_is_dir E fs p) in
      if negb exist_ok || negb isd then raise e else ret tt
    else raise e
  end.

(** [Path.mkdir(parents=True, exist_ok=...)]; [n] bounds the climb to the
    parents and is the length of the path. *)
Fixpoint path_mkdir_parents (n : nat) (exist_ok : bool) (p : path) : M unit :=
  let* r := try (os_mkdir p) in
  match r with
  | inr _ => ret tt
  | inl FileNotFoundError =>
    match n with
    | 0 => raise FileNotFoundError
    | S n' =>
      if bool_decide (parent p = p) then raise FileNotFoundError
      else path_mkdir_parents n' true (parent p) ;; path_mkdir_one exist_ok p
    end
  | inl e =>
    if is_OSError e then
      let* isd := gets (λ fs, path_is_dir E fs p) in
      if negb exist_ok || negb isd then raise e else ret tt
    else raise e
  end.

Definition path_mkdir (parents exist_ok : bool) (p : path) : M unit :=
  if parents then path_mkdir_parents (length p) exist_ok p
  else path_mkdir_one exist_ok p.

(** [os.makedirs(name, exist_ok=...)]. *)
Fixpoint os_makedirs_from (n : nat) (exist_ok : bool) (name : path) : M unit :=
  (let* head_exists := gets (λ fs, path_exists E fs (parent name)) in
   if bool_decide (name ≠ []) && negb head_exists then
     match n with
     | 0 => ret tt
     | S n' =>
       let* r := try (os_makedirs_from n' exist_ok (parent name)) in
       match r with
       | inr _ | inl FileExistsError => ret tt
       | inl e => raise e
       end
     end
   else ret tt) ;;
  let* r := try (os_mkdir name) in
  match r with
  | inr _ => ret tt
  | inl e =>
    if is_OSError e then
      let* isd := gets (λ fs, path_is_dir E fs name) in
      if negb exist_ok || negb isd then raise e else ret tt
    else raise e
  end.

Definition os_makedirs (exist_ok : bool) (name : path) : M unit :=
  os_makedirs_from (length name) exist_ok name.

(** [open(p, "wb").write(data)]. *)
Definition write_file (p : path) (data : content) : M unit :=
  let* r := gets (λ fs, open_wb E fs p) in
  match r with
  | inl e => raise e
  | inr l => λ w, set_fs (<[l := File data]> (w_fs w)) w
  end.

(** [shutil.copy2(src, dst)]: into [dst] when [dst] is a directory, over
    [dst] otherwise; the bytes of [src] are copied, links followed. *)
Definition shutil_copy2 (src dst : path) : M unit :=
  log (Call_copy2 src dst) ;;
  let* dst_is_dir := gets (λ fs, path_is_dir E fs dst) in
  let dst := if dst_is_dir then dst ++ [basename src] else dst in
  let* same := gets (λ fs, samefile E fs src dst) in
  if same then raise SameFileError
  else
    let* r := gets (λ fs, stat E fs src) in
    match r with
    | inl e => raise e
    | inr (_, File data) => write_file dst data
    | inr (_, Dir) => raise IsADirectoryError
    | inr (_, _) => raise OSError
    end.

(** [os.symlink(target, dest, target_is_directory=True)]. *)
Definition os_symlink (target dest : path) : M unit :=
  log (Call_symlink target dest) ;;
  if negb (symlink_privilege E) then raise OSError
  else
    let* r := gets (λ fs, locate (link_budget E) fs [] dest) in
    match r with
    | inl e => raise e
    | inr l =>
      λ w, match node_at (w_fs w) l with
           | Some _ => raise FileExistsError w
           | None => set_fs (<[l := Symlink target]> (w_fs w)) w
           end
    end.

(** [subprocess.run(["cmd", "/c", "mklink", "/J", dest, target], check=True)]. *)
Definition mklink_junction (dest target : path) : M unit :=
  log (Call_mklink dest target) ;;
  if negb (os_nt E) then raise FileNotFoundError
  else if negb (junction_available E) then raise CalledProcessError
  else
    let* r := gets (λ fs, locate (link_budget E) fs [] dest) in
    match r with
    | inl _ => raise CalledProcessError
    | inr l =>
      λ w, match node_at (w_fs w) l with
           | Some _ => raise CalledProcessError w
           | None => set_fs (<[l := Junction target]> (w_fs w)) w
           end
    end.

(** [shutil.copytree(src, dst)] with its defaults: the destination must
    be new, links in the source are followed, the [OSError]s of the
    entries are collected and raised together at the end. *)
Fixpoint copytree_from (depth : nat) (src dst : path) : M unit :=
  match depth with
  | 0 => raise RecursionError
  | S d =>
    let* entries := gets (λ fs, scandir E fs src) in
    let* names := lift entries in
    os_makedirs false dst ;;
    let* errors :=
      fold_m (λ (errors : bool) (name : string),
                let* isd := gets (λ fs, path_is_dir E fs (src ++ [name])) in
                let* r := try (if isd then copytree_from d (src ++ [name]) (dst ++ [name])
                               else shutil_copy2 (src ++ [name]) (dst ++ [name])) in
                match r with
                | inr _ => ret errors
                | inl e => if is_OSError e then ret true else raise e
                end) false names in
    if errors then raise ShutilError else ret tt
  end.

Definition shutil_copytree (src dst : path) : M unit :=
  log (Call_copytree src dst) ;;
  copytree_from (recursion_limit E) src dst.

(** [for root, dirs, files in os.walk(top): body]: top-down, a directory
    is read when the loop reaches it, an unreadable one is skipped,
    links to directories are listed but not entered. *)
Fixpoint os_walk_for (depth : nat) (top : path)
    (body : path → list string → list string → M unit) : M unit :=
  match depth with
  | 0 => raise RecursionError
  | S d =>
    let* entries := gets (λ fs, scandir E fs top) in
    match entries with
    | inl _ => ret tt
    | inr names =>
      let* dirs := gets (λ fs, filter (λ n, path_is_dir E fs (top ++ [n]) = true) names) in
      let* files := gets (λ fs, filter (λ n, path_is_dir E fs (top ++ [n]) = false) names) in
      body top dirs files ;;
      for_each dirs (λ dirname,
        let new_path := top ++ [dirname] in
        let* is_link := gets (λ fs, path_is_symlink E fs new_path) in
        if is_link then ret tt else os_walk_for d new_path body)
    end
  end.

(** [Path.iterdir()], read in full when the loop starts. *)
Definition path_iterdir (p : path) : M (list path) :=
  let* entries := gets (λ fs, scandir E fs p) in
  let* names := lift entries in
  ret ((λ n, p ++ [n]) <$> names).

(** One member of [ZipFile.extractall(target)], as it is unpacked on
    POSIX: the empty, [.] and [..] parts of the member name are dropped.
    On Windows [zipfile] moreover strips a drive and rewrites the
    characters and trailing dots that Windows refuses; that renaming is
    not part of this model. *)
Definition extract_member (target : path) (m : zip_member) : M unit :=
  let arcname := filter (λ x, x ∉ [""; "."; ".."]) m.1 in
  let targetpath := target ++ arcname in
  let upperdirs := parent targetpath in
  (let* up := gets (λ fs, path_exists E fs upperdirs) in
   if up then ret tt else os_makedirs false upperdirs) ;;
  match m.2 with
  | None =>
    let* isd := gets (λ fs, path_is_dir E fs targetpath) in
    if isd then ret tt else os_mkdir targetpath
  | Some data => write_file targetpath data
  end.

Definition zip_extractall (zip_path target : path) : M unit :=
  let* r := gets (λ fs, stat E fs zip_path) in
  match r with
  | inl e => raise e
  | inr (_, File data) =>
    match unzip E data with
    | None => raise BadZipFile
    | Some members => for_each members (extract_member target)
    end
  | inr (_, _) => raise IsADirectoryError
  end.
End Library.

(** ** Names *)

(** Index of the last dot of a name, as [str.rfind(".")]. *)
Fixpoint rfind_dot (cs : list ascii) : option nat :=
  match cs with
  | [] => None
  | c :: cs' =>
    match rfind_dot cs' with
    | Some i => Some (S i)
    | None => if Ascii.eqb c "."%char then Some 0 else None
    end
  end.

(** [PurePath.suffix] of a file name. *)
Definition py_suffix (name : string) : string :=
  let cs := list_ascii_of_string name in
  match rfind_dot cs with
  | Some i =>
    if ((0 <? i) && (i <? length cs - 1))%nat then string_of_list_ascii (drop i cs) else ""
  | None => ""
  end.

(** The order [sorted()] puts the entries of one directory in: their names
    compared as strings.  This is the order of POSIX paths; Windows paths
    compare without regard to case, so what is proved from this order is
    stated for POSIX. *)
Definition name_le (a b : path) : Prop := String.leb (basename a) (basename b) = true.

#[global] Instance name_le_dec : RelDecision name_le.
Proof. intros a b. unfold name_le. apply _. Defined.

(** ** The script *)

(** Only these top-level folders are managed by this tool. *)
Definition MANAGED_TOP_FOLDERS : list string :=
  ["audio"; "data"; "levels"; "shaders"; "swfs"; "textures"].

Section Script.
Variable E : env.

Definition mods_dir : path := builder_dir E ++ ["mods"].
Definition output_dir : path := builder_dir E ++ ["output"].
Definition game_dir : path := parent (builder_dir E).

(** True for junctions/symlinks (reparse points) on Windows. *)
Definition _is_windows_reparse_point (fs : fsmap) (p : path) : bool :=
  if negb (os_nt E) then false
  else
    match lstat E fs p with
    | inr (_, Symlink _) | inr (_, Junction _) => true
    | _ => false
    end.

(** Remove file/dir/junction/symlink at p without deleting link targets. *)
Definition _remove_existing_path (p : path) : M unit :=
  let* ex := gets (λ fs, path_exists E fs p) in
  let* lnk := gets (λ fs, path_is_symlink E fs p) in
  let* rp := gets (λ fs, _is_windows_reparse_point fs p) in
  if negb ex && negb lnk && negb rp then ret tt
  else
    let* lnk := gets (λ fs, path_is_symlink E fs p) in
    if lnk then os_unlink E p
    else
      let* isd := gets (λ fs, path_is_dir E fs p) in
      if isd then
        let* rp := gets (λ fs, _is_windows_reparse_point fs p) in
        if rp then os_rmdir E p
        else shutil_rmtree E p
      else os_unlink E p.

(** Create a link at dest pointing to src_dir: symlink, then junction,
    then copy.  Returns what was done. *)
Definition _try_create_dir_link (src_dir dest : path) : M string :=
  let* src_dir := gets (λ fs, path_resolve E fs src_dir) in
  let* r := try (os_symlink E src_dir dest) in
  match r with
  | inr _ => ret "symlink"
  | inl e =>
    if negb (is_OSError e) then raise e
    else if negb (os_nt E) then raise e
    else
      let* r := try (mklink_junction E dest src_dir) in
      match r with
      | inr _ => ret "junction"
      | inl _ => shutil_copytree E src_dir dest ;; ret "copied"
      end
  end.

(** Deploy step: for each top-level entry inside output/, create a link
    (or a copy) in game_dir. *)
Definition symlink_to_game : M unit :=
  let* items := path_iterdir E output_dir in
  for_each items (λ item,
    let dest := game_dir ++ [basename item] in
    _remove_existing_path dest ;;
    let* isd := gets (λ fs, path_is_dir E fs item) in
    if isd then
      let* method := _try_create_dir_link item dest in
      ret tt
    else shutil_copy2 E item dest).

(** Ensure output/ is a clean empty folder. *)
Definition clear_output : M unit :=
  let* ex := gets (λ fs, path_exists E fs output_dir) in
  (if ex then shutil_rmtree E output_dir else ret tt) ;;
  path_mkdir E true false output_dir.

(** Recursively copy all files from src -> dst, preserving folder
    structure, merging into dst and overwriting files there. *)
Definition copy_tree (src dst : path) : M unit :=
  os_walk_for E (recursion_limit E) src (λ root dirs files,
    match strip_prefix src root with
    | None => raise ValueError
    | Some rel_path =>
      let target_root := dst ++ rel_path in
      path_mkdir E true true target_root ;;
      for_each files (λ file,
        let src_file := root ++ [file] in
        let dst_file := target_root ++ [file] in
        shutil_copy2 E src_file dst_file)
    end).

(** Unpack a .zip mod into temp_dir. *)
Definition extract_zip (zip_path temp_dir : path) : M unit :=
  zip_extractall E zip_path temp_dir.

(** The body of the loop of [build_mods] for one entry of mods/. *)
Definition process_mod (mod_ : path) : M unit :=
  let* isd := gets (λ fs, path_is_dir E fs mod_) in
  if isd then copy_tree mod_ output_dir
  else if bool_decide (py_suffix (basename mod_) = ".zip") then
    let temp_dir := output_dir ++ ["__temp__"] in
    path_mkdir E false true temp_dir ;;
    extract_zip mod_ temp_dir ;;
    copy_tree temp_dir output_dir ;;
    shutil_rmtree E temp_dir
  else ret tt.

(** Build step: merge all mods from mods/ into output/, in sorted order. *)
Definition build_mods : M unit :=
  clear_output ;;
  let* mods := path_iterdir E mods_dir in
  for_each (merge_sort name_le mods) process_mod.

(** Remove only the items that this tool would deploy into the game
    folder.  The value is [removed_any]. *)
Definition undeploy_from_game : M bool :=
  let* ex := gets (λ fs, path_exists E fs output_dir) in
  if negb ex then ret false
  else
    fold_m (λ (removed_any : bool) (item : string),
              let dest := game_dir ++ [item] in
              let* ex := gets (λ fs, path_exists E fs dest) in
              let* lnk := gets (λ fs, path_is_symlink E fs dest) in
              if ex || lnk then _remove_existing_path dest ;; ret true
              else ret removed_any) false MANAGED_TOP_FOLDERS.

(** The prompt: "b" builds and deploys, "d" undeploys, "q" quits.
    [action] is the answer once the script has lowered and stripped it. *)
Definition main (action : string) : M unit :=
  if bool_decide (action = "b") then build_mods ;; symlink_to_game
  else if bool_decide (action = "d") then undeploy_from_game ;; ret tt
  else ret tt.
End Script.

(** ** Shapes of trees used in the statements *)

(** [dir_chain fs cur rest]: going down from [cur] along [rest], every
    step is a stored directory (so no link is met on the way). *)
Fixpoint dir_chain (fs : fsmap) (cur rest : path) : Prop :=
  match rest with
  | [] => True
  | c :: rest' => fs !! (cur ++ [c]) = Some Dir ∧ dir_chain fs (cur ++ [c]) rest'
  end.

(** A path whose every component is a stored directory, as a resolved
    path is. *)
Definition physical_dir (fs : fsmap) (p : path) : Prop := dir_chain fs [] p.

(** ** Sample worlds *)

Definition bytes (s : string) : content := list_byte_of_string s.

(** An archive library for the samples: it knows three archives by their
    bytes. *)
Definition sample_unzip (c : content) : option (list zip_member) :=
  if decide (c = bytes "ZIP:levels") then
    Some [(["levels"], None); (["levels"; "intro.lvl"], Some (bytes "intro"))]
  else if decide (c = bytes "ZIP:temp") then
    Some [(["__temp__"; "y.txt"], Some (bytes "y"))]
  else if decide (c = bytes "ZIP:empty") then Some []
  else None.

Definition posix_env : env :=
  Env false 40 1000 true false sample_unzip ["game"; "loader"].

(** A Windows account without the privilege to create symbolic links. *)
Definition windows_env : env :=
  Env true 63 1000 false true sample_unzip ["game"; "loader"].

(** A game folder where [data] is a link left behind by an earlier deploy
    whose output folder is gone. *)
Definition stale_link_fs : fsmap :=
  list_to_map [
    (["game"], Dir);
    (["game"; "saves"], Dir);
    (["game"; "data"], Symlink ["game"; "loader"; "output"; "data"])].

(** The same, with a junction. *)
Definition stale_junction_fs : fsmap :=
  list_to_map [
    (["game"], Dir);
    (["game"; "saves"], Dir);
    (["game"; "data"], Junction ["game"; "loader"; "output"; "data"])].

(** ** Relations between the file system before and after a run *)

(** [keeps J m]: whatever [m] returns or raises, the file system it leaves
    is related by [J] to the one it started from. *)
Definition keeps {A : Type} (J : relation fsmap) (m : M A) : Prop :=
  ∀ w, J (w_fs w) (w_fs (m w).2).

(** Nothing changed at the stored paths outside the region [R]. *)
Definition same_outside (R : path → Prop) : relation fsmap :=
  λ fs fs', ∀ q, ¬ R q → fs' !! q = fs !! q.

(** A frame with an invariant: from a file system satisfying [Pre], the
    run keeps [Pre] and changes nothing outside [R]. *)
Definition frame (Pre : fsmap → Prop) (R : path → Prop) : relation fsmap :=
  λ fs fs', Pre fs → Pre fs' ∧ same_outside R fs fs'.

(** The region of the entries of directory [d] called one of [names]. *)
Definition entries_region (d : path) (names : list string) (q : path) : Prop :=
  ∃ name, name ∈ names ∧ under (d ++ [name]) q = true.

(** A game folder after a build and a deploy on a POSIX system: [data] is
    a link into output/, [saves] belongs to the game. *)
Definition deployed_fs : fsmap :=
  list_to_map [
    (["game"], Dir);
    (["game"; "saves"], Dir);
    (["game"; "saves"; "slot1"], File (bytes "save"));
    (["game"; "data"], Symlink ["game"; "loader"; "output"; "data"]);
    (["game"; "loader"], Dir);
    (["game"; "loader"; "output"], Dir);
    (["game"; "loader"; "output"; "data"], Dir);
    (["game"; "loader"; "output"; "data"; "x.txt"], File (bytes "2"))].

(** The loader with two overlays: the folder [A], which holds
    [__temp__/x.txt], and the archive [B.zip]. *)
Definition temp_clash_fs : fsmap :=
  list_to_map [
    (["game"], Dir);
    (["game"; "loader"], Dir);
    (["game"; "loader"; "mods"], Dir);
    (["game"; "loader"; "mods"; "A"], Dir);
    (["game"; "loader"; "mods"; "A"; "__temp__"], Dir);
    (["game"; "loader"; "mods"; "A"; "__temp__"; "x.txt"], File (bytes "1"));
    (["game"; "loader"; "mods"; "B.zip"], File (bytes "ZIP:levels"))].

(** The loader with one overlay, an archive whose only member is
    [__temp__/y.txt]. *)
Definition temp_member_fs : fsmap :=
  list_to_map [
    (["game"], Dir);
    (["game"; "loader"], Dir);
    (["game"; "loader"; "mods"], Dir);
    (["game"; "loader"; "mods"; "C.zip"], File (bytes "ZIP:temp"))].

(** The files stored below a directory, with their bytes. *)
Definition files_below (fs : fsmap) (d : path) : list (path * content) :=
  omap (λ kv : path * node,
          match strip_prefix d kv.1, kv.2 with
          | Some rel, File data => Some (rel, data)
          | _, _ => None
          end) (map_to_list fs).

(** ** Regular trees *)

Definition is_link (n : node) : bool :=
  match n with
  | Symlink _ | Junction _ => true
  | _ => false
  end.

(** No link is stored at [d] or below it. *)
Definition link_free (fs : fsmap) (d : path) : Prop :=
  map_Forall (λ k n, under d k = true → is_link n = false) fs.

(** Every stored node sits in a stored directory. *)
Definition well_formed (fs : fsmap) : Prop :=
  map_Forall (λ k _, node_at fs (parent k) = Some Dir) fs.

#[global] Instance link_free_dec (fs : fsmap) (d : path) : Decision (link_free fs d).
Proof. unfold link_free. apply _. Defined.

#[global] Instance well_formed_dec (fs : fsmap) : Decision (well_formed fs).
Proof. unfold well_formed. apply _. Defined.

(** No link is met before the last component of [p]. *)
Definition plain_path (fs : fsmap) (p : path) : Prop :=
  ∀ k n, 0 < k < length p → fs !! take k p = Some n → is_link n = false.

Definition no_link_at (fs : fsmap) (p : path) : Prop :=
  ∀ n, node_at fs p = Some n → is_link n = false.

(** A file stays a file, anything else stays what it is. *)
Definition same_kind (n n' : node) : Prop :=
  match n, n' with
  | File _, File _ => True
  | _, _ => n = n'
  end.

(** Nothing stored is removed or changes its kind. *)
Definition grows : relation fsmap :=
  λ fs fs', ∀ q n, fs !! q = Some n → ∃ n', fs' !! q = Some n' ∧ same_kind n n'.

(** A relation that is only promised from file systems satisfying [Pre],
    and then keeps [Pre]. *)
Definition guarded (Pre : fsmap → Prop) (Rel : relation fsmap) : relation fsmap :=
  λ fs fs', Pre fs → Pre fs' ∧ Rel fs fs'.

(** ** Relations kept by the tree merger

    They speak about a run of [copy_tree src dst] started from [fs0]. *)

(** A directory that appears was made as the mirror of a directory of the
    source. *)
Definition dirs_made (fs0 : fsmap) (src dst : path) : relation fsmap :=
  λ fs fs', ∀ q, fs' !! q = Some Dir →
    fs !! q = Some Dir ∨ ∃ a, q = dst ++ a ∧ node_at fs0 (src ++ a) = Some Dir.

(** A source file that has reached its mirror path stays there. *)
Definition copied_stay (fs0 : fsmap) (src dst : path) : relation fsmap :=
  λ fs fs', ∀ r c, fs0 !! (src ++ r) = Some (File c) →
    fs !! (dst ++ r) = Some (File c) → fs' !! (dst ++ r) = Some (File c).

Definition merge_pre (fs0 : fsmap) (src dst : path) (fs : fsmap) : Prop :=
  physical_dir fs src ∧ physical_dir fs (parent dst) ∧ link_free fs dst ∧
  ∀ q, under src q = true → fs !! q = fs0 !! q.

Definition merge_rel (fs0 : fsmap) (src dst : path) : relation fsmap :=
  λ fs fs', same_outside (λ q, under dst q = true) fs fs' ∧ grows fs fs' ∧
            dirs_made fs0 src dst fs fs' ∧ copied_stay fs0 src dst fs fs'.

Definition merging (fs0 : fsmap) (src dst : path) : relation fsmap :=
  guarded (merge_pre fs0 src dst) (merge_rel fs0 src dst).

(** [silent m]: a run of [m] adds nothing to the log. *)
Definition silent {A : Type} (m : M A) : Prop := ∀ w, w_log (m w).2 = w_log w.

(** [rs] lists the files stored below [d], each once, by the path that
    leads from [d] to them. *)
Definition files_under (fs : fsmap) (d : path) (rs : list path) : Prop :=
  NoDup rs ∧ ∀ r, r ∈ rs ↔ r ≠ [] ∧ ∃ c, fs !! (d ++ r) = Some (File c).

(** One [shutil.copy2] call for each of [rs], from below [src] to the same
    place below [dst]. *)
Definition copy_events (src dst : path) (rs : list path) : list event :=
  (λ r, Call_copy2 (src ++ r) (dst ++ r)) <$> rs.

(** The loader with one overlay [A], and an output folder that already
    holds an older [data/x.txt] and a file of its own. *)
Definition merge_fs : fsmap :=
  list_to_map [
    (["game"], Dir);
    (["game"; "loader"], Dir);
    (["game"; "loader"; "mods"], Dir);
    (["game"; "loader"; "mods"; "A"], Dir);
    (["game"; "loader"; "mods"; "A"; "data"], Dir);
    (["game"; "loader"; "mods"; "A"; "data"; "x.txt"], File (bytes "new"));
    (["game"; "loader"; "mods"; "A"; "readme.txt"], File (bytes "A"));
    (["game"; "loader"; "output"], Dir);
    (["game"; "loader"; "output"; "data"], Dir);
    (["game"; "loader"; "output"; "data"; "x.txt"], File (bytes "old"));
    (["game"; "loader"; "output"; "data"; "y.txt"], File (bytes "kept"))].

(** A Windows account that can make neither symbolic links nor junctions. *)
Definition locked_windows_env : env :=
  Env true 63 1000 false false sample_unzip ["game"; "loader"].

(** A game folder after a build, before any deploy. *)
Definition built_fs : fsmap :=
  list_to_map [
    (["game"], Dir);
    (["game"; "saves"], Dir);
    (["game"; "loader"], Dir);
    (["game"; "loader"; "output"], Dir);
    (["game"; "loader"; "output"; "data"], Dir);
    (["game"; "loader"; "output"; "data"; "x.txt"], File (bytes "2"));
    (["game"; "loader"; "output"; "data"; "maps"], Dir);
    (["game"; "loader"; "output"; "data"; "maps"; "m1"], File (bytes "map"))].

(** ** What every real file system satisfies *)

Definition is_junction (n : node) : bool :=
  match n with
  | Junction _ => true
  | _ => false
  end.

(** Junctions are stored on Windows only. *)
Definition platform_ok (E : env) (fs : fsmap) : Prop :=
  os_nt E = false → map_Forall (λ _ n, is_junction n = false) fs.

Definition sound (E : env) (fs : fsmap) : Prop := well_formed fs ∧ platform_ok E fs.

(** [sound] is kept. *)
Definition stays_sound (E : env) : relation fsmap := λ fs fs', sound E fs → sound E fs'.

(** The names that [output_dir.iterdir()] yields: the top-level entries
    of output/, none when output/ cannot be listed. *)
Definition output_entries (E : env) (fs : fsmap) : list string :=
  match scandir E fs (output_dir E) with
  | inr names => names
  | inl _ => []
  end.

(** A game with a save, beside a loader whose output/ holds a top-level
    folder called [saves]. *)
Definition saves_built_fs : fsmap :=
  list_to_map [
    (["game"], Dir);
    (["game"; "saves"], Dir);
    (["game"; "saves"; "slot1"], File (bytes "save"));
    (["game"; "loader"], Dir);
    (["game"; "loader"; "output"], Dir);
    (["game"; "loader"; "output"; "saves"], Dir);
    (["game"; "loader"; "output"; "saves"; "readme.txt"], File (bytes "hi"))].

(** Writes that stay at [dst] and below it, in a tree where no link can
    lead them elsewhere. *)
Definition confined (dst : path) : relation fsmap :=
  frame (λ fs, physical_dir fs (parent dst) ∧ link_free fs dst) (λ q, under dst q = true).

(** What the deployer works in: a real file system whose game folder is a
    real directory. *)
Definition deployable (E : env) (fs : fsmap) : Prop :=
  physical_dir fs (game_dir E) ∧ sound E fs.

(** ** Relations kept by a build *)

(** Every stored node still sits in a stored directory. *)
Definition stays_well_formed : relation fsmap := λ fs fs', well_formed fs → well_formed fs'.

(** The same files with the same bytes. *)
Definition same_files : relation fsmap :=
  λ fs fs', ∀ q c, fs !! q = Some (File c) ↔ fs' !! q = Some (File c).

(** In a run of [copy_tree src dst] started from [fs0]: a file that is
    not at the mirror path of a source file keeps its bytes, and a file
    found afterwards was there before or is the mirror of a source file,
    with its bytes. *)
Definition files_exact (fs0 : fsmap) (src dst : path) : relation fsmap :=
  λ fs fs',
    (∀ q c, fs !! q = Some (File c) →
            (∀ r c', r ≠ [] → q = dst ++ r → fs0 !! (src ++ r) ≠ Some (File c')) →
            fs' !! q = Some (File c)) ∧
    (∀ q c, fs' !! q = Some (File c) →
            fs !! q = Some (File c) ∨
            ∃ r, r ≠ [] ∧ q = dst ++ r ∧ fs0 !! (src ++ r) = Some (File c)).

(** No file of the source finds a directory at its mirror path. *)
Definition merge_fits (fs0 : fsmap) (src dst : path) (fs : fsmap) : Prop :=
  ∀ r c, r ≠ [] → fs0 !! (src ++ r) = Some (File c) → fs !! (dst ++ r) ≠ Some Dir.

Definition merge_rel_exact (fs0 : fsmap) (src dst : path) : relation fsmap :=
  λ fs fs', merge_rel fs0 src dst fs fs' ∧ files_exact fs0 src dst fs fs'.

Definition merging_exact (fs0 : fsmap) (src dst : path) : relation fsmap :=
  guarded (λ fs, merge_pre fs0 src dst fs ∧ merge_fits fs0 src dst fs)
          (merge_rel_exact fs0 src dst).

(** Every entry of mods/ is a real folder. *)
Definition folder_overlays (E : env) (fs : fsmap) : Prop :=
  Forall (λ a, fs !! (mods_dir E ++ [a]) = Some Dir) (listdir fs (mods_dir E)).

(** No overlay holds a file where another overlay holds a folder. *)
Definition overlays_agree (E : env) (fs : fsmap) : Prop :=
  map_Forall (λ k n,
    match strip_prefix (mods_dir E) k, n with
    | Some (a :: r), File _ =>
      Forall (λ b, fs !! (mods_dir E ++ b :: r) ≠ Some Dir) (listdir fs (mods_dir E))
    | _, _ => True
    end) fs.

#[global] Instance overlays_agree_dec (E : env) (fs : fsmap) : Decision (overlays_agree E fs).
Proof.
  unfold overlays_agree. apply map_Forall_dec. intros k n.
  destruct (strip_prefix (mods_dir E) k) as [[|a r]|], n; apply _.
Defined.

(** The loader with two folder overlays that both hold [data/x.txt]. *)
Definition two_overlays_fs : fsmap :=
  list_to_map [
    (["game"], Dir);
    (["game"; "loader"], Dir);
    (["game"; "loader"; "mods"], Dir);
    (["game"; "loader"; "mods"; "A"], Dir);
    (["game"; "loader"; "mods"; "A"; "data"], Dir);
    (["game"; "loader"; "mods"; "A"; "data"; "x.txt"], File (bytes "1"));
    (["game"; "loader"; "mods"; "A"; "readme.txt"], File (bytes "a"));
    (["game"; "loader"; "mods"; "B"], Dir);
    (["game"; "loader"; "mods"; "B"; "data"], Dir);
    (["game"; "loader"; "mods"; "B"; "data"; "x.txt"], File (bytes "2"));
    (["game"; "loader"; "output"], Dir);
    (["game"; "loader"; "output"; "stale.txt"], File (bytes "old"))].

(** The loader with an archive overlay and an output folder. *)
Definition archive_fs : fsmap :=
  list_to_map [
    (["game"], Dir);
    (["game"; "loader"], Dir);
    (["game"; "loader"; "mods"], Dir);
    (["game"; "loader"; "mods"; "C.zip"], File (bytes "ZIP:levels"));
    (["game"; "loader"; "output"], Dir)].

(** A loader whose output/ is a link to a folder elsewhere. *)
Definition linked_output_fs : fsmap :=
  list_to_map [
    (["game"], Dir);
    (["game"; "elsewhere"], Dir);
    (["game"; "loader"], Dir);
    (["game"; "loader"; "output"], Symlink ["game"; "elsewhere"])].

(** An overlay [A] whose folder [data] is a link to a folder elsewhere
    that holds [x.txt]; [A] holds a file of its own as well. *)
Definition linked_folder_fs : fsmap :=
  list_to_map [
    (["game"], Dir);
    (["game"; "shared"], Dir);
    (["game"; "shared"; "x.txt"], File (bytes "x"));
    (["game"; "loader"], Dir);
    (["game"; "loader"; "mods"], Dir);
    (["game"; "loader"; "mods"; "A"], Dir);
    (["game"; "loader"; "mods"; "A"; "readme.txt"], File (bytes "A"));
    (["game"; "loader"; "mods"; "A"; "data"], Symlink ["game"; "shared"]);
    (["game"; "loader"; "output"], Dir)].


(** * Properties *)

(** ** Paths *)

Lemma strip_prefix_app (d r : path) : strip_prefix d (d ++ r) = Some r.
Proof. induction d as [|a d IH]; simpl; [done|]. by rewrite decide_True. Qed.

Lemma strip_prefix_Some (d p r : path) : strip_prefix d p = Some r ↔ p = d ++ r.
Proof.
  split; [|intros ->; apply strip_prefix_app].
  revert p. induction d as [|a d IH]; intros [|b p]; simpl; try congruence.
  case_decide; [subst|done]. intros H. by rewrite (IH _ H).
Qed.

Lemma under_true (d p : path) : under d p = true ↔ ∃ r, p = d ++ r.
Proof.
  unfold under. destruct (strip_prefix d p) as [r|] eqn:H.
  - apply strip_prefix_Some in H. naive_solver.
  - split; [done|]. intros [r ->]. by rewrite strip_prefix_app in H.
Qed.

Lemma under_false (d p : path) : under d p = false ↔ ∀ r, p ≠ d ++ r.
Proof.
  rewrite <- not_true_iff_false, under_true. naive_solver.
Qed.

Lemma parent_snoc (d : path) (n : string) : parent (d ++ [n]) = d.
Proof. apply removelast_last. Qed.

Lemma basename_snoc (d : path) (n : string) : basename (d ++ [n]) = n.
Proof. apply last_last. Qed.

Lemma snoc_ne_nil (d : path) (n : string) : d ++ [n] ≠ [].
Proof. by destruct d. Qed.

Lemma node_at_snoc (fs : fsmap) (d : path) (n : string) :
  node_at fs (d ++ [n]) = fs !! (d ++ [n]).
Proof. by destruct d. Qed.

(** ** Resolution along real directories *)

Lemma dir_chain_app (fs : fsmap) (cur a b : path) :
  dir_chain fs cur (a ++ b) ↔ dir_chain fs cur a ∧ dir_chain fs (cur ++ a) b.
Proof.
  revert cur. induction a as [|c a IH]; intros cur; simpl.
  - rewrite app_nil_r. naive_solver.
  - rewrite IH, <- app_assoc. simpl. naive_solver.
Qed.

Lemma dir_chain_lookup (fs : fsmap) (cur rest : path) (k : nat) :
  dir_chain fs cur rest → 0 < k ≤ length rest → fs !! (cur ++ take k rest) = Some Dir.
Proof.
  revert cur k. induction rest as [|c rest IH]; intros cur k; simpl; [lia|].
  intros [Hc Hrest] Hk. destruct k as [|k]; [lia|]. simpl.
  destruct (decide (k = 0)) as [->|]; [by rewrite take_0|].
  replace (cur ++ c :: take k rest) with ((cur ++ [c]) ++ take k rest)
    by (by rewrite <- app_assoc).
  apply IH; [done|lia].
Qed.

Lemma locate_chain (h : nat) (fs : fsmap) (cur d : path) (n : string) :
  dir_chain fs cur d → locate h fs cur (d ++ [n]) = inr (cur ++ d ++ [n]).
Proof.
  revert cur. induction d as [|c d IH]; intros cur Hd.
  - by destruct h.
  - destruct Hd as [Hc Hd]. specialize (IH _ Hd).
    rewrite <- app_assoc in IH. simpl in IH.
    destruct h; simpl in *; destruct (d ++ [n]) eqn:Hdn;
      try (by destruct d); by rewrite Hc.
Qed.

Lemma locate_error_is_OSError (h : nat) (fs : fsmap) (cur p : path) (e : exn) :
  locate h fs cur p = inl e → is_OSError e = true.
Proof.
  revert cur p. induction h as [|h IH]; intros cur p; revert cur;
    induction p as [|c rest IHp]; intros cur; simpl; try done;
    destruct rest as [|c' rest]; try done;
    destruct (fs !! (cur ++ [c])) as [[]|]; try (by intros [= <-]); eauto.
Qed.

Section Resolution.
Variable E : env.

Lemma lstat_physical (fs : fsmap) (d : path) (n : string) :
  physical_dir fs d →
  lstat E fs (d ++ [n]) =
    match fs !! (d ++ [n]) with
    | Some nd => inr (d ++ [n], nd)
    | None => inl FileNotFoundError
    end.
Proof.
  intros Hd. unfold lstat. rewrite locate_chain by done. simpl.
  by rewrite node_at_snoc.
Qed.

Lemma stat_absent (fs : fsmap) (p : path) (e : exn) :
  lstat E fs p = inl e → stat E fs p = inl e.
Proof. unfold stat. intros H. destruct (link_budget E); simpl; by rewrite H. Qed.

Lemma stat_plain (fs : fsmap) (p l : path) (n : node) :
  lstat E fs p = inr (l, n) →
  (∀ t, n ≠ Symlink t) → (∀ t, n ≠ Junction t) →
  stat E fs p = inr (l, n).
Proof.
  unfold stat. intros H Hs Hj.
  destruct (link_budget E); simpl; rewrite H; destruct n; naive_solver.
Qed.
End Resolution.

(** ** The safe remover *)

Section Safe_remover.
Variable E : env.

Lemma queries_of_absent (fs : fsmap) (p : path) (e : exn) :
  lstat E fs p = inl e →
  path_exists E fs p = false ∧ path_is_symlink E fs p = false ∧
  _is_windows_reparse_point E fs p = false.
Proof.
  intros H. unfold path_exists, path_is_symlink, _is_windows_reparse_point.
  rewrite (stat_absent _ _ _ _ H), H. by destruct (os_nt E).
Qed.

(** C3, amended: where no node at all sits at the path (not even a
    dangling link), the safe remover returns without an exception and
    leaves the world as it was. *)
Theorem remove_absent_is_noop (p : path) (w : world) (e : exn) :
  lstat E (w_fs w) p = inl e →
  _remove_existing_path E p w = (inr tt, w).
Proof.
  intros H. destruct (queries_of_absent _ _ _ H) as (Hex & Hlnk & Hrp).
  unfold _remove_existing_path, bind, gets, ret. simpl.
  by rewrite Hex, Hlnk, Hrp.
Qed.

(** C4: on a symbolic link, or on Windows a junction, the safe remover
    deletes the link node and nothing else: every other stored path, in
    particular all that lies at the target of the link, keeps its node. *)
Theorem remove_link_keeps_target (p l t : path) (w : world) :
  lstat E (w_fs w) p = inr (l, Symlink t) ∨
  (os_nt E = true ∧ lstat E (w_fs w) p = inr (l, Junction t)) →
  ∃ w', _remove_existing_path E p w = (inr tt, w') ∧
        w_fs w' = delete l (w_fs w) ∧
        w_log w' = w_log w ∧
        ∀ q, q ≠ l → w_fs w' !! q = w_fs w !! q.
Proof.
  intros H. exists (World (delete l (w_fs w)) (w_log w)).
  split; [|split_and!; simpl; try done; intros q Hq; by rewrite lookup_delete_ne].
  unfold _remove_existing_path, os_unlink, os_rmdir, bind, gets, ret, set_fs. simpl.
  destruct H as [H|[Hnt H]].
  - assert (path_is_symlink E (w_fs w) p = true) as Hlnk
      by (unfold path_is_symlink; by rewrite H).
    rewrite Hlnk, andb_false_r. simpl. by rewrite Hlnk, H.
  - assert (path_is_symlink E (w_fs w) p = false) as Hlnk
      by (unfold path_is_symlink; by rewrite H).
    assert (_is_windows_reparse_point E (w_fs w) p = true) as Hrp
      by (unfold _is_windows_reparse_point; by rewrite Hnt, H).
    rewrite Hlnk, Hrp, andb_false_r. simpl. rewrite Hlnk.
    destruct (path_is_dir E (w_fs w) p); simpl; by rewrite ?Hrp, H.
Qed.
End Safe_remover.

(** C3 as stated fails: a dangling link is "nothing exists" for
    [Path.exists], yet the safe remover removes the link. *)
Lemma remove_dangling_link_changes_fs :
  path_exists posix_env stale_link_fs ["game"; "data"] = false ∧
  stale_link_fs !! ["game"; "data"] = Some (Symlink ["game"; "loader"; "output"; "data"]) ∧
  w_fs (_remove_existing_path posix_env ["game"; "data"] (World stale_link_fs [])).2
    !! ["game"; "data"] = None.
Proof. by vm_compute. Qed.

Lemma remove_absent_is_noop_witness :
  _remove_existing_path posix_env ["game"; "levels"] (World stale_link_fs [])
  = (inr tt, World stale_link_fs []).
Proof.
  apply (remove_absent_is_noop posix_env _ _ FileNotFoundError). by vm_compute.
Defined.

Lemma remove_link_keeps_target_witness :
  ∃ w', _remove_existing_path windows_env ["game"; "data"] (World stale_junction_fs [])
        = (inr tt, w') ∧
        w_fs w' = delete ["game"; "data"] stale_junction_fs ∧
        w_log w' = [] ∧
        ∀ q, q ≠ ["game"; "data"] → w_fs w' !! q = stale_junction_fs !! q.
Proof.
  apply (remove_link_keeps_target windows_env _ _ ["game"; "loader"; "output"; "data"]).
  right. by vm_compute.
Defined.

(** ** The directory linker *)

Section Directory_linker.
Variable E : env.

Lemma os_symlink_failure (target dest : path) (w w1 : world) (e : exn) :
  os_symlink E target dest w = (inl e, w1) →
  w1 = World (w_fs w) (w_log w ++ [Call_symlink target dest]) ∧ is_OSError e = true.
Proof.
  unfold os_symlink, bind, log, gets, raise, set_fs. simpl.
  destruct (symlink_privilege E); simpl; [|naive_solver].
  destruct (locate _ _ _ _) as [e'|l] eqn:Hloc; simpl.
  - intros [= <- <-]. eauto using locate_error_is_OSError.
  - destruct (node_at (w_fs w) l); simpl; naive_solver.
Qed.
End Directory_linker.

(** ** Reasoning rules for the monad *)

Section Keeps.
Context (J : relation fsmap) `{!PreOrder J}.

Lemma keeps_ret {A} (a : A) : keeps J (ret a).
Proof. intros w. simpl. reflexivity. Qed.

Lemma keeps_raise {A} (e : exn) : keeps J (@raise A e).
Proof. intros w. simpl. reflexivity. Qed.

Lemma keeps_gets {A} (f : fsmap → A) : keeps J (gets f).
Proof. intros w. simpl. reflexivity. Qed.

Lemma keeps_log (ev : event) : keeps J (log ev).
Proof. intros w. simpl. reflexivity. Qed.

Lemma keeps_lift {A} (r : exn + A) : keeps J (lift r).
Proof. destruct r; [apply keeps_raise|apply keeps_ret]. Qed.

Lemma keeps_bind {A B} (m : M A) (k : A → M B) :
  keeps J m → (∀ a, keeps J (k a)) → keeps J (bind m k).
Proof.
  intros Hm Hk w. unfold bind. specialize (Hm w).
  destruct (m w) as [[e|a] w1]; simpl in *; [done|].
  etrans; [exact Hm|apply Hk].
Qed.

Lemma keeps_try {A} (m : M A) : keeps J m → keeps J (try m).
Proof. intros Hm w. unfold try. specialize (Hm w). by destruct (m w). Qed.

Lemma keeps_for_each {A} (l : list A) (body : A → M unit) :
  (∀ x, x ∈ l → keeps J (body x)) → keeps J (for_each l body).
Proof.
  induction l as [|x l IH]; intros Hb; simpl; [apply keeps_ret|].
  apply keeps_bind; [apply Hb; left|].
  intros _. apply IH. intros y Hy. apply Hb. by right.
Qed.

Lemma keeps_fold_m {A B} (f : B → A → M B) (b : B) (l : list A) :
  (∀ b x, x ∈ l → keeps J (f b x)) → keeps J (fold_m f b l).
Proof.
  revert b. induction l as [|x l IH]; intros b Hf; simpl; [apply keeps_ret|].
  apply keeps_bind; [apply Hf; left|].
  intros b'. apply IH. intros b'' y Hy. apply Hf. by right.
Qed.

Lemma keeps_update (f : fsmap → fsmap) :
  (∀ fs, J fs (f fs)) → keeps J (λ w, set_fs (f (w_fs w)) w).
Proof. intros Hf w. simpl. apply Hf. Qed.
End Keeps.

#[global] Instance same_outside_preorder (R : path → Prop) : PreOrder (same_outside R).
Proof.
  split; [by intros fs q|].
  intros fs1 fs2 fs3 H12 H23 q Hq. by rewrite H23, H12.
Qed.

#[global] Instance frame_preorder (Pre : fsmap → Prop) (R : path → Prop) :
  PreOrder (frame Pre R).
Proof.
  split; [by intros fs ?|].
  intros fs1 fs2 fs3 H12 H23 H1. destruct (H12 H1) as [H2 Ho12].
  destruct (H23 H2) as [H3 Ho23]. split; [done|]. by etrans.
Qed.

Lemma same_outside_mono (R R' : path → Prop) (fs fs' : fsmap) :
  (∀ q, R q → R' q) → same_outside R fs fs' → same_outside R' fs fs'.
Proof. intros HR H q Hq. apply H. naive_solver. Qed.

Lemma keeps_frame_mono {A : Type} (Pre : fsmap → Prop) (R R' : path → Prop) (m : M A) :
  (∀ q, R q → R' q) → keeps (frame Pre R) m → keeps (frame Pre R') m.
Proof.
  intros HR H w HPre. destruct (H w HPre). eauto using same_outside_mono.
Qed.

(** The effect of the three removal calls on the stored paths. *)
Lemma lookup_rmtree (fs : fsmap) (l q : path) :
  filter (λ kv : path * node, under l kv.1 = false) fs !! q
  = if under l q then None else fs !! q.
Proof.
  destruct (under l q) eqn:Hu.
  - apply map_lookup_filter_None. right. intros x _. simpl. congruence.
  - destruct (fs !! q) as [x|] eqn:Hq.
    + by apply map_lookup_filter_Some.
    + apply map_lookup_filter_None. by left.
Qed.

Lemma under_refl (l : path) : under l l = true.
Proof. apply under_true. exists []. by rewrite app_nil_r. Qed.

Lemma under_trans (a b c : path) : under a b = true → under b c = true → under a c = true.
Proof.
  rewrite !under_true. intros [r ->] [r' ->]. exists (r ++ r'). by rewrite app_assoc.
Qed.

Lemma prefix_not_under_entry (d : path) (name : string) (k : nat) :
  under (d ++ [name]) (take k d) = false.
Proof.
  apply under_false. intros r Hr. apply (f_equal length) in Hr.
  rewrite length_take, !length_app in Hr. simpl in Hr. lia.
Qed.

Lemma dir_chain_ext (fs fs' : fsmap) (cur rest : path) :
  (∀ k, 0 < k ≤ length rest → fs' !! (cur ++ take k rest) = fs !! (cur ++ take k rest)) →
  dir_chain fs cur rest → dir_chain fs' cur rest.
Proof.
  revert cur. induction rest as [|c rest IH]; intros cur Hext; simpl; [done|].
  intros [Hc Hrest]. split.
  - rewrite <- Hc. apply (Hext 1). simpl. lia.
  - apply IH; [|done]. intros k Hk. rewrite <- !app_assoc. apply (Hext (S k)). simpl. lia.
Qed.

Lemma physical_dir_outside (fs fs' : fsmap) (d : path) (names : list string) :
  same_outside (entries_region d names) fs fs' →
  physical_dir fs d → physical_dir fs' d.
Proof.
  intros Hout. apply dir_chain_ext. intros k _. simpl. apply Hout.
  intros (name & _ & Hu). by rewrite prefix_not_under_entry in Hu.
Qed.

(** ** What the safe remover can change *)

Ltac case_if :=
  match goal with
  | |- context [if ?c then _ else _] => destruct c eqn:?; simpl
  end.

Section Remover_frame.
Variable E : env.

(** The safe remover leaves the log alone, and the file system either as
    it was, or without the node its path stands for (not a directory, or
    an empty one), or without the directory its path stands for and all
    below it. *)
Lemma remove_shape (p : path) (w : world) :
  let w' := (_remove_existing_path E p w).2 in
  w_log w' = w_log w ∧
  (w_fs w' = w_fs w ∨
   ∃ l n, lstat E (w_fs w) p = inr (l, n) ∧
          (w_fs w' = delete l (w_fs w) ∧ (n ≠ Dir ∨ listdir (w_fs w) l = []) ∨
           w_fs w' = filter (λ kv : path * node, under l kv.1 = false) (w_fs w))).
Proof.
  unfold _remove_existing_path, os_unlink, os_rmdir, shutil_rmtree,
    bind, gets, ret, raise, set_fs. simpl.
  repeat case_if; eauto;
    destruct (lstat E (w_fs w) p) as [e|[l []]]; simpl; eauto 10;
    repeat case_if; eauto 10;
    destruct (listdir (w_fs w) l) eqn:?; simpl; eauto 10;
    (split; [done|]); right; do 2 eexists; (split; [done|]); left; (split; [done|]);
    first [by left|by right].
Qed.

Lemma remove_changes_under (d : path) (name : string) (w : world) :
  physical_dir (w_fs w) d →
  same_outside (λ q, under (d ++ [name]) q = true)
    (w_fs w) (w_fs (_remove_existing_path E (d ++ [name]) w).2).
Proof.
  intros Hd q Hq. destruct (remove_shape (d ++ [name]) w) as [_ [->|(l & n & Hl & H)]];
    [done|].
  rewrite lstat_physical in Hl by done.
  destruct (w_fs w !! (d ++ [name])); simplify_eq.
  destruct H as [[-> _]| ->].
  - apply lookup_delete_ne. intros <-. by rewrite under_refl in Hq.
  - rewrite lookup_rmtree. by destruct (under (d ++ [name]) q).
Qed.

Lemma remove_keeps_frame (d : path) (names : list string) (name : string) :
  name ∈ names →
  keeps (frame (λ fs, physical_dir fs d) (entries_region d names))
    (_remove_existing_path E (d ++ [name])).
Proof.
  intros Hin w Hd.
  assert (same_outside (entries_region d names) (w_fs w)
            (w_fs (_remove_existing_path E (d ++ [name]) w).2)) as Hout.
  { eapply same_outside_mono; [|by apply remove_changes_under].
    intros q Hq. by exists name. }
  eauto using physical_dir_outside.
Qed.
End Remover_frame.

(** ** The undeployer *)

Section Undeployer.
Variable E : env.

(** C10: when output/ does not exist the undeployer returns at once:
    nothing is removed from the game folder, whatever is deployed
    there. *)
Theorem undeploy_without_output_is_noop (w : world) :
  path_exists E (w_fs w) (output_dir E) = false →
  undeploy_from_game E w = (inr false, w).
Proof. intros H. unfold undeploy_from_game, bind, gets, ret. simpl. by rewrite H. Qed.

Lemma undeploy_keeps_frame :
  keeps (frame (λ fs, physical_dir fs (game_dir E))
               (entries_region (game_dir E) MANAGED_TOP_FOLDERS))
    (undeploy_from_game E).
Proof.
  unfold undeploy_from_game.
  apply keeps_bind; [apply _|apply keeps_gets, _|]. intros ex.
  destruct (negb ex); [apply keeps_ret, _|].
  apply keeps_fold_m; [apply _|]. intros removed_any item Hitem.
  apply keeps_bind; [apply _|apply keeps_gets, _|]. intros ex'.
  apply keeps_bind; [apply _|apply keeps_gets, _|]. intros lnk.
  destruct (ex' || lnk); [|apply keeps_ret, _].
  apply keeps_bind; [apply _| |intros _; apply keeps_ret, _].
  by apply remove_keeps_frame.
Qed.

(** C8: in a game folder that is a real directory, the undeployer changes
    nothing but what sits at or below [game_dir/<name>] for the six
    managed names: every other stored path keeps its node, and so does
    the game folder itself, whether the run ends well or raises. *)
Theorem undeploy_touches_only_managed (w : world) :
  physical_dir (w_fs w) (game_dir E) →
  let fs' := w_fs (undeploy_from_game E w).2 in
  (∀ q, (∀ name rest, name ∈ MANAGED_TOP_FOLDERS → q ≠ game_dir E ++ name :: rest) →
        fs' !! q = w_fs w !! q) ∧
  node_at fs' (game_dir E) = node_at (w_fs w) (game_dir E) ∧
  physical_dir fs' (game_dir E).
Proof.
  intros Hg fs'. destruct (undeploy_keeps_frame w Hg) as [Hg' Hout].
  assert (∀ q, (∀ name rest, name ∈ MANAGED_TOP_FOLDERS → q ≠ game_dir E ++ name :: rest) →
               fs' !! q = w_fs w !! q) as Hframe.
  { intros q Hq. apply Hout. intros (name & Hin & Hu).
    apply under_true in Hu as [rest ->]. apply (Hq name rest Hin).
    by rewrite <- app_assoc. }
  split_and!; [done| |done].
  unfold node_at. destruct (game_dir E) as [|c g] eqn:Hgd; [done|].
  apply Hframe. intros name rest _ Heq.
  apply (f_equal length) in Heq. rewrite length_app in Heq. simpl in Heq. lia.
Qed.
End Undeployer.

Lemma undeploy_without_output_is_noop_witness :
  undeploy_from_game posix_env (World stale_link_fs []) = (inr false, World stale_link_fs []).
Proof. apply (undeploy_without_output_is_noop posix_env). by vm_compute. Defined.

Lemma undeploy_touches_only_managed_witness :
  let fs' := w_fs (undeploy_from_game posix_env (World deployed_fs [])).2 in
  (∀ q, (∀ name rest, name ∈ MANAGED_TOP_FOLDERS → q ≠ ["game"] ++ name :: rest) →
        fs' !! q = deployed_fs !! q) ∧
  node_at fs' ["game"] = node_at deployed_fs ["game"] ∧
  physical_dir fs' ["game"].
Proof.
  apply (undeploy_touches_only_managed posix_env (World deployed_fs [])). by vm_compute.
Defined.

(** ** The directory linker, off Windows *)

Section Linker_failure.
Variable E : env.

(** C5: off Windows, when [os.symlink] raises, the directory linker
    raises the same exception: the only call made is the symlink
    attempt (no [mklink], no [copytree]), and the file system is as it
    was. *)
Theorem symlink_failure_propagates (src_dir dest : path) (w w1 : world) (e : exn) :
  os_nt E = false →
  os_symlink E (path_resolve E (w_fs w) src_dir) dest w = (inl e, w1) →
  _try_create_dir_link E src_dir dest w = (inl e, w1) ∧
  w_fs w1 = w_fs w ∧
  w_log w1 = w_log w ++ [Call_symlink (path_resolve E (w_fs w) src_dir) dest].
Proof.
  intros Hnt Hsym. destruct (os_symlink_failure _ _ _ _ _ _ Hsym) as [-> Hos].
  split; [|done].
  unfold _try_create_dir_link, bind, gets, try. simpl. rewrite Hsym. simpl.
  by rewrite Hos, Hnt.
Qed.
End Linker_failure.

Lemma symlink_failure_propagates_witness :
  _try_create_dir_link posix_env ["game"; "loader"; "output"; "data"] ["game"; "data"]
    (World deployed_fs [])
  = (inl FileExistsError,
     World deployed_fs
       [Call_symlink ["game"; "loader"; "output"; "data"] ["game"; "data"]]) ∧
  deployed_fs = deployed_fs ∧
  [Call_symlink ["game"; "loader"; "output"; "data"] ["game"; "data"]]
  = [] ++ [Call_symlink ["game"; "loader"; "output"; "data"] ["game"; "data"]].
Proof.
  apply (symlink_failure_propagates posix_env
           ["game"; "loader"; "output"; "data"] ["game"; "data"] (World deployed_fs [])
           (World deployed_fs
              [Call_symlink ["game"; "loader"; "output"; "data"] ["game"; "data"]])
           FileExistsError);
    by vm_compute.
Defined.

(** ** The mod builder on overlays that use the name of the scratch folder *)

(** C2 fails on the code: [A/] is the only overlay that holds
    [__temp__/x.txt], and sorted before [B.zip].  The build ends well, but
    output/ has no [__temp__/x.txt]: the archive step took [A]'s folder
    for its scratch folder, merged it into the top of output/ and deleted
    it. *)
Lemma build_loses_overlay_named_like_scratch :
  let r := build_mods posix_env (World temp_clash_fs []) in
  r.1 = inr tt ∧
  read_file posix_env temp_clash_fs ["game"; "loader"; "mods"; "A"; "__temp__"; "x.txt"]
    = Some (bytes "1") ∧
  read_file posix_env (w_fs r.2) ["game"; "loader"; "output"; "__temp__"; "x.txt"] = None ∧
  files_below (w_fs r.2) ["game"; "loader"; "output"]
    = [(["x.txt"], bytes "1"); (["levels"; "intro.lvl"], bytes "intro")].
Proof. by vm_compute. Qed.

(** C7 fails on the code: the member [__temp__/y.txt] of [C.zip] is
    extracted, copied from the scratch folder into the scratch folder, and
    deleted with it; the build ends well and output/ holds no file. *)
Lemma build_loses_member_named_like_scratch :
  let r := build_mods posix_env (World temp_member_fs []) in
  r.1 = inr tt ∧
  sample_unzip (bytes "ZIP:temp") = Some [(["__temp__"; "y.txt"], Some (bytes "y"))] ∧
  w_log r.2 = [Call_copy2 ["game"; "loader"; "output"; "__temp__"; "__temp__"; "y.txt"]
                          ["game"; "loader"; "output"; "__temp__"; "y.txt"]] ∧
  files_below (w_fs r.2) ["game"; "loader"; "output"] = [].
Proof. by vm_compute. Qed.

(** ** The tree merger on a source with a linked folder *)

(** C9 fails on the code: [x.txt] is read below the source at
    [data/x.txt], through the folder link [data].  The merger ends well
    and has copied [readme.txt], but it has not visited [x.txt]: no
    [shutil.copy2] call names it and the destination holds no [data] at
    all.  [os.walk] lists the linked folder and does not enter it.
    [shutil.copytree], which the docstring of [copy_tree] compares it
    with, does copy the file from the same source. *)
Lemma copy_tree_skips_linked_folder :
  let src := ["game"; "loader"; "mods"; "A"] in
  let dst := ["game"; "loader"; "output"] in
  let r := copy_tree posix_env src dst (World linked_folder_fs []) in
  let r' := shutil_copytree posix_env src ["game"; "copy"] (World linked_folder_fs []) in
  read_file posix_env linked_folder_fs (src ++ ["data"; "x.txt"]) = Some (bytes "x") ∧
  r.1 = inr tt ∧
  w_log r.2 = [Call_copy2 (src ++ ["readme.txt"]) (dst ++ ["readme.txt"])] ∧
  w_fs r.2 !! (dst ++ ["data"]) = None ∧
  files_below (w_fs r.2) dst = [(["readme.txt"], bytes "A")] ∧
  r'.1 = inr tt ∧
  read_file posix_env (w_fs r'.2) ["game"; "copy"; "data"; "x.txt"] = Some (bytes "x").
Proof. by vm_compute. Qed.

(** ** Resolution where no link is in the way *)

Lemma locate_no_links (h : nat) (fs : fsmap) (rest cur l : path) :
  (∀ k n, 0 < k < length rest → fs !! (cur ++ take k rest) = Some n → is_link n = false) →
  locate h fs cur rest = inr l →
  l = cur ++ rest ∧ ∀ k, 0 < k < length rest → fs !! (cur ++ take k rest) = Some Dir.
Proof.
  revert cur. induction rest as [|c rest IH]; intros cur Hnl Hloc.
  { destruct h; simpl in *; simplify_eq; rewrite app_nil_r; (split; [done|]); simpl; lia. }
  destruct rest as [|c' rest].
  { destruct h; simpl in *; simplify_eq; (split; [done|]); simpl; lia. }
  assert (fs !! (cur ++ [c]) = Some Dir ∧ locate h fs (cur ++ [c]) (c' :: rest) = inr l)
    as [Hc Hloc'].
  { specialize (Hnl 1). simpl in Hnl.
    destruct h; simpl in *; destruct (fs !! (cur ++ [c])) as [[]|] eqn:Hc; try done;
      exfalso; by (discriminate (Hnl _ ltac:(lia) eq_refl)). }
  destruct (IH (cur ++ [c])) as [-> Hch]; [|done|].
  { intros k n Hk. rewrite <- app_assoc. apply (Hnl (S k)). simpl in *. lia. }
  split; [by rewrite <- app_assoc|].
  intros [|k] Hk; [lia|]. destruct (decide (k = 0)) as [->|]; [done|].
  specialize (Hch k). rewrite <- app_assoc in Hch. apply Hch. simpl in *. lia.
Qed.

Lemma locate_plain_path (h : nat) (fs : fsmap) (p l : path) :
  plain_path fs p → locate h fs [] p = inr l →
  l = p ∧ (p ≠ [] → node_at fs (parent p) = Some Dir).
Proof.
  intros Hp Hloc. destruct (locate_no_links h fs p [] l) as [-> Hch]; [exact Hp|done|].
  split; [done|]. intros Hne.
  destruct (exists_last Hne) as (d & x & ->). rewrite parent_snoc.
  destruct d as [|c d]; [done|]. simpl node_at.
  specialize (Hch (length (c :: d))). rewrite take_app_length in Hch.
  apply Hch. rewrite length_app. simpl. lia.
Qed.

Lemma plain_path_region (fs : fsmap) (d r : path) :
  physical_dir fs (parent d) → link_free fs d → plain_path fs (d ++ r).
Proof.
  intros Hd Hlf k n Hk Hn.
  destruct (decide (k < length d)) as [Hlt|Hge].
  - rewrite take_app_le in Hn by lia.
    assert (take k d = take k (parent d)) as Heq.
    { destruct (decide (d = [])) as [->|Hne]; [done|].
      destruct (exists_last Hne) as (d' & x & ->).
      rewrite parent_snoc. rewrite length_app in Hlt. simpl in Hlt.
      by rewrite take_app_le by lia. }
    rewrite Heq in Hn.
    assert (fs !! ([] ++ take k (parent d)) = Some Dir) as Hdir.
    { apply dir_chain_lookup; [done|].
      assert (length (take k d) = length (take k (parent d))) as Hl by by rewrite Heq.
      rewrite !length_take in Hl. lia. }
    simpl in Hdir. by simplify_eq.
  - rewrite take_app_ge in Hn by lia.
    eapply (map_Forall_lookup_1 _ _ _ _ Hlf Hn). apply under_true. eauto.
Qed.

Lemma no_link_at_region (fs : fsmap) (d r : path) :
  physical_dir fs (parent d) → link_free fs d → no_link_at fs (d ++ r).
Proof.
  intros Hd Hlf n Hn. destruct (d ++ r) as [|c p] eqn:Hp; [by simplify_eq/=|].
  simpl in Hn. eapply (map_Forall_lookup_1 _ _ _ _ Hlf Hn). apply under_true. eauto.
Qed.

Section Plain_resolution.
Variable E : env.

Lemma lstat_plain_path (fs : fsmap) (p l : path) (n : node) :
  plain_path fs p → lstat E fs p = inr (l, n) →
  l = p ∧ node_at fs p = Some n.
Proof.
  unfold lstat. intros Hp H.
  destruct (locate _ _ _ _) as [|l'] eqn:Hloc; [done|].
  apply locate_plain_path in Hloc as [-> _]; [|done].
  destruct (node_at fs p); by simplify_eq.
Qed.

Lemma stat_plain_path (fs : fsmap) (p l : path) (n : node) :
  plain_path fs p → no_link_at fs p → stat E fs p = inr (l, n) →
  l = p ∧ node_at fs p = Some n.
Proof.
  unfold stat. intros Hp Hnl H.
  destruct (link_budget E); simpl in H;
    destruct (lstat E fs p) as [|[l' n']] eqn:Hl; try done;
    apply lstat_plain_path in Hl as [-> Hn]; try done;
    specialize (Hnl _ Hn); destruct n'; by simplify_eq.
Qed.

Lemma stat_physical (fs : fsmap) (d : path) (x : string) (n : node) :
  physical_dir fs d → fs !! (d ++ [x]) = Some n → is_link n = false →
  stat E fs (d ++ [x]) = inr (d ++ [x], n).
Proof.
  intros Hd Hn Hlink. apply stat_plain; [|by intros t ->..].
  by rewrite lstat_physical, Hn.
Qed.
End Plain_resolution.

(** ** Orders on file systems *)

Lemma same_kind_refl (n : node) : same_kind n n.
Proof. by destruct n. Qed.

Lemma same_kind_trans (n1 n2 n3 : node) : same_kind n1 n2 → same_kind n2 n3 → same_kind n1 n3.
Proof. destruct n1, n2, n3; simpl; congruence. Qed.

#[global] Instance grows_preorder : PreOrder grows.
Proof.
  split.
  - intros fs q n Hq. eauto using same_kind_refl.
  - intros fs1 fs2 fs3 H12 H23 q n Hq.
    destruct (H12 _ _ Hq) as (n2 & Hq2 & Hk). destruct (H23 _ _ Hq2) as (n3 & Hq3 & Hk').
    eauto using same_kind_trans.
Qed.

#[global] Instance guarded_preorder (Pre : fsmap → Prop) (Rel : relation fsmap)
  `{!PreOrder Rel} : PreOrder (guarded Pre Rel).
Proof.
  split; [by intros fs ?|].
  intros fs1 fs2 fs3 H12 H23 H1. destruct (H12 H1) as [H2 Ho12].
  destruct (H23 H2) as [H3 Ho23]. split; [done|]. by etrans.
Qed.

#[global] Instance dirs_made_preorder (fs0 : fsmap) (src dst : path) :
  PreOrder (dirs_made fs0 src dst).
Proof.
  split; [intros fs q; by left|].
  intros fs1 fs2 fs3 H12 H23 q Hq. destruct (H23 _ Hq) as [Hq2|?]; [|by right]. eauto.
Qed.

#[global] Instance copied_stay_preorder (fs0 : fsmap) (src dst : path) :
  PreOrder (copied_stay fs0 src dst).
Proof. split; [by intros fs r c|]. intros fs1 fs2 fs3 H12 H23 r c H0 H1. eauto. Qed.

#[global] Instance merge_rel_preorder (fs0 : fsmap) (src dst : path) :
  PreOrder (merge_rel fs0 src dst).
Proof.
  split; [intros fs; by split_and!|].
  intros fs1 fs2 fs3 (?&?&?&?) (?&?&?&?). split_and!; by etrans.
Qed.

#[global] Instance merging_preorder (fs0 : fsmap) (src dst : path) :
  PreOrder (merging fs0 src dst).
Proof. apply _. Qed.

(** ** Well-formed file systems *)

Lemma well_formed_ancestor (fs : fsmap) (a b : path) :
  well_formed fs → is_Some (fs !! (a ++ b)) → b ≠ [] → node_at fs a = Some Dir.
Proof.
  intros Hwf. induction b as [|x b IH] using rev_ind; [done|]. intros [n Hn] _.
  pose proof (map_Forall_lookup_1 _ _ _ _ Hwf Hn) as Hp. simpl in Hp.
  rewrite app_assoc, parent_snoc in Hp.
  destruct (decide (b = [])) as [->|Hb]; [by rewrite app_nil_r in Hp|].
  apply IH; [|done]. destruct (a ++ b) eqn:Hab; [by destruct a, b|]. simpl in Hp. by rewrite Hp.
Qed.

Lemma physical_dir_parent (fs : fsmap) (d : path) :
  physical_dir fs d → physical_dir fs (parent d).
Proof.
  destruct (decide (d = [])) as [->|Hne]; [done|].
  destruct (exists_last Hne) as (d' & x & ->). rewrite parent_snoc.
  unfold physical_dir. rewrite dir_chain_app. tauto.
Qed.

Lemma physical_dir_node (fs : fsmap) (d : path) :
  physical_dir fs d → node_at fs d = Some Dir.
Proof.
  destruct (decide (d = [])) as [->|Hne]; [done|].
  destruct (exists_last Hne) as (d' & x & ->). rewrite node_at_snoc.
  unfold physical_dir. rewrite dir_chain_app. simpl. tauto.
Qed.

Lemma physical_dir_snoc (fs : fsmap) (d : path) (x : string) :
  physical_dir fs d → fs !! (d ++ [x]) = Some Dir → physical_dir fs (d ++ [x]).
Proof. intros Hd Hx. unfold physical_dir. rewrite dir_chain_app. simpl. tauto. Qed.

Lemma physical_dir_grows (fs fs' : fsmap) (d : path) :
  grows fs fs' → physical_dir fs d → physical_dir fs' d.
Proof.
  intros Hg. unfold physical_dir. generalize (@nil string) as cur.
  induction d as [|c d IH]; intros cur; simpl; [done|]. intros [Hc Hd]. split; [|eauto].
  destruct (Hg _ _ Hc) as (n' & Hn' & Hk). simpl in Hk. by subst.
Qed.

Lemma locate_physical_parent (h : nat) (fs : fsmap) (d : path) :
  physical_dir fs (parent d) → locate h fs [] d = inr d.
Proof.
  destruct (decide (d = [])) as [->|Hne]; [intros _; destruct h; reflexivity|].
  destruct (exists_last Hne) as (d' & x & ->). rewrite parent_snoc. intros Hd.
  by rewrite locate_chain.
Qed.

Lemma node_at_dir_grows (fs fs' : fsmap) (p : path) :
  grows fs fs' → node_at fs p = Some Dir → node_at fs' p = Some Dir.
Proof.
  intros Hg. destruct p; [done|]. simpl. intros Hp.
  destruct (Hg _ _ Hp) as (n' & -> & Hk). simpl in Hk. by subst.
Qed.

Lemma locate_physical (h : nat) (fs : fsmap) (d : path) :
  physical_dir fs d → locate h fs [] d = inr d.
Proof.
  destruct (decide (d = [])) as [->|Hne]; [intros _; destruct h; reflexivity|].
  destruct (exists_last Hne) as (d' & x & ->). intros Hd.
  unfold physical_dir in Hd. rewrite dir_chain_app in Hd. by rewrite locate_chain by tauto.
Qed.

(** ** What the writing calls do *)

Section Effects.
Variable E : env.

Lemma os_mkdir_effect (p : path) (w : world) :
  (∃ l, locate (link_budget E) (w_fs w) [] p = inr l ∧ node_at (w_fs w) l = None ∧
        os_mkdir E p w = (inr tt, World (<[l := Dir]> (w_fs w)) (w_log w))) ∨
  (∃ e, os_mkdir E p w = (inl e, w) ∧ is_OSError e = true ∧
        (e = FileNotFoundError → locate (link_budget E) (w_fs w) [] p = inl e)).
Proof.
  unfold os_mkdir, bind, gets, raise, set_fs. simpl.
  destruct (locate _ _ _ _) as [e|l] eqn:Hloc; simpl.
  - right. exists e. eauto using locate_error_is_OSError.
  - destruct (node_at (w_fs w) l) eqn:Hl; [right|left]; eauto. by exists FileExistsError.
Qed.

Lemma write_file_effect (p : path) (data : content) (w : world) :
  (∃ l, open_wb E (w_fs w) p = inr l ∧
        write_file E p data w = (inr tt, World (<[l := File data]> (w_fs w)) (w_log w))) ∨
  (∃ e, write_file E p data w = (inl e, w)).
Proof.
  unfold write_file, bind, gets, raise, set_fs. simpl.
  destruct (open_wb _ _ _) as [e|l]; simpl; eauto.
Qed.

Lemma copy2_effect (src dst : path) (w : world) :
  let w1 := World (w_fs w) (w_log w ++ [Call_copy2 src dst]) in
  (∃ data l ls dst',
      (dst' = dst ∧ path_is_dir E (w_fs w) dst = false ∨
       dst' = dst ++ [basename src] ∧ path_is_dir E (w_fs w) dst = true) ∧
      stat E (w_fs w) src = inr (ls, File data) ∧
      samefile E (w_fs w) src dst' = false ∧
      open_wb E (w_fs w) dst' = inr l ∧
      shutil_copy2 E src dst w = (inr tt, World (<[l := File data]> (w_fs w)) (w_log w1))) ∨
  (∃ e, shutil_copy2 E src dst w = (inl e, w1)).
Proof.
  unfold shutil_copy2, bind, gets, raise, log. simpl.
  set (dst' := if path_is_dir E (w_fs w) dst then dst ++ [basename src] else dst).
  set (w1 := World (w_fs w) (w_log w ++ [Call_copy2 src dst])).
  assert (dst' = dst ∧ path_is_dir E (w_fs w) dst = false ∨
          dst' = dst ++ [basename src] ∧ path_is_dir E (w_fs w) dst = true) as Hd.
  { unfold dst'. destruct (path_is_dir E (w_fs w) dst); eauto. }
  destruct (samefile E (w_fs w) src dst') eqn:Hsame; simpl; [eauto|].
  destruct (stat E (w_fs w) src) as [e|[ls [data| | |]]] eqn:Hst; simpl; eauto.
  destruct (write_file_effect dst' data w1) as [(l & Hl & ->)|[e ->]]; [left|right; eauto].
  exists data, l, ls, dst'. eauto.
Qed.
End Effects.

Lemma open_wb_plain_path (E : env) (fs : fsmap) (p l : path) :
  plain_path fs p → no_link_at fs p → open_wb E fs p = inr l →
  l = p ∧ (node_at fs p = None ∨ ∃ c, node_at fs p = Some (File c)) ∧
  (p ≠ [] → node_at fs (parent p) = Some Dir).
Proof.
  unfold open_wb. intros Hp Hnl H.
  destruct (link_budget E) as [|h] eqn:Hb; simpl in H; rewrite ?Hb in H;
    (destruct (locate _ fs [] p) as [|l'] eqn:Hloc; [done|]);
    apply locate_plain_path in Hloc as [-> Hpar]; try done;
    (destruct (node_at fs p) as [n|] eqn:Hn;
      [specialize (Hnl _ Hn); destruct n; simplify_eq/=|simplify_eq]); eauto.
Qed.

Lemma grows_insert_new (fs : fsmap) (l : path) (n : node) :
  fs !! l = None → grows fs (<[l := n]> fs).
Proof.
  intros Hl q n' Hq. exists n'. split; [|apply same_kind_refl].
  rewrite lookup_insert_ne; [done|congruence].
Qed.

Lemma grows_insert_file (fs : fsmap) (l : path) (c c' : content) :
  fs !! l = Some (File c) → grows fs (<[l := File c']> fs).
Proof.
  intros Hl q n' Hq. destruct (decide (l = q)) as [<-|Hne].
  - rewrite lookup_insert_eq. simplify_eq. by exists (File c').
  - rewrite lookup_insert_ne by done. eauto using same_kind_refl.
Qed.

Lemma under_comparable (a b q : path) :
  under a q = true → under b q = true → under a b = true ∨ under b a = true.
Proof.
  rewrite !under_true. intros [r1 ->] [r2 Heq].
  destruct (prefix_weak_total a b (a ++ r1)) as [[k ->]|[k ->]]; eauto.
  - by exists r1.
  - by exists r2.
Qed.

(** ** Listings *)

Lemma elem_of_listdir (fs : fsmap) (d : path) (name : string) :
  name ∈ listdir fs d ↔ is_Some (fs !! (d ++ [name])).
Proof.
  unfold listdir. rewrite list_elem_of_omap. split.
  - intros ([k n] & Hin & Hf). apply elem_of_map_to_list in Hin. simpl in Hf.
    destruct (strip_prefix d k) as [[|x [|]]|] eqn:Hs; simplify_eq.
    apply strip_prefix_Some in Hs as ->. eauto.
  - intros [n Hn]. exists (d ++ [name], n). split; [by apply elem_of_map_to_list|].
    simpl. by rewrite strip_prefix_app.
Qed.

Lemma NoDup_listdir (fs : fsmap) (d : path) : NoDup (listdir fs d).
Proof.
  unfold listdir. pose proof (NoDup_fst_map_to_list fs) as Hnd.
  induction (map_to_list fs) as [|[k n] l IH]; simpl; [constructor|].
  apply NoDup_cons in Hnd as [Hk Hnd]. specialize (IH Hnd).
  destruct (strip_prefix d k) as [[|x [|]]|] eqn:Hs; try done.
  apply strip_prefix_Some in Hs as ->. constructor; [|done].
  intros Hin. apply list_elem_of_omap in Hin as ([k' n'] & Hin & Hf). simpl in Hf.
  destruct (strip_prefix d k') as [[|x' [|]]|] eqn:Hs'; simplify_eq.
  apply strip_prefix_Some in Hs' as ->. apply Hk.
  apply list_elem_of_fmap. by exists (d ++ [x], n').
Qed.

Section Stat_facts.
Variable E : env.

Lemma stat_physical_dir (fs : fsmap) (d : path) :
  physical_dir fs d → stat E fs d = inr (d, Dir).
Proof.
  intros Hd. destruct (decide (d = [])) as [->|Hne].
  - apply stat_plain; [|done..]. unfold lstat. by destruct (link_budget E).
  - destruct (exists_last Hne) as (d' & x & ->). unfold physical_dir in Hd.
    rewrite dir_chain_app in Hd. simpl in Hd. apply stat_physical; tauto.
Qed.

Lemma scandir_physical_dir (fs : fsmap) (d : path) :
  physical_dir fs d → scandir E fs d = inr (listdir fs d).
Proof. intros Hd. unfold scandir. by rewrite stat_physical_dir. Qed.

Lemma path_is_dir_physical (fs : fsmap) (d : path) (x : string) :
  physical_dir fs d → no_link_at fs (d ++ [x]) →
  path_is_dir E fs (d ++ [x]) = bool_decide (fs !! (d ++ [x]) = Some Dir).
Proof.
  intros Hd Hnl. unfold path_is_dir.
  destruct (fs !! (d ++ [x])) as [n|] eqn:Hn.
  - rewrite (stat_physical E fs d x n); [by destruct n|done..|].
    apply Hnl. by rewrite node_at_snoc.
  - rewrite (stat_absent E fs _ FileNotFoundError); [done|].
    by rewrite lstat_physical, Hn.
Qed.

Lemma path_is_symlink_physical (fs : fsmap) (d : path) (x : string) :
  physical_dir fs d → no_link_at fs (d ++ [x]) → path_is_symlink E fs (d ++ [x]) = false.
Proof.
  intros Hd Hnl. unfold path_is_symlink. rewrite lstat_physical by done.
  destruct (fs !! (d ++ [x])) as [n|] eqn:Hn; [|done].
  rewrite <- node_at_snoc in Hn. specialize (Hnl _ Hn). by destruct n.
Qed.
End Stat_facts.

Lemma path_mkdir_parents_eq (E : env) (n : nat) (exist_ok : bool) (p : path) :
  path_mkdir_parents E n exist_ok p =
    (let* r := try (os_mkdir E p) in
     match r with
     | inr _ => ret tt
     | inl FileNotFoundError =>
       match n with
       | 0 => raise FileNotFoundError
       | S n' =>
         if bool_decide (parent p = p) then raise FileNotFoundError
         else path_mkdir_parents E n' true (parent p) ;; path_mkdir_one E exist_ok p
       end
     | inl e =>
       if is_OSError e then
         let* isd := gets (λ fs, path_is_dir E fs p) in
         if negb exist_ok || negb isd then raise e else ret tt
       else raise e
     end).
Proof. by destruct n. Qed.

(** ** Where a new node can be put *)

Lemma locate_parent_dir (h : nat) (fs : fsmap) (cur p l : path) :
  node_at fs cur = Some Dir → locate h fs cur p = inr l →
  (p = [] ∧ l = cur) ∨ (∃ d x, l = d ++ [x] ∧ node_at fs d = Some Dir).
Proof.
  revert cur p. induction h as [|h IH]; intros cur p; revert cur;
    induction p as [|c rest IHp]; intros cur Hcur; simpl; try (intros [= <-]; by left);
    (destruct rest as [|c' rest]; [intros [= <-]; right; eauto|]);
    destruct (fs !! (cur ++ [c])) as [[]|] eqn:Hc; try done; intros Hloc; right.
  - destruct (IHp (cur ++ [c])) as [[? _]|?]; try done. by rewrite node_at_snoc.
  - destruct (IHp (cur ++ [c])) as [[? _]|?]; try done. by rewrite node_at_snoc.
  - destruct (IH [] (target ++ c' :: rest)) as [[? _]|?]; try done. by destruct target.
  - destruct (IH [] (target ++ c' :: rest)) as [[? _]|?]; try done. by destruct target.
Qed.

Lemma open_wb_target (E : env) (fs : fsmap) (p l : path) :
  open_wb E fs p = inr l →
  (node_at fs l = None ∨ ∃ c, node_at fs l = Some (File c)) ∧
  node_at fs (parent l) = Some Dir.
Proof.
  unfold open_wb. generalize (link_budget E) at 1 as hops. intros hops. revert p.
  induction hops as [|hops IH]; intros p; simpl;
    (destruct (locate _ fs [] p) as [|l'] eqn:Hloc; [done|]);
    (destruct (locate_parent_dir _ fs [] p l' eq_refl Hloc) as [[-> ->]|(d & x & -> & Hd)];
      [done|]);
    rewrite node_at_snoc; destruct (fs !! (d ++ [x])) as [[]|] eqn:Hx; try done;
    try (intros [= <-]; rewrite parent_snoc, node_at_snoc; eauto); eauto.
Qed.

Lemma os_mkdir_target (E : env) (fs : fsmap) (p l : path) :
  locate (link_budget E) fs [] p = inr l → node_at fs l = None →
  node_at fs (parent l) = Some Dir.
Proof.
  intros Hloc Hl.
  destruct (locate_parent_dir _ fs [] p l eq_refl Hloc) as [[-> ->]|(d & x & -> & Hd)];
    [done|by rewrite parent_snoc].
Qed.

(** ** Runs that only add and overwrite *)

Section Additive.
Variable E : env.
Context (J : relation fsmap) `{!PreOrder J}.
Hypothesis J_create : ∀ fs l n,
  node_at fs l = None → node_at fs (parent l) = Some Dir → is_link n = false →
  J fs (<[l := n]> fs).
Hypothesis J_overwrite : ∀ fs l c c',
  node_at fs l = Some (File c) → J fs (<[l := File c']> fs).

Lemma os_mkdir_additive (p : path) : keeps J (os_mkdir E p).
Proof.
  intros w. destruct (os_mkdir_effect E p w) as [(l & Hloc & Hl & ->)|(e & -> & _)];
    [|reflexivity].
  apply J_create; eauto using os_mkdir_target.
Qed.

Lemma write_file_additive (p : path) (data : content) : keeps J (write_file E p data).
Proof.
  intros w. destruct (write_file_effect E p data w) as [(l & Hl & ->)|(e & ->)];
    [|reflexivity].
  destruct (open_wb_target _ _ _ _ Hl) as [[Hn|[c Hn]] Hpar]; simpl; eauto.
Qed.

Lemma copy2_additive (src dst : path) : keeps J (shutil_copy2 E src dst).
Proof.
  intros w. destruct (copy2_effect E src dst w)
    as [(data & l & ls & dst' & _ & _ & _ & Hl & ->)|[e ->]]; [|reflexivity].
  destruct (open_wb_target _ _ _ _ Hl) as [[Hn|[c Hn]] Hpar]; simpl; eauto.
Qed.

Lemma mkdir_handler_additive (exist_ok : bool) (p : path) (e : exn) :
  keeps J (if is_OSError e then
             let* isd := gets (λ fs, path_is_dir E fs p) in
             if negb exist_ok || negb isd then raise e else ret tt
           else raise e).
Proof.
  destruct (is_OSError e); [|apply keeps_raise, _].
  apply keeps_bind; [apply _|apply keeps_gets, _|]. intros isd.
  destruct (negb exist_ok || negb isd); [apply keeps_raise, _|apply keeps_ret, _].
Qed.

Lemma path_mkdir_one_additive (exist_ok : bool) (p : path) :
  keeps J (path_mkdir_one E exist_ok p).
Proof.
  unfold path_mkdir_one.
  apply keeps_bind; [apply _|apply keeps_try, os_mkdir_additive|].
  intros [e|[]]; [|apply keeps_ret, _].
  destruct e; try apply keeps_raise, _; apply (mkdir_handler_additive exist_ok p).
Qed.

Lemma path_mkdir_parents_additive (n : nat) (exist_ok : bool) (p : path) :
  keeps J (path_mkdir_parents E n exist_ok p).
Proof.
  revert exist_ok p. induction n as [|n IH]; intros exist_ok p;
    rewrite path_mkdir_parents_eq;
    (apply keeps_bind; [apply _|apply keeps_try, os_mkdir_additive|]);
    (intros [e|[]]; [|apply keeps_ret, _]);
    destruct e; try apply keeps_raise, _; try apply (mkdir_handler_additive exist_ok p).
  case_bool_decide; [apply keeps_raise, _|].
  apply keeps_bind; [apply _|apply IH|]. intros _. apply path_mkdir_one_additive.
Qed.

Lemma path_mkdir_additive (parents exist_ok : bool) (p : path) :
  keeps J (path_mkdir E parents exist_ok p).
Proof.
  unfold path_mkdir.
  destruct parents; [apply path_mkdir_parents_additive|apply path_mkdir_one_additive].
Qed.

Lemma os_makedirs_additive (exist_ok : bool) (name : path) :
  keeps J (os_makedirs E exist_ok name).
Proof.
  unfold os_makedirs. generalize (length name) as n. intros n. revert name.
  induction n as [|n IH]; intros name; simpl;
    (apply keeps_bind; [apply _| |intros _]);
    try (apply keeps_bind; [apply _|apply keeps_try, os_mkdir_additive|];
         intros [e|[]]; [apply (mkdir_handler_additive exist_ok name)|apply keeps_ret, _]);
    (apply keeps_bind; [apply _|apply keeps_gets, _|]); intros ex;
    destruct (bool_decide (name ≠ []) && negb ex); try apply keeps_ret, _.
  apply keeps_bind; [apply _|apply keeps_try, IH|].
  intros [e|[]]; [|apply keeps_ret, _]. destruct e; first [apply keeps_ret, _|apply keeps_raise, _].
Qed.

Lemma os_walk_for_keeps (depth : nat) (top : path)
    (body : path → list string → list string → M unit) :
  (∀ root dirs files, keeps J (body root dirs files)) →
  keeps J (os_walk_for E depth top body).
Proof.
  intros Hbody. revert top. induction depth as [|depth IH]; intros top; simpl;
    [apply keeps_raise, _|].
  apply keeps_bind; [apply _|apply keeps_gets, _|]. intros [e|names]; [apply keeps_ret, _|].
  apply keeps_bind; [apply _|apply keeps_gets, _|]. intros dirs.
  apply keeps_bind; [apply _|apply keeps_gets, _|]. intros files.
  apply keeps_bind; [apply _|apply Hbody|]. intros _.
  apply keeps_for_each; [apply _|]. intros d _.
  apply keeps_bind; [apply _|apply keeps_gets, _|]. intros lnk.
  destruct lnk; [apply keeps_ret, _|apply IH].
Qed.

Lemma copy_tree_additive (src dst : path) : keeps J (copy_tree E src dst).
Proof.
  unfold copy_tree. apply os_walk_for_keeps. intros root dirs files.
  destruct (strip_prefix src root); [|apply keeps_raise, _].
  apply keeps_bind; [apply _|apply path_mkdir_additive|]. intros _.
  apply keeps_for_each; [apply _|]. intros f _. apply copy2_additive.
Qed.

Lemma copytree_from_additive (depth : nat) (src dst : path) :
  keeps J (copytree_from E depth src dst).
Proof.
  revert src dst. induction depth as [|depth IH]; intros src dst; simpl;
    [apply keeps_raise, _|].
  apply keeps_bind; [apply _|apply keeps_gets, _|]. intros entries.
  apply keeps_bind; [apply _|apply keeps_lift, _|]. intros names.
  apply keeps_bind; [apply _|apply os_makedirs_additive|]. intros _.
  apply keeps_bind; [apply _| |intros []; [apply keeps_raise, _|apply keeps_ret, _]].
  apply keeps_fold_m; [apply _|]. intros errors name _.
  apply keeps_bind; [apply _|apply keeps_gets, _|]. intros isd.
  apply keeps_bind; [apply _| |].
  - apply keeps_try. destruct isd; [apply IH|apply copy2_additive].
  - intros [e|[]]; [|apply keeps_ret, _].
    destruct (is_OSError e); [apply keeps_ret, _|apply keeps_raise, _].
Qed.

Lemma shutil_copytree_additive (src dst : path) : keeps J (shutil_copytree E src dst).
Proof.
  unfold shutil_copytree. apply keeps_bind; [apply _|apply keeps_log, _|].
  intros _. apply copytree_from_additive.
Qed.
End Additive.

Lemma copy_tree_grows (E : env) (src dst : path) : keeps grows (copy_tree E src dst).
Proof.
  apply copy_tree_additive; [apply _|..].
  - intros fs l n Hl _ _. apply grows_insert_new. by destruct l.
  - intros fs l c c' Hl. apply (grows_insert_file _ _ c). by destruct l.
Qed.

(** A run that returns, step by step. *)
Lemma bind_inr {A B : Type} (m : M A) (k : A → M B) (w w' : world) (b : B) :
  bind m k w = (inr b, w') → ∃ a w1, m w = (inr a, w1) ∧ k a w1 = (inr b, w').
Proof. unfold bind. destruct (m w) as [[e|a] w1]; [done|eauto]. Qed.

Lemma for_each_inr {A : Type} (I : list A → world → Prop) (body : A → M unit)
    (l : list A) (w w' : world) :
  (∀ done x rest w1 w2, l = done ++ x :: rest → I done w1 →
     body x w1 = (inr tt, w2) → I (done ++ [x]) w2) →
  I [] w → for_each l body w = (inr tt, w') → I l w'.
Proof.
  intros Hstep.
  assert (∀ rest done w, l = done ++ rest → I done w →
            for_each rest body w = (inr tt, w') → I l w') as Haux; [|by apply (Haux l [])].
  induction rest as [|x rest IH]; intros done w1 Hl HI Hrun.
  - simpl in Hrun. unfold ret in Hrun. rewrite app_nil_r in Hl. by simplify_eq.
  - simpl in Hrun. apply bind_inr in Hrun as ([] & w2 & Hx & Hrun).
    apply (IH (done ++ [x]) w2); [by rewrite <- app_assoc| |done]. eauto.
Qed.

(** ** Calls that leave the log alone *)

Lemma silent_ret {A : Type} (a : A) : silent (ret a).
Proof. done. Qed.

Lemma silent_raise {A : Type} (e : exn) : silent (@raise A e).
Proof. done. Qed.

Lemma silent_gets {A : Type} (f : fsmap → A) : silent (gets f).
Proof. done. Qed.

Lemma silent_bind {A B : Type} (m : M A) (k : A → M B) :
  silent m → (∀ a, silent (k a)) → silent (bind m k).
Proof.
  intros Hm Hk w. unfold bind. specialize (Hm w).
  destruct (m w) as [[e|a] w1]; [done|]. simpl in *. by rewrite Hk.
Qed.

Lemma silent_try {A : Type} (m : M A) : silent m → silent (try m).
Proof. intros Hm w. unfold try. specialize (Hm w). by destruct (m w). Qed.

Lemma fold_m_inr {A B : Type} (I : list A → B → world → Prop) (f : B → A → M B)
    (l : list A) (b b' : B) (w w' : world) :
  (∀ done x rest b1 w1 b2 w2, l = done ++ x :: rest → I done b1 w1 →
     f b1 x w1 = (inr b2, w2) → I (done ++ [x]) b2 w2) →
  I [] b w → fold_m f b l w = (inr b', w') → I l b' w'.
Proof.
  intros Hstep.
  assert (∀ rest done b w, l = done ++ rest → I done b w →
            fold_m f b rest w = (inr b', w') → I l b' w') as Haux;
    [|by apply (Haux l [])].
  induction rest as [|x rest IH]; intros done b1 w1 Hl HI Hrun.
  - simpl in Hrun. unfold ret in Hrun. rewrite app_nil_r in Hl. by simplify_eq.
  - simpl in Hrun. apply bind_inr in Hrun as (b2 & w2 & Hx & Hrun).
    apply (IH (done ++ [x]) b2 w2); [by rewrite <- app_assoc| |done]. eauto.
Qed.

Lemma os_makedirs_from_eq (E : env) (n : nat) (exist_ok : bool) (name : path) :
  os_makedirs_from E n exist_ok name =
    ((let* head_exists := gets (λ fs, path_exists E fs (parent name)) in
      if bool_decide (name ≠ []) && negb head_exists then
        match n with
        | 0 => ret tt
        | S n' =>
          let* r := try (os_makedirs_from E n' exist_ok (parent name)) in
          match r with
          | inr _ | inl FileExistsError => ret tt
          | inl e => raise e
          end
        end
      else ret tt) ;;
     let* r := try (os_mkdir E name) in
     match r with
     | inr _ => ret tt
     | inl e =>
       if is_OSError e then
         let* isd := gets (λ fs, path_is_dir E fs name) in
         if negb exist_ok || negb isd then raise e else ret tt
       else raise e
     end).
Proof. by destruct n. Qed.

Lemma path_exists_physical_dir (E : env) (fs : fsmap) (d : path) :
  physical_dir fs d → path_exists E fs d = true.
Proof. intros Hd. unfold path_exists. by rewrite stat_physical_dir. Qed.

(** ** The tree merger: what every run keeps *)

Section Merge.
Variable E : env.
Variables (fs0 : fsmap) (src dst : path).
Hypothesis Hsrc0 : physical_dir fs0 src.
Hypothesis Hlf0 : link_free fs0 src.
Hypothesis Hwf0 : well_formed fs0.
Hypothesis Hsd : under src dst = false.
Hypothesis Hds : under dst src = false.

Lemma merge_regions_apart (q : path) : under src q = true → under dst q = true → False.
Proof. intros H1 H2. destruct (under_comparable _ _ _ H1 H2); congruence. Qed.

Lemma merge_pre_src (fs : fsmap) (r : path) :
  merge_pre fs0 src dst fs →
  plain_path fs (src ++ r) ∧ no_link_at fs (src ++ r) ∧ node_at fs (src ++ r) = node_at fs0 (src ++ r).
Proof.
  intros (Hs & _ & _ & Hsame).
  assert (link_free fs src) as Hlf.
  { apply map_Forall_lookup_2. intros k n Hk Hu. rewrite Hsame in Hk by done.
    by apply (map_Forall_lookup_1 _ _ _ _ Hlf0 Hk). }
  split_and!; [apply plain_path_region|apply no_link_at_region|];
    auto using physical_dir_parent.
  destruct (src ++ r) as [|c p] eqn:Hp; [done|]. simpl. apply Hsame.
  rewrite <- Hp. apply under_true. eauto.
Qed.

Lemma merge_pre_dst (fs : fsmap) (r : path) :
  merge_pre fs0 src dst fs → plain_path fs (dst ++ r) ∧ no_link_at fs (dst ++ r).
Proof.
  intros (_ & Hd & Hlf & _).
  split; [apply plain_path_region|apply no_link_at_region]; auto using physical_dir_parent.
Qed.

Lemma source_ancestor_dir (a : path) (x : string) :
  is_Some (fs0 !! (src ++ a ++ [x])) → node_at fs0 (src ++ a) = Some Dir.
Proof.
  intros H. apply (well_formed_ancestor fs0 (src ++ a) [x]); [done| |done].
  by rewrite <- app_assoc.
Qed.

Lemma merge_mkdir (fs : fsmap) (a : path) :
  merge_pre fs0 src dst fs → node_at fs (dst ++ a) = None →
  node_at fs0 (src ++ a) = Some Dir →
  merge_pre fs0 src dst (<[dst ++ a := Dir]> fs) ∧ merge_rel fs0 src dst fs (<[dst ++ a := Dir]> fs).
Proof.
  intros (Hs & Hd & Hlf & Hsame) Hnew Ha.
  assert (fs !! (dst ++ a) = None) as Hnew' by (by destruct (dst ++ a)).
  pose proof (grows_insert_new fs (dst ++ a) Dir Hnew') as Hg.
  split; [split_and!|split_and!]; eauto using physical_dir_grows.
  - by apply map_Forall_insert_2.
  - intros q Hq. rewrite lookup_insert_ne; [by apply Hsame|].
    intros <-. apply (merge_regions_apart (dst ++ a)); [done|]. apply under_true. eauto.
  - intros q Hq. apply lookup_insert_ne. intros <-. apply Hq, under_true. eauto.
  - intros q Hq. destruct (decide (dst ++ a = q)) as [<-|Hne]; [right; eauto|].
    left. by rewrite lookup_insert_ne in Hq.
  - intros r c Hr Hc. rewrite lookup_insert_ne; [done|congruence].
Qed.

Lemma merge_write (fs : fsmap) (r : path) (c : content) (W : path) :
  merge_pre fs0 src dst fs → r ≠ [] → fs0 !! (src ++ r) = Some (File c) →
  (W = dst ++ r ∨ ∃ x, W = dst ++ r ++ [x]) →
  (node_at fs W = None ∨ ∃ c0, node_at fs W = Some (File c0)) →
  merge_pre fs0 src dst (<[W := File c]> fs) ∧ merge_rel fs0 src dst fs (<[W := File c]> fs).
Proof.
  intros (Hs & Hd & Hlf & Hsame) Hr H0 HW Hnode.
  assert (W ≠ []) as HWne by (destruct HW as [->|[x ->]]; by destruct dst, r).
  assert (fs !! W = None ∨ ∃ c0, fs !! W = Some (File c0)) as Hnode' by (by destruct W).
  assert (under dst W = true) as HuW.
  { apply under_true. destruct HW as [->|[x ->]]; eauto. }
  assert (grows fs (<[W := File c]> fs)) as Hg.
  { destruct Hnode' as [?|[c0 ?]]; eauto using grows_insert_new, grows_insert_file. }
  split; [split_and!|split_and!]; eauto using physical_dir_grows.
  - by apply map_Forall_insert_2.
  - intros q Hq. rewrite lookup_insert_ne; [by apply Hsame|].
    intros <-. by apply (merge_regions_apart W).
  - intros q Hq. apply lookup_insert_ne. by intros <-.
  - intros q Hq. destruct (decide (W = q)) as [<-|Hne].
    + by rewrite lookup_insert_eq in Hq.
    + left. by rewrite lookup_insert_ne in Hq.
  - intros r' c' Hr' Hc'. destruct (decide (W = dst ++ r')) as [HWr|Hne];
      [|by rewrite lookup_insert_ne].
    rewrite HWr, lookup_insert_eq. destruct HW as [->|[x ->]].
    + apply app_inv_head in HWr as ->. congruence.
    + apply app_inv_head in HWr as <-. exfalso.
      assert (node_at fs0 (src ++ r) = Some Dir) as Hdir.
      { apply (source_ancestor_dir r x). by rewrite Hr'. }
      destruct (src ++ r) eqn:Hsr; [by destruct src, r|]. simpl in Hdir. congruence.
Qed.

Lemma merging_refl (fs : fsmap) :
  merge_pre fs0 src dst fs → merge_pre fs0 src dst fs ∧ merge_rel fs0 src dst fs fs.
Proof. intros H. split; [done|reflexivity]. Qed.

Lemma os_mkdir_keeps_merging (a : path) :
  node_at fs0 (src ++ a) = Some Dir →
  keeps (merging fs0 src dst) (os_mkdir E (dst ++ a)).
Proof.
  intros Ha w HPre.
  destruct (os_mkdir_effect E (dst ++ a) w) as [(l & Hloc & Hl & ->)|(e & -> & _)];
    [|by apply merging_refl].
  apply locate_plain_path in Hloc as [-> _]; [|by apply merge_pre_dst].
  by apply merge_mkdir.
Qed.

Lemma path_mkdir_one_keeps_merging (exist_ok : bool) (a : path) :
  node_at fs0 (src ++ a) = Some Dir →
  keeps (merging fs0 src dst) (path_mkdir_one E exist_ok (dst ++ a)).
Proof.
  intros Ha. unfold path_mkdir_one.
  apply keeps_bind; [apply _|by apply keeps_try, os_mkdir_keeps_merging|].
  intros [e|[]]; [|apply keeps_ret, _].
  destruct e; simpl; try apply keeps_raise, _;
    (apply keeps_bind; [apply _|apply keeps_gets, _|]); intros isd;
    destruct (negb exist_ok || negb isd); try apply keeps_raise, _; apply keeps_ret, _.
Qed.

Lemma path_mkdir_parents_keeps_merging (n : nat) (exist_ok : bool) (a : path) :
  node_at fs0 (src ++ a) = Some Dir →
  keeps (merging fs0 src dst) (path_mkdir_parents E n exist_ok (dst ++ a)).
Proof.
  revert exist_ok a. induction n as [|n IH]; intros exist_ok a Ha w;
    rewrite path_mkdir_parents_eq; unfold bind at 1, try;
    (destruct (os_mkdir_effect E (dst ++ a) w)
       as [(l & Hloc & Hl & Heq)|(e & Heq & _ & Hfnf)]; rewrite Heq; simpl; intros HPre);
    try (apply locate_plain_path in Hloc as [-> _]; [|by apply merge_pre_dst];
         by apply merge_mkdir);
    (destruct e; simpl; try (by apply merging_refl);
     try (unfold bind, gets; simpl; destruct (negb exist_ok || negb _);
          by apply merging_refl)).
  case_bool_decide; [by apply merging_refl|].
  destruct (decide (a = [])) as [->|Hne].
  { exfalso. specialize (Hfnf eq_refl). rewrite app_nil_r in Hfnf.
    destruct HPre as (_ & Hd & _). by rewrite locate_physical_parent in Hfnf. }
  destruct (exists_last Hne) as (a' & x & ->).
  rewrite app_assoc, parent_snoc.
  assert (keeps (merging fs0 src dst)
            (path_mkdir_parents E n true (dst ++ a') ;;
             path_mkdir_one E exist_ok ((dst ++ a') ++ [x]))) as Hk; [|by apply Hk].
  apply keeps_bind; [apply _| |intros _].
  - apply IH. apply (source_ancestor_dir a' x).
    rewrite app_assoc in Ha. destruct ((src ++ a') ++ [x]) eqn:Hs; [by destruct src, a'|].
    rewrite <- app_assoc in Hs. rewrite Hs. simpl in Ha. by rewrite Ha.
  - rewrite <- app_assoc. by apply path_mkdir_one_keeps_merging.
Qed.

Lemma copy2_keeps_merging (r : path) (c : content) :
  r ≠ [] → fs0 !! (src ++ r) = Some (File c) →
  keeps (merging fs0 src dst) (shutil_copy2 E (src ++ r) (dst ++ r)).
Proof.
  intros Hr H0 w HPre.
  destruct (copy2_effect E (src ++ r) (dst ++ r) w)
    as [(data & l & ls & dst' & Hdst' & Hst & _ & Hopen & ->)|[e ->]];
    [simpl|by apply merging_refl].
  destruct (merge_pre_src _ r HPre) as (Hp & Hnl & Hnode).
  apply stat_plain_path in Hst as [-> Hdata]; [|done..].
  assert (data = c) as ->.
  { rewrite Hnode in Hdata. destruct (src ++ r) eqn:Hsr; [by destruct src, r|].
    simpl in Hdata. congruence. }
  assert (dst' = dst ++ r ∨ ∃ x, dst' = dst ++ r ++ [x]) as HW.
  { destruct Hdst' as [[-> _]|[-> _]]; [by left|right].
    exists (basename (src ++ r)). by rewrite <- app_assoc. }
  assert (∃ r', dst' = dst ++ r') as [r' Hr'].
  { destruct HW as [->|[x ->]]; eauto. }
  destruct (merge_pre_dst _ r' HPre) as (Hp' & Hnl'). rewrite <- Hr' in *.
  apply open_wb_plain_path in Hopen as (-> & Hnode' & _); [|done..].
  by apply (merge_write _ r).
Qed.

Lemma merge_pre_chain (fs : fsmap) (a : path) :
  merge_pre fs0 src dst fs → dir_chain fs0 src a → physical_dir fs (src ++ a).
Proof.
  intros (Hs & _ & _ & Hsame) Ha. unfold physical_dir. rewrite dir_chain_app. split; [done|].
  simpl. eapply dir_chain_ext; [|done]. intros k _. apply Hsame, under_true. eauto.
Qed.

Lemma source_chain_node (a : path) : dir_chain fs0 src a → node_at fs0 (src ++ a) = Some Dir.
Proof.
  intros Ha. apply physical_dir_node. unfold physical_dir. rewrite dir_chain_app. by split.
Qed.

Lemma source_chain_snoc (a : path) (x : string) :
  dir_chain fs0 src a → fs0 !! (src ++ a ++ [x]) = Some Dir → dir_chain fs0 src (a ++ [x]).
Proof. intros Ha Hx. rewrite dir_chain_app. simpl. by rewrite <- app_assoc. Qed.

(** How [os.walk] sorts the names of a directory of the source. *)
Lemma source_entry_kinds (fs : fsmap) (a : path) (x : string) :
  merge_pre fs0 src dst fs → dir_chain fs0 src a →
  path_is_dir E fs ((src ++ a) ++ [x]) = bool_decide (fs0 !! (src ++ a ++ [x]) = Some Dir) ∧
  path_is_symlink E fs ((src ++ a) ++ [x]) = false ∧
  (x ∈ listdir fs (src ++ a) ↔ is_Some (fs0 !! (src ++ a ++ [x]))) ∧
  (∀ n, fs0 !! (src ++ a ++ [x]) = Some n → n = Dir ∨ ∃ c, n = File c).
Proof.
  intros HPre Ha. pose proof (merge_pre_chain _ _ HPre Ha) as Hphys.
  destruct (merge_pre_src _ (a ++ [x]) HPre) as (_ & Hnl & Hnode).
  rewrite !app_assoc in Hnl, Hnode. rewrite !node_at_snoc in Hnode.
  split_and!.
  - rewrite path_is_dir_physical by done. by rewrite Hnode, <- app_assoc.
  - by apply path_is_symlink_physical.
  - by rewrite elem_of_listdir, Hnode, <- app_assoc.
  - intros n Hn. rewrite app_assoc, <- Hnode in Hn. rewrite <- node_at_snoc in Hn.
    specialize (Hnl _ Hn). destruct n; naive_solver.
Qed.

(** The body of the loop of [copy_tree]. *)
Let merge_body : path → list string → list string → M unit :=
  λ root dirs files,
    match strip_prefix src root with
    | None => raise ValueError
    | Some rel_path =>
      let target_root := dst ++ rel_path in
      path_mkdir E true true target_root ;;
      for_each files (λ file,
        let src_file := root ++ [file] in
        let dst_file := target_root ++ [file] in
        shutil_copy2 E src_file dst_file)
    end.

Lemma os_walk_for_eq (depth : nat) (top : path)
    (body : path → list string → list string → M unit) :
  os_walk_for E (S depth) top body =
    (let* entries := gets (λ fs, scandir E fs top) in
     match entries with
     | inl _ => ret tt
     | inr names =>
       let* dirs := gets (λ fs, filter (λ n, path_is_dir E fs (top ++ [n]) = true) names) in
       let* files := gets (λ fs, filter (λ n, path_is_dir E fs (top ++ [n]) = false) names) in
       body top dirs files ;;
       for_each dirs (λ dirname,
         let new_path := top ++ [dirname] in
         let* is_link := gets (λ fs, path_is_symlink E fs new_path) in
         if is_link then ret tt else os_walk_for E depth new_path body)
     end).
Proof. done. Qed.

Lemma merge_body_keeps_merging (a : path) (dirs files : list string) :
  dir_chain fs0 src a →
  (∀ f, f ∈ files → ∃ c, fs0 !! (src ++ a ++ [f]) = Some (File c)) →
  keeps (merging fs0 src dst) (merge_body (src ++ a) dirs files).
Proof.
  intros Ha Hfiles. unfold merge_body. rewrite strip_prefix_app.
  apply keeps_bind; [apply _| |intros _].
  - apply path_mkdir_parents_keeps_merging. by apply source_chain_node.
  - apply keeps_for_each; [apply _|]. intros f Hf. destruct (Hfiles f Hf) as [c Hc].
    rewrite <- !app_assoc. apply (copy2_keeps_merging (a ++ [f]) c); [by destruct a|done].
Qed.

Lemma walk_keeps_merging (depth : nat) (a : path) :
  dir_chain fs0 src a →
  keeps (merging fs0 src dst) (os_walk_for E depth (src ++ a) merge_body).
Proof.
  revert a. induction depth as [|depth IH]; intros a Ha; [apply keeps_raise, _|].
  intros w. rewrite os_walk_for_eq. unfold bind at 1, gets at 1.
  destruct (scandir E (w_fs w) (src ++ a)) as [e|names] eqn:Hscan;
    [intros HPre; by apply merging_refl|].
  unfold bind at 1, gets at 1. unfold bind at 1, gets at 1.
  intros HPre.
  set (dirs := filter (λ n, path_is_dir E (w_fs w) ((src ++ a) ++ [n]) = true) names).
  set (files := filter (λ n, path_is_dir E (w_fs w) ((src ++ a) ++ [n]) = false) names).
  rewrite scandir_physical_dir in Hscan by (by apply merge_pre_chain). simplify_eq.
  refine (keeps_bind (merging fs0 src dst) _ _ _ _ w HPre); [|intros _].
  - apply merge_body_keeps_merging; [done|]. intros f Hf.
    apply list_elem_of_filter in Hf as [Hdir Hin].
    destruct (source_entry_kinds _ a f HPre Ha) as (Hisd & _ & Hlist & Hkinds).
    apply Hlist in Hin as [n Hn]. rewrite Hisd in Hdir.
    destruct (Hkinds _ Hn) as [->|[c ->]]; [by rewrite bool_decide_eq_true_2 in Hdir|eauto].
  - apply keeps_for_each; [apply _|]. intros d Hd.
    apply list_elem_of_filter in Hd as [Hdir Hin].
    destruct (source_entry_kinds _ a d HPre Ha) as (Hisd & _ & _ & _).
    rewrite Hisd in Hdir. apply bool_decide_eq_true_1 in Hdir.
    apply keeps_bind; [apply _|apply keeps_gets, _|]. intros lnk.
    destruct lnk; [apply keeps_ret, _|].
    rewrite <- app_assoc. apply IH. by apply source_chain_snoc.
Qed.


Lemma os_mkdir_silent (p : path) : silent (os_mkdir E p).
Proof.
  intros w. by destruct (os_mkdir_effect E p w) as [(l & _ & _ & ->)|(e & -> & _)].
Qed.

Lemma mkdir_handler_silent (exist_ok : bool) (p : path) (e : exn) :
  silent (if is_OSError e then
            let* isd := gets (λ fs, path_is_dir E fs p) in
            if negb exist_ok || negb isd then raise e else ret tt
          else raise e).
Proof.
  destruct (is_OSError e); [|apply silent_raise].
  apply silent_bind; [apply silent_gets|]. intros isd.
  destruct (negb exist_ok || negb isd); [apply silent_raise|apply silent_ret].
Qed.

Lemma path_mkdir_one_silent (exist_ok : bool) (p : path) :
  silent (path_mkdir_one E exist_ok p).
Proof.
  unfold path_mkdir_one. apply silent_bind; [apply silent_try, os_mkdir_silent|].
  intros [e|[]]; [|apply silent_ret].
  destruct e; try apply silent_raise; apply (mkdir_handler_silent exist_ok p).
Qed.

Lemma path_mkdir_parents_silent (n : nat) (exist_ok : bool) (p : path) :
  silent (path_mkdir_parents E n exist_ok p).
Proof.
  revert exist_ok p. induction n as [|n IH]; intros exist_ok p;
    rewrite path_mkdir_parents_eq;
    (apply silent_bind; [apply silent_try, os_mkdir_silent|]);
    (intros [e|[]]; [|apply silent_ret]);
    destruct e; try apply silent_raise; try apply (mkdir_handler_silent exist_ok p).
  case_bool_decide; [apply silent_raise|].
  apply silent_bind; [apply IH|]. intros _. apply path_mkdir_one_silent.
Qed.

(** ** The tree merger: what a run that returns has done *)

Lemma path_mkdir_one_result (exist_ok : bool) (a : path) (w w' : world) :
  merge_pre fs0 src dst (w_fs w) →
  path_mkdir_one E exist_ok (dst ++ a) w = (inr tt, w') →
  node_at (w_fs w') (dst ++ a) = Some Dir.
Proof.
  intros HPre. unfold path_mkdir_one, bind at 1, try.
  destruct (os_mkdir_effect E (dst ++ a) w) as [(l & Hloc & Hl & Heq)|(e & Heq & Hos & _)];
    rewrite Heq; simpl.
  - intros [= <-]. simpl.
    apply locate_plain_path in Hloc as [-> _]; [|by apply merge_pre_dst].
    destruct (dst ++ a); [done|]. simpl. by rewrite lookup_insert_eq.
  - destruct (merge_pre_dst _ a HPre) as [Hp Hnl].
    destruct e; simpl; try done; unfold bind, gets; simpl;
      destruct (path_is_dir E (w_fs w) (dst ++ a)) eqn:Hisd;
      destruct exist_ok; simpl; try done; intros [= <-];
      unfold path_is_dir in Hisd;
      (destruct (stat E (w_fs w) (dst ++ a)) as [|[l []]] eqn:Hst; try done);
      by apply stat_plain_path in Hst as [_ ?].
Qed.

Lemma path_mkdir_parents_result (n : nat) (exist_ok : bool) (a : path) (w w' : world) :
  merge_pre fs0 src dst (w_fs w) → node_at fs0 (src ++ a) = Some Dir →
  path_mkdir_parents E n exist_ok (dst ++ a) w = (inr tt, w') →
  node_at (w_fs w') (dst ++ a) = Some Dir.
Proof.
  intros HPre Ha. rewrite path_mkdir_parents_eq. unfold bind at 1, try.
  destruct (os_mkdir_effect E (dst ++ a) w) as [(l & Hloc & Hl & Heq)|(e & Heq & Hos & Hfnf)];
    rewrite Heq; simpl.
  - intros [= <-]. simpl.
    apply locate_plain_path in Hloc as [-> _]; [|by apply merge_pre_dst].
    destruct (dst ++ a); [done|]. simpl. by rewrite lookup_insert_eq.
  - destruct (merge_pre_dst _ a HPre) as [Hp Hnl].
    destruct e; simpl; try done;
      try (unfold bind, gets; simpl;
           destruct (path_is_dir E (w_fs w) (dst ++ a)) eqn:Hisd;
           destruct exist_ok; simpl; try done; intros [= <-];
           unfold path_is_dir in Hisd;
           (destruct (stat E (w_fs w) (dst ++ a)) as [|[l []]] eqn:Hst; try done);
           by apply stat_plain_path in Hst as [_ ?]).
    destruct n as [|n]; [done|]. case_bool_decide; [done|].
    intros Hrun. apply bind_inr in Hrun as ([] & w1 & Hrec & Hone).
    destruct (decide (a = [])) as [->|Hne].
    { exfalso. specialize (Hfnf eq_refl). rewrite app_nil_r in Hfnf.
      destruct HPre as (_ & Hd & _). by rewrite locate_physical_parent in Hfnf. }
    destruct (exists_last Hne) as (a' & x & ->).
    apply (path_mkdir_one_result exist_ok _ w1); [|done].
    rewrite app_assoc, parent_snoc in Hrec.
    assert (node_at fs0 (src ++ a') = Some Dir) as Ha'.
    { apply (source_ancestor_dir a' x).
      rewrite app_assoc in Ha. destruct ((src ++ a') ++ [x]) eqn:Hs; [by destruct src, a'|].
      rewrite <- app_assoc in Hs. rewrite Hs. simpl in Ha. by rewrite Ha. }
    pose proof (path_mkdir_parents_keeps_merging n true a' Ha' w HPre) as [HPre1 _].
    by rewrite Hrec in HPre1.
Qed.

Lemma copy2_result (r : path) (c : content) (w w' : world) :
  merge_pre fs0 src dst (w_fs w) → r ≠ [] → fs0 !! (src ++ r) = Some (File c) →
  shutil_copy2 E (src ++ r) (dst ++ r) w = (inr tt, w') →
  w_log w' = w_log w ++ [Call_copy2 (src ++ r) (dst ++ r)] ∧
  (w_fs w !! (dst ++ r) ≠ Some Dir → w_fs w' !! (dst ++ r) = Some (File c)).
Proof.
  intros HPre Hr H0 Hrun.
  destruct (copy2_effect E (src ++ r) (dst ++ r) w)
    as [(data & l & ls & dst' & Hdst' & Hst & _ & Hopen & Heq)|[e Heq]];
    rewrite Heq in Hrun; [|done]. simplify_eq. simpl. split; [done|]. intros Hnd.
  destruct (merge_pre_src _ r HPre) as (Hp & Hnl & Hnode).
  apply stat_plain_path in Hst as [-> Hdata]; [|done..].
  assert (data = c) as ->.
  { rewrite Hnode in Hdata. destruct (src ++ r) eqn:Hsr; [by destruct src, r|].
    simpl in Hdata. congruence. }
  destruct (merge_pre_dst _ r HPre) as (Hp' & Hnl').
  destruct Hdst' as [[-> _]|[-> Hisd]].
  - apply open_wb_plain_path in Hopen as (-> & _ & _); [|done..].
    by rewrite lookup_insert_eq.
  - exfalso. unfold path_is_dir in Hisd.
    destruct (stat E (w_fs w) (dst ++ r)) as [|[l' []]] eqn:Hst; try done.
    apply stat_plain_path in Hst as [_ Hdir]; [|done..].
    destruct (dst ++ r) eqn:Hdr; [by destruct dst, r|]. by simpl in Hdir.
Qed.

Lemma not_dir_stays (fs fs' : fsmap) (r : path) (c : content) :
  merge_rel fs0 src dst fs fs' → fs0 !! (src ++ r) = Some (File c) → r ≠ [] →
  fs !! (dst ++ r) ≠ Some Dir → fs' !! (dst ++ r) ≠ Some Dir.
Proof.
  intros (_ & _ & Hmade & _) H0 Hr Hnd Hd.
  destruct (Hmade _ Hd) as [?|(a' & Heq & Ha')]; [done|].
  apply app_inv_head in Heq as <-.
  destruct (src ++ r) eqn:Hsr; [by destruct src, r|]. simpl in Ha'. congruence.
Qed.

Lemma merge_files_result (a : path) (files : list string) (w w' : world) :
  merge_pre fs0 src dst (w_fs w) →
  (∀ f, f ∈ files → ∃ c, fs0 !! (src ++ a ++ [f]) = Some (File c)) →
  for_each files
    (λ file, shutil_copy2 E ((src ++ a) ++ [file]) ((dst ++ a) ++ [file])) w = (inr tt, w') →
  merge_pre fs0 src dst (w_fs w') ∧ merge_rel fs0 src dst (w_fs w) (w_fs w') ∧
  w_log w' = w_log w ++ copy_events (src ++ a) (dst ++ a) ((λ f, [f]) <$> files) ∧
  ∀ f c, f ∈ files → fs0 !! (src ++ a ++ [f]) = Some (File c) →
         w_fs w !! (dst ++ a ++ [f]) ≠ Some Dir →
         w_fs w' !! (dst ++ a ++ [f]) = Some (File c).
Proof.
  intros HPre Hfiles.
  apply (for_each_inr (λ done wi,
    merge_pre fs0 src dst (w_fs wi) ∧ merge_rel fs0 src dst (w_fs w) (w_fs wi) ∧
    w_log wi = w_log w ++ copy_events (src ++ a) (dst ++ a) ((λ f, [f]) <$> done) ∧
    ∀ f c, f ∈ done → fs0 !! (src ++ a ++ [f]) = Some (File c) →
           w_fs w !! (dst ++ a ++ [f]) ≠ Some Dir →
           w_fs wi !! (dst ++ a ++ [f]) = Some (File c))).
  - intros done x rest w1 w2 Hl (HPre1 & Hrel1 & Hlog1 & Hdone) Hx.
    destruct (Hfiles x) as [c Hc]; [rewrite Hl; set_solver|].
    rewrite <- !app_assoc in Hx.
    assert (a ++ [x] ≠ []) as Hne by (by destruct a).
    pose proof (copy2_keeps_merging (a ++ [x]) c Hne Hc w1 HPre1) as [HPre2 Hrel12].
    rewrite Hx in HPre2, Hrel12. simpl in HPre2, Hrel12.
    destruct (copy2_result (a ++ [x]) c w1 w2 HPre1 Hne Hc Hx) as [Hlog2 Hcont].
    split_and!; [done|by etrans| |].
    + rewrite Hlog2, Hlog1, fmap_app. unfold copy_events. rewrite fmap_app. simpl.
      by rewrite <- !app_assoc.
    + intros f c' Hf Hc' Hnd. apply elem_of_app in Hf as [Hf|Hf].
      * destruct Hrel12 as (_ & _ & _ & Hstay). apply (Hstay (a ++ [f])); eauto.
      * apply list_elem_of_singleton in Hf as ->. simplify_eq.
        apply Hcont. by eapply not_dir_stays.
  - split_and!; [done|reflexivity|by rewrite app_nil_r|]. intros f c Hf. set_solver.
Qed.

Lemma merge_body_result (a : path) (dirs files : list string) (w w' : world) :
  merge_pre fs0 src dst (w_fs w) → dir_chain fs0 src a →
  (∀ f, f ∈ files → ∃ c, fs0 !! (src ++ a ++ [f]) = Some (File c)) →
  merge_body (src ++ a) dirs files w = (inr tt, w') →
  merge_pre fs0 src dst (w_fs w') ∧ merge_rel fs0 src dst (w_fs w) (w_fs w') ∧
  node_at (w_fs w') (dst ++ a) = Some Dir ∧
  w_log w' = w_log w ++ copy_events (src ++ a) (dst ++ a) ((λ f, [f]) <$> files) ∧
  ∀ f c, f ∈ files → fs0 !! (src ++ a ++ [f]) = Some (File c) →
         w_fs w !! (dst ++ a ++ [f]) ≠ Some Dir →
         w_fs w' !! (dst ++ a ++ [f]) = Some (File c).
Proof.
  intros HPre Ha Hfiles. unfold merge_body. rewrite strip_prefix_app. intros Hrun.
  apply bind_inr in Hrun as ([] & w1 & Hmk & Hrun). unfold path_mkdir in Hmk.
  pose proof (source_chain_node a Ha) as Hnode.
  pose proof (path_mkdir_parents_keeps_merging (length (dst ++ a)) true a Hnode w HPre)
    as [HPre1 Hrel1].
  pose proof (path_mkdir_parents_silent (length (dst ++ a)) true (dst ++ a) w) as Hlog1.
  rewrite Hmk in HPre1, Hrel1, Hlog1. simpl in HPre1, Hrel1, Hlog1.
  pose proof (path_mkdir_parents_result _ _ a w w1 HPre Hnode Hmk) as Hdir.
  destruct (merge_files_result a files w1 w' HPre1 Hfiles Hrun)
    as (HPre' & Hrel' & Hlog' & Hcont).
  split_and!; [done|by etrans| |by rewrite Hlog', Hlog1|].
  - destruct Hrel' as (_ & Hg & _). by apply (node_at_dir_grows _ _ _ Hg).
  - intros f c Hf Hc Hnd. apply Hcont; [done..|].
    apply (not_dir_stays (w_fs w) _ (a ++ [f]) c); [done..|by destruct a|done].
Qed.

Lemma node_at_middle (fs : fsmap) (p r : path) (x : string) :
  node_at fs (p ++ x :: r) = fs !! (p ++ x :: r).
Proof. by destruct p. Qed.

Lemma copy_events_app (s d : path) (rs rs' : list path) :
  copy_events s d (rs ++ rs') = copy_events s d rs ++ copy_events s d rs'.
Proof. unfold copy_events. by rewrite fmap_app. Qed.

Lemma copy_events_cons (s d : path) (x : string) (rs : list path) :
  copy_events (s ++ [x]) (d ++ [x]) rs = copy_events s d ((x ::.) <$> rs).
Proof.
  unfold copy_events. rewrite <- list_fmap_compose. apply list_fmap_ext.
  intros _ r _. simpl. by rewrite <- !app_assoc.
Qed.

Lemma source_dir_of_deeper (a r : path) (x : string) :
  r ≠ [] → is_Some (fs0 !! (src ++ a ++ x :: r)) → fs0 !! (src ++ a ++ [x]) = Some Dir.
Proof.
  intros Hr Hs. rewrite app_assoc, <- node_at_snoc.
  apply (well_formed_ancestor fs0 _ r); [done| |done].
  by rewrite <- !app_assoc.
Qed.

Lemma source_dir_of_dir_below (a r : path) (x : string) :
  node_at fs0 (src ++ a ++ x :: r) = Some Dir → fs0 !! (src ++ a ++ [x]) = Some Dir.
Proof.
  rewrite app_assoc, node_at_middle, <- app_assoc. intros Hd.
  destruct (decide (r = [])) as [->|Hr]; [done|].
  apply (source_dir_of_deeper a r x Hr). by rewrite Hd.
Qed.

Lemma walk_result (depth : nat) (a : path) (w w' : world) :
  merge_pre fs0 src dst (w_fs w) → dir_chain fs0 src a →
  os_walk_for E depth (src ++ a) merge_body w = (inr tt, w') →
  merge_pre fs0 src dst (w_fs w') ∧ merge_rel fs0 src dst (w_fs w) (w_fs w') ∧
  (∀ r c, r ≠ [] → fs0 !! (src ++ a ++ r) = Some (File c) →
          w_fs w !! (dst ++ a ++ r) ≠ Some Dir →
          w_fs w' !! (dst ++ a ++ r) = Some (File c)) ∧
  (∀ r, node_at fs0 (src ++ a ++ r) = Some Dir →
        node_at (w_fs w') (dst ++ a ++ r) = Some Dir) ∧
  ∃ rs, files_under fs0 (src ++ a) rs ∧
        w_log w' = w_log w ++ copy_events (src ++ a) (dst ++ a) rs.
Proof.
  revert a w w'. induction depth as [|depth IH]; intros a w w' HPre Ha Hrun; [done|].
  rewrite os_walk_for_eq in Hrun. unfold bind at 1, gets at 1 in Hrun.
  rewrite scandir_physical_dir in Hrun by (by apply merge_pre_chain).
  unfold bind at 1, gets at 1 in Hrun. unfold bind at 1, gets at 1 in Hrun.
  set (names := listdir (w_fs w) (src ++ a)) in Hrun.
  set (dirs := filter (λ n, path_is_dir E (w_fs w) ((src ++ a) ++ [n]) = true) names) in Hrun.
  set (files := filter (λ n, path_is_dir E (w_fs w) ((src ++ a) ++ [n]) = false) names)
    in Hrun.
  apply bind_inr in Hrun as ([] & w2 & Hbody & Hloop).
  (* what the two lists hold *)
  assert (∀ x, x ∈ files ↔ ∃ c, fs0 !! (src ++ a ++ [x]) = Some (File c)) as Hfiles.
  { intros x. unfold files, names. rewrite list_elem_of_filter.
    destruct (source_entry_kinds _ a x HPre Ha) as (-> & _ & -> & Hkinds). split.
    - intros [Hd [n Hn]]. destruct (Hkinds _ Hn) as [->|[c ->]]; [|eauto].
      by rewrite bool_decide_eq_true_2 in Hd.
    - intros [c Hc]. rewrite Hc. by rewrite bool_decide_eq_false_2. }
  assert (∀ x, x ∈ dirs ↔ fs0 !! (src ++ a ++ [x]) = Some Dir) as Hdirs.
  { intros x. unfold dirs, names. rewrite list_elem_of_filter.
    destruct (source_entry_kinds _ a x HPre Ha) as (-> & _ & -> & _).
    rewrite bool_decide_eq_true. naive_solver. }
  assert (NoDup files) as Hndf by apply NoDup_filter, NoDup_listdir.
  assert (NoDup dirs) as Hndd by apply NoDup_filter, NoDup_listdir.
  clearbody dirs files. clear names.
  destruct (merge_body_result a dirs files w w2 HPre Ha) as (HPre2 & Hrel2 & Hdir2 & Hlog2 & Hcont2);
    [intros f Hf; by apply Hfiles|done|].
  (* the loop over the directories *)
  pose (I := λ (done : list string) (wi : world),
    merge_pre fs0 src dst (w_fs wi) ∧ merge_rel fs0 src dst (w_fs w2) (w_fs wi) ∧
    (∀ d r c, d ∈ done → r ≠ [] → fs0 !! (src ++ a ++ d :: r) = Some (File c) →
              w_fs w !! (dst ++ a ++ d :: r) ≠ Some Dir →
              w_fs wi !! (dst ++ a ++ d :: r) = Some (File c)) ∧
    (∀ d r, d ∈ done → node_at fs0 (src ++ a ++ d :: r) = Some Dir →
            node_at (w_fs wi) (dst ++ a ++ d :: r) = Some Dir) ∧
    ∃ rs, NoDup rs ∧
          (∀ r, r ∈ rs ↔ ∃ d r', r = d :: r' ∧ d ∈ done ∧ r' ≠ [] ∧
                               ∃ c, fs0 !! (src ++ a ++ d :: r') = Some (File c)) ∧
          w_log wi = w_log w2 ++ copy_events (src ++ a) (dst ++ a) rs).
  assert (I dirs w') as (HPre' & Hrel' & Hfiles' & Hdirs' & rsd & Hnd & Hin & Hlog').
  { refine (for_each_inr I _ dirs w2 w' _ _ Hloop).
    - intros done x rest w1 w1' Hl (HPre1 & Hrel1 & Hf1 & Hd1 & rs & Hnd1 & Hin1 & Hlog1) Hx.
      assert (x ∈ dirs) as Hxd by (rewrite Hl; set_solver).
      assert (x ∉ done) as Hxn.
      { rewrite Hl in Hndd. apply NoDup_app in Hndd as (_ & Hndd & _).
        intros Hxin. apply (Hndd _ Hxin). set_solver. }
      apply Hdirs in Hxd.
      unfold bind, gets in Hx. simpl in Hx.
      destruct (source_entry_kinds _ a x HPre1 Ha) as (_ & Hlnk & _). rewrite Hlnk in Hx.
      rewrite <- app_assoc in Hx.
      destruct (IH (a ++ [x]) w1 w1' HPre1) as (HPre1' & Hrel1' & Hf1' & Hd1' & rsx & [Hndx Hinx] & Hlogx);
        [by apply source_chain_snoc|done|].
      assert (merge_rel fs0 src dst (w_fs w) (w_fs w1)) as Hrel01 by by etrans.
      unfold I. split_and!; [done|by etrans| | |].
      + intros d r c Hd Hr Hc Hnd'. apply elem_of_app in Hd as [Hd|Hd].
        * destruct Hrel1' as (_ & _ & _ & Hstay). apply (Hstay (a ++ d :: r)); eauto.
        * apply list_elem_of_singleton in Hd as ->.
          specialize (Hf1' r c Hr). rewrite <- !app_assoc in Hf1'. apply Hf1'; [done|].
          apply (not_dir_stays (w_fs w) _ (a ++ x :: r) c); [done..|by destruct a|done].
      + intros d r Hd Hr. apply elem_of_app in Hd as [Hd|Hd].
        * destruct Hrel1' as (_ & Hg & _). apply (node_at_dir_grows _ _ _ Hg). eauto.
        * apply list_elem_of_singleton in Hd as ->.
          specialize (Hd1' r). rewrite <- !app_assoc in Hd1'. by apply Hd1'.
      + exists (rs ++ ((x ::.) <$> rsx)). split_and!.
        * apply NoDup_app. split_and!; [done| |by apply NoDup_fmap; [apply _|]].
          intros r Hr Hr'. apply Hin1 in Hr as (d & r' & -> & Hd & _).
          apply list_elem_of_fmap in Hr' as (r'' & [= <- _] & _). done.
        * intros r. rewrite elem_of_app, Hin1, list_elem_of_fmap. split.
          -- intros [(d & r' & -> & Hd & Hr' & Hc)|(r' & -> & Hr')].
             ++ exists d, r'. split_and!; [done|set_solver|done..].
             ++ apply Hinx in Hr' as [Hne [c Hc]]. exists x, r'.
                rewrite <- !app_assoc in Hc. split_and!; [done|set_solver|done|eauto].
          -- intros (d & r' & -> & Hd & Hr' & c & Hc). apply elem_of_app in Hd as [Hd|Hd].
             ++ left. eauto 10.
             ++ apply list_elem_of_singleton in Hd as ->. right. exists r'. split; [done|].
                apply Hinx. split; [done|]. exists c. by rewrite <- !app_assoc.
        * rewrite Hlogx, Hlog1, copy_events_app, <- !app_assoc.
          by rewrite <- copy_events_cons, <- !app_assoc.
    - unfold I. split_and!; [done|reflexivity|set_solver|set_solver|].
      exists []. split_and!; [constructor|set_solver|by rewrite app_nil_r]. }
  clear I. split_and!; [done|by etrans| | |].
  - intros [|x r] c Hr Hc Hnd'; [done|]. destruct (decide (r = [])) as [->|Hne].
    + destruct Hrel' as (_ & _ & _ & Hstay). apply (Hstay (a ++ [x])); [done|].
      apply Hcont2; [|done..]. apply Hfiles. eauto.
    + apply Hfiles'; [|done..]. apply Hdirs. apply (source_dir_of_deeper a r x Hne). eauto.
  - intros [|x r] Hr.
    + rewrite app_nil_r in *. destruct Hrel' as (_ & Hg & _).
      by apply (node_at_dir_grows _ _ _ Hg).
    + apply Hdirs'; [|done]. apply Hdirs. by apply (source_dir_of_dir_below a r x).
  - exists (((λ f, [f]) <$> files) ++ rsd). split; [split|].
    + apply NoDup_app. split_and!; [| |done].
      * apply NoDup_fmap; [|done]. by intros ?? [= ->].
      * intros r Hr Hr'. apply list_elem_of_fmap in Hr as (f & -> & _).
        apply Hin in Hr' as (d & r' & [= <- <-] & _ & ? & _). done.
    + intros r. rewrite elem_of_app, Hin, list_elem_of_fmap. split.
      * intros [(f & -> & Hf)|(d & r' & -> & Hd & Hr' & c & Hc)].
        -- split; [done|]. apply Hfiles in Hf as [c Hc]. exists c. by rewrite <- app_assoc.
        -- split; [done|]. exists c. by rewrite <- app_assoc.
      * intros [Hne [c Hc]]. rewrite <- app_assoc in Hc. destruct r as [|x r]; [done|].
        destruct (decide (r = [])) as [->|Hr].
        -- left. exists x. split; [done|]. apply Hfiles. eauto.
        -- right. exists x, r. split_and!; [done| |done|eauto].
           apply Hdirs. apply (source_dir_of_deeper a r x Hr). eauto.
    + by rewrite Hlog', Hlog2, copy_events_app, <- !app_assoc.
Qed.
(** ** [shutil.copytree] into a new place beside the source *)

(** The first half of [os.makedirs]: making the parents. *)
Let makedirs_head (n : nat) (name : path) : M unit :=
  let* head_exists := gets (λ fs, path_exists E fs (parent name)) in
  if bool_decide (name ≠ []) && negb head_exists then
    match n with
    | 0 => ret tt
    | S n' =>
      let* r := try (os_makedirs_from E n' false (parent name)) in
      match r with
      | inr _ | inl FileExistsError => ret tt
      | inl e => raise e
      end
    end
  else ret tt.

Lemma makedirs_head_keeps_merging (n : nat) (a : path) :
  (∀ a', node_at fs0 (src ++ a') = Some Dir →
         keeps (merging fs0 src dst) (os_makedirs_from E (pred n) false (dst ++ a'))) →
  node_at fs0 (src ++ a) = Some Dir →
  keeps (merging fs0 src dst) (makedirs_head n (dst ++ a)).
Proof.
  intros IH Ha w. unfold makedirs_head, bind, gets. simpl.
  destruct (bool_decide (dst ++ a ≠ []) && negb _) eqn:Hc;
    [|intros HPre; by apply merging_refl].
  destruct n as [|n]; [intros HPre; by apply merging_refl|].
  apply andb_true_iff in Hc as [_ Hex]. apply negb_true_iff in Hex. intros HPre.
  destruct (decide (a = [])) as [->|Hne].
  { exfalso. rewrite app_nil_r in Hex. destruct HPre as (_ & Hd & _).
    by rewrite path_exists_physical_dir in Hex. }
  destruct (exists_last Hne) as (a' & x & ->).
  rewrite app_assoc, parent_snoc.
  assert (node_at fs0 (src ++ a') = Some Dir) as Ha'.
  { apply (source_ancestor_dir a' x).
    rewrite app_assoc in Ha. destruct ((src ++ a') ++ [x]) eqn:Hs; [by destruct src, a'|].
    rewrite <- app_assoc in Hs. rewrite Hs. simpl in Ha. by rewrite Ha. }
  pose proof (IH a' Ha' w HPre) as Hk. unfold try. simpl in Hk.
  destruct (os_makedirs_from E n false (dst ++ a') w) as [[e|[]] w1]; simpl in *; [|done].
  by destruct e.
Qed.

Lemma os_makedirs_from_split (n : nat) (name : path) :
  os_makedirs_from E n false name =
    (makedirs_head n name ;;
     let* r := try (os_mkdir E name) in
     match r with
     | inr _ => ret tt
     | inl e =>
       if is_OSError e then
         let* isd := gets (λ fs, path_is_dir E fs name) in
         if negb false || negb isd then raise e else ret tt
       else raise e
     end).
Proof. by destruct n. Qed.

Lemma os_makedirs_keeps_merging (n : nat) (a : path) :
  node_at fs0 (src ++ a) = Some Dir →
  keeps (merging fs0 src dst) (os_makedirs_from E n false (dst ++ a)).
Proof.
  revert a. induction n as [|n IH]; intros a Ha; rewrite os_makedirs_from_split;
    (apply keeps_bind; [apply _| |intros _;
       apply keeps_bind; [apply _|by apply keeps_try, os_mkdir_keeps_merging|];
       intros [e|[]]; [apply (mkdir_handler_additive E _ false (dst ++ a) e)|apply keeps_ret, _]]);
    apply makedirs_head_keeps_merging; try done.
  intros a' Ha'. change (pred 0) with 0. rewrite os_makedirs_from_split.
  apply keeps_bind; [apply _| |intros _;
       apply keeps_bind; [apply _|by apply keeps_try, os_mkdir_keeps_merging|];
       intros [e|[]]; [apply (mkdir_handler_additive E _ false (dst ++ a') e)|apply keeps_ret, _]].
  intros w HPre. unfold makedirs_head, bind, gets. simpl.
  destruct (bool_decide (dst ++ a' ≠ []) && negb _); by apply merging_refl.
Qed.

Lemma os_makedirs_silent (n : nat) (exist_ok : bool) (name : path) :
  silent (os_makedirs_from E n exist_ok name).
Proof.
  revert name. induction n as [|n IH]; intros name; rewrite os_makedirs_from_eq;
    (apply silent_bind; [|intros _; apply silent_bind; [apply silent_try, os_mkdir_silent|];
       intros [e|[]]; [apply (mkdir_handler_silent exist_ok name e)|apply silent_ret]]);
    (apply silent_bind; [apply silent_gets|]); intros ex;
    destruct (bool_decide (name ≠ []) && negb ex); try apply silent_ret.
  apply silent_bind; [apply silent_try, IH|].
  intros [e|[]]; [|apply silent_ret]. destruct e; first [apply silent_ret|apply silent_raise].
Qed.

Lemma os_makedirs_result (n : nat) (a : path) (w w' : world) :
  merge_pre fs0 src dst (w_fs w) → node_at fs0 (src ++ a) = Some Dir →
  os_makedirs_from E n false (dst ++ a) w = (inr tt, w') →
  w_log w' = w_log w ∧ node_at (w_fs w') (dst ++ a) = Some Dir.
Proof.
  intros HPre Ha Hrun. split.
  { pose proof (os_makedirs_silent n false (dst ++ a) w) as Hs. by rewrite Hrun in Hs. }
  rewrite os_makedirs_from_split in Hrun.
  apply bind_inr in Hrun as ([] & w1 & Hhead & Hrun).
  assert (merge_pre fs0 src dst (w_fs w1)) as HPre1.
  { assert (keeps (merging fs0 src dst) (makedirs_head n (dst ++ a))) as Hk.
    { apply makedirs_head_keeps_merging; [|done].
      intros a' Ha'. by apply os_makedirs_keeps_merging. }
    specialize (Hk w HPre). rewrite Hhead in Hk. by destruct Hk. }
  unfold bind, try in Hrun.
  destruct (os_mkdir_effect E (dst ++ a) w1) as [(l & Hloc & Hl & Heq)|(e & Heq & Hos & _)];
    rewrite Heq in Hrun; simpl in Hrun.
  - unfold ret in Hrun. simplify_eq. simpl.
    apply locate_plain_path in Hloc as [-> _]; [|by apply merge_pre_dst].
    destruct (dst ++ a); [done|]. simpl. by rewrite lookup_insert_eq.
  - rewrite Hos in Hrun. unfold bind, gets in Hrun. by simpl in Hrun.
Qed.

(** What [copytree] does with one entry of the directory it copies. *)
Let copy_entry (depth : nat) (s t : path) : bool → string → M bool :=
  λ errors name,
    let* isd := gets (λ fs, path_is_dir E fs (s ++ [name])) in
    let* r := try (if isd then copytree_from E depth (s ++ [name]) (t ++ [name])
                   else shutil_copy2 E (s ++ [name]) (t ++ [name])) in
    match r with
    | inr _ => ret errors
    | inl e => if is_OSError e then ret true else raise e
    end.

Lemma copytree_from_eq (depth : nat) (s t : path) :
  copytree_from E (S depth) s t =
    (let* entries := gets (λ fs, scandir E fs s) in
     let* names := lift entries in
     os_makedirs E false t ;;
     let* errors := fold_m (copy_entry depth s t) false names in
     if errors then raise ShutilError else ret tt).
Proof. done. Qed.

Lemma source_entry_node (fs : fsmap) (a : path) (x : string) :
  merge_pre fs0 src dst fs → dir_chain fs0 src a →
  (if path_is_dir E fs ((src ++ a) ++ [x]) then fs0 !! (src ++ a ++ [x]) = Some Dir
   else x ∈ listdir fs (src ++ a) → ∃ c, fs0 !! (src ++ a ++ [x]) = Some (File c)).
Proof.
  intros HPre Ha. destruct (source_entry_kinds _ a x HPre Ha) as (-> & _ & Hlist & Hkinds).
  case_bool_decide as Hd; [done|]. intros Hin. apply Hlist in Hin as [n Hn].
  destruct (Hkinds _ Hn) as [->|[c ->]]; [done|eauto].
Qed.

Lemma copy_entry_keeps_merging (depth : nat) (a : path) (names : list string)
    (errors : bool) (x : string) :
  (∀ a', dir_chain fs0 src a' →
         keeps (merging fs0 src dst) (copytree_from E depth (src ++ a') (dst ++ a'))) →
  dir_chain fs0 src a → is_Some (fs0 !! (src ++ a ++ [x])) →
  keeps (merging fs0 src dst) (copy_entry depth (src ++ a) (dst ++ a) errors x).
Proof.
  intros IH Ha Hx w. unfold copy_entry, bind at 1, gets at 1. intros HPre.
  pose proof (source_entry_node _ a x HPre Ha) as Hnode.
  destruct (source_entry_kinds _ a x HPre Ha) as (_ & _ & Hlist & _).
  apply Hlist in Hx.
  assert (keeps (merging fs0 src dst)
            (if path_is_dir E (w_fs w) ((src ++ a) ++ [x])
             then copytree_from E depth ((src ++ a) ++ [x]) ((dst ++ a) ++ [x])
             else shutil_copy2 E ((src ++ a) ++ [x]) ((dst ++ a) ++ [x]))) as Hop.
  { destruct (path_is_dir E (w_fs w) ((src ++ a) ++ [x])).
    - rewrite <- !app_assoc. apply IH. by apply source_chain_snoc.
    - destruct (Hnode Hx) as [c Hc]. rewrite <- !app_assoc.
      apply (copy2_keeps_merging (a ++ [x]) c); [by destruct a|done]. }
  refine (keeps_bind (merging fs0 src dst) _ _ (keeps_try _ _ Hop) _ w HPre).
  intros [e|[]]; [|apply keeps_ret, _].
  destruct (is_OSError e); [apply keeps_ret, _|apply keeps_raise, _].
Qed.

Lemma copytree_keeps_merging (depth : nat) (a : path) :
  dir_chain fs0 src a →
  keeps (merging fs0 src dst) (copytree_from E depth (src ++ a) (dst ++ a)).
Proof.
  revert a. induction depth as [|depth IH]; intros a Ha; [apply keeps_raise, _|].
  intros w. rewrite copytree_from_eq. unfold bind at 1, gets at 1.
  destruct (scandir E (w_fs w) (src ++ a)) as [e|names] eqn:Hscan;
    [intros HPre; by apply merging_refl|].
  unfold bind at 1. simpl. intros HPre.
  rewrite scandir_physical_dir in Hscan by (by apply merge_pre_chain). simplify_eq.
  refine (keeps_bind (merging fs0 src dst) _ _ _ _ w HPre); [|intros _].
  - apply os_makedirs_keeps_merging. by apply source_chain_node.
  - apply keeps_bind; [apply _| |intros []; [apply keeps_raise, _|apply keeps_ret, _]].
    apply keeps_fold_m; [apply _|]. intros errors x Hx.
    apply (copy_entry_keeps_merging depth a (listdir (w_fs w) (src ++ a))); [done..|].
    destruct (source_entry_kinds _ a x HPre Ha) as (_ & _ & Hlist & _). by apply Hlist.
Qed.

Lemma source_file_is_leaf (a r : path) (x : string) (c : content) :
  fs0 !! (src ++ a ++ [x]) = Some (File c) → is_Some (fs0 !! (src ++ a ++ x :: r)) → r = [].
Proof.
  intros Hc Hs. destruct (decide (r = [])) as [|Hr]; [done|].
  pose proof (source_dir_of_deeper a r x Hr Hs). congruence.
Qed.

Lemma copytree_result (depth : nat) (a : path) (w w' : world) :
  merge_pre fs0 src dst (w_fs w) → dir_chain fs0 src a →
  copytree_from E depth (src ++ a) (dst ++ a) w = (inr tt, w') →
  merge_pre fs0 src dst (w_fs w') ∧ merge_rel fs0 src dst (w_fs w) (w_fs w') ∧
  (∀ r c, r ≠ [] → fs0 !! (src ++ a ++ r) = Some (File c) →
          w_fs w !! (dst ++ a ++ r) ≠ Some Dir →
          w_fs w' !! (dst ++ a ++ r) = Some (File c)) ∧
  (∀ r, node_at fs0 (src ++ a ++ r) = Some Dir →
        node_at (w_fs w') (dst ++ a ++ r) = Some Dir) ∧
  ∃ rs, files_under fs0 (src ++ a) rs ∧
        w_log w' = w_log w ++ copy_events (src ++ a) (dst ++ a) rs.
Proof.
  revert a w w'. induction depth as [|depth IH]; intros a w w' HPre Ha Hrun; [done|].
  rewrite copytree_from_eq in Hrun. unfold bind at 1, gets at 1 in Hrun.
  rewrite scandir_physical_dir in Hrun by (by apply merge_pre_chain).
  unfold bind at 1 in Hrun. simpl in Hrun.
  assert (∀ x, x ∈ listdir (w_fs w) (src ++ a) ↔ is_Some (fs0 !! (src ++ a ++ [x])))
    as Hnames.
  { intros x. by destruct (source_entry_kinds _ a x HPre Ha) as (_ & _ & ? & _). }
  pose proof (NoDup_listdir (w_fs w) (src ++ a)) as Hndn.
  revert Hnames Hndn Hrun. generalize (listdir (w_fs w) (src ++ a)) as names.
  intros names Hnames Hndn Hrun.
  apply bind_inr in Hrun as ([] & w1 & Hmk & Hrun).
  pose proof (source_chain_node a Ha) as Hnode.
  pose proof (os_makedirs_keeps_merging (length (dst ++ a)) a Hnode w HPre) as [HPre1 Hrel1].
  unfold os_makedirs in Hmk. rewrite Hmk in HPre1, Hrel1. simpl in HPre1, Hrel1.
  destruct (os_makedirs_result _ a w w1 HPre Hnode Hmk) as [Hlog1 Hdir1].
  apply bind_inr in Hrun as (errors & w2 & Hfold & Hend).
  destruct errors; [done|]. unfold ret in Hend. simplify_eq.
  pose (I := λ (done : list string) (b : bool) (wi : world),
    merge_pre fs0 src dst (w_fs wi) ∧ merge_rel fs0 src dst (w_fs w1) (w_fs wi) ∧
    (b = false →
     (∀ x r c, x ∈ done → fs0 !! (src ++ a ++ x :: r) = Some (File c) →
               w_fs w !! (dst ++ a ++ x :: r) ≠ Some Dir →
               w_fs wi !! (dst ++ a ++ x :: r) = Some (File c)) ∧
     (∀ x r, x ∈ done → node_at fs0 (src ++ a ++ x :: r) = Some Dir →
             node_at (w_fs wi) (dst ++ a ++ x :: r) = Some Dir) ∧
     ∃ rs, NoDup rs ∧
           (∀ r, r ∈ rs ↔ ∃ x r', r = x :: r' ∧ x ∈ done ∧
                                ∃ c, fs0 !! (src ++ a ++ x :: r') = Some (File c)) ∧
           w_log wi = w_log w1 ++ copy_events (src ++ a) (dst ++ a) rs)).
  assert (I names false w') as (HPre' & Hrel' & HI).
  { refine (fold_m_inr I _ names false false w1 w' _ _ Hfold).
    - intros done x rest b1 wa b2 wb Hl (HPrea & Hrela & Hfacts) Hx.
      assert (x ∈ names) as Hxn by (rewrite Hl; set_solver).
      assert (x ∉ done) as Hxd.
      { rewrite Hl in Hndn. apply NoDup_app in Hndn as (_ & Hndn & _).
        intros Hxin. apply (Hndn _ Hxin). set_solver. }
      apply Hnames in Hxn.
      pose proof (copy_entry_keeps_merging depth a names b1 x
                    (copytree_keeps_merging depth) Ha Hxn wa HPrea) as [HPreb Hrelab].
      rewrite Hx in HPreb, Hrelab. simpl in HPreb, Hrelab.
      unfold I. split_and!; [done|by etrans|]. intros ->.
      unfold copy_entry, bind at 1, gets at 1 in Hx.
      pose proof (source_entry_node _ a x HPrea Ha) as Hkind.
      destruct (source_entry_kinds _ a x HPrea Ha) as (_ & _ & Hlist & _).
      apply Hlist in Hxn. clear Hlist.
      unfold bind, try in Hx.
      assert (merge_rel fs0 src dst (w_fs w) (w_fs wa)) as Hrel0a by by etrans.
      destruct (path_is_dir E (w_fs wa) ((src ++ a) ++ [x])).
      + (* a directory: copied by the recursive call *)
        rewrite <- !app_assoc in Hx.
        destruct (copytree_from E depth (src ++ a ++ [x]) (dst ++ a ++ [x]) wa)
          as [[e|[]] wc] eqn:Hrec; simpl in Hx;
          [destruct (is_OSError e); by simplify_eq|].
        unfold ret in Hx. simplify_eq.
        destruct Hfacts as (Hf & Hd & rs & Hnd & Hin & Hlog); [done|].
        destruct (IH (a ++ [x]) wa wb HPrea) as (_ & _ & Hfx & Hdx & rsx & [Hndx Hinx] & Hlogx);
          [by apply source_chain_snoc|done|].
        split_and!.
        * intros y r c Hy Hc Hnd'. apply elem_of_app in Hy as [Hy|Hy].
          -- destruct Hrelab as (_ & _ & _ & Hstay). apply (Hstay (a ++ y :: r)); eauto.
          -- apply list_elem_of_singleton in Hy as ->.
             destruct (decide (r = [])) as [->|Hr]; [congruence|].
             specialize (Hfx r c Hr). rewrite <- !app_assoc in Hfx. apply Hfx; [done|].
             apply (not_dir_stays (w_fs w) _ (a ++ x :: r) c); [done..|by destruct a|done].
        * intros y r Hy Hr. apply elem_of_app in Hy as [Hy|Hy].
          -- destruct Hrelab as (_ & Hg & _). apply (node_at_dir_grows _ _ _ Hg). eauto.
          -- apply list_elem_of_singleton in Hy as ->.
             specialize (Hdx r). rewrite <- !app_assoc in Hdx. by apply Hdx.
        * exists (rs ++ ((x ::.) <$> rsx)). split_and!.
          -- apply NoDup_app. split_and!; [done| |by apply NoDup_fmap; [apply _|]].
             intros r Hr Hr'. apply Hin in Hr as (y & r' & -> & Hy & _).
             apply list_elem_of_fmap in Hr' as (r'' & [= <- _] & _). done.
          -- intros r. rewrite elem_of_app, Hin, list_elem_of_fmap. split.
             ++ intros [(y & r' & -> & Hy & Hc)|(r' & -> & Hr')].
                ** exists y, r'. split_and!; [done|set_solver|done].
                ** apply Hinx in Hr' as [Hne [c Hc]]. exists x, r'.
                   rewrite <- !app_assoc in Hc. split_and!; [done|set_solver|eauto].
             ++ intros (y & r' & -> & Hy & c & Hc). apply elem_of_app in Hy as [Hy|Hy].
                ** left. eauto 10.
                ** apply list_elem_of_singleton in Hy as ->. right. exists r'.
                   split; [done|]. apply Hinx. split.
                   --- intros ->. congruence.
                   --- exists c. by rewrite <- !app_assoc.
          -- rewrite Hlogx, Hlog, copy_events_app, <- !app_assoc.
             by rewrite <- copy_events_cons, <- !app_assoc.
      + (* a file: copied by copy2 *)
        destruct (Hkind Hxn) as [c Hc]. rewrite <- !app_assoc in Hx.
        destruct (shutil_copy2 E (src ++ a ++ [x]) (dst ++ a ++ [x]) wa)
          as [[e|[]] wc] eqn:Hcp; simpl in Hx;
          [destruct (is_OSError e); by simplify_eq|].
        unfold ret in Hx. simplify_eq.
        destruct Hfacts as (Hf & Hd & rs & Hnd & Hin & Hlog); [done|].
        assert (a ++ [x] ≠ []) as Hne by (by destruct a).
        destruct (copy2_result (a ++ [x]) c wa wb HPrea Hne) as [Hlogb Hcont]; [done..|].
        split_and!.
        * intros y r c' Hy Hc' Hnd'. apply elem_of_app in Hy as [Hy|Hy].
          -- destruct Hrelab as (_ & _ & _ & Hstay). apply (Hstay (a ++ y :: r)); eauto.
          -- apply list_elem_of_singleton in Hy as ->.
             assert (r = []) as -> by (eapply source_file_is_leaf; eauto).
             simplify_eq. apply Hcont.
             by eapply (not_dir_stays (w_fs w) _ (a ++ [x])).
        * intros y r Hy Hr. apply elem_of_app in Hy as [Hy|Hy].
          -- destruct Hrelab as (_ & Hg & _). apply (node_at_dir_grows _ _ _ Hg). eauto.
          -- apply list_elem_of_singleton in Hy as ->. exfalso.
             rewrite app_assoc, node_at_middle, <- app_assoc in Hr.
             assert (r = []) as -> by (eapply source_file_is_leaf; eauto).
             congruence.
        * exists (rs ++ [[x]]). split_and!.
          -- apply NoDup_app. split_and!; [done| |apply NoDup_singleton].
             intros r Hr Hr'. apply Hin in Hr as (y & r' & -> & Hy & _).
             apply list_elem_of_singleton in Hr' as [= -> _]. done.
          -- intros r. rewrite elem_of_app, Hin, list_elem_of_singleton. split.
             ++ intros [(y & r' & -> & Hy & Hc')| ->].
                ** exists y, r'. split_and!; [done|set_solver|done].
                ** exists x, []. split_and!; [done|set_solver|eauto].
             ++ intros (y & r' & -> & Hy & c' & Hc'). apply elem_of_app in Hy as [Hy|Hy].
                ** left. eauto 10.
                ** apply list_elem_of_singleton in Hy as ->. right.
                   assert (r' = []) as -> by (eapply source_file_is_leaf; eauto). done.
          -- rewrite Hlogb, Hlog, copy_events_app, <- !app_assoc. unfold copy_events.
             simpl. by rewrite <- !app_assoc.
    - unfold I. split_and!; [done|reflexivity|]. intros _.
      split_and!; [set_solver|set_solver|].
      exists []. split_and!; [constructor|set_solver|by rewrite app_nil_r]. }
  destruct HI as (Hf & Hd & rs & Hnd & Hin & Hlog); [done|]. clear I.
  assert (∀ x r, is_Some (fs0 !! (src ++ a ++ x :: r)) → x ∈ names) as Hhead.
  { intros x r Hs. apply Hnames. destruct (decide (r = [])) as [->|Hr]; [done|].
    by rewrite (source_dir_of_deeper a r x Hr Hs). }
  split_and!; [done|by etrans| | |].
  - intros [|x r] c Hr Hc Hnd'; [done|]. apply Hf; [|done..]. apply (Hhead x r). eauto.
  - intros [|x r] Hr.
    + rewrite app_nil_r in *. destruct Hrel' as (_ & Hg & _).
      by apply (node_at_dir_grows _ _ _ Hg).
    + apply Hd; [|done]. apply (Hhead x r).
      rewrite app_assoc, node_at_middle, <- app_assoc in Hr. by rewrite Hr.
  - exists rs. split; [split; [done|]|by rewrite Hlog, Hlog1].
    intros r. rewrite Hin. split.
    + intros (x & r' & -> & Hx & c & Hc). split; [done|]. exists c. by rewrite <- app_assoc.
    + intros [Hne [c Hc]]. destruct r as [|x r]; [done|]. rewrite <- app_assoc in Hc.
      exists x, r. split_and!; [done| |eauto]. apply (Hhead x r). eauto.
Qed.

End Merge.

(** What the tree merger does keep of its contract: run on a source
    tree and a destination tree of real directories and files that lie
    apart, and returning normally, it
    - removes nothing and changes the kind of nothing (it is additive),
      and changes nothing outside the destination;
    - leaves at [dst/r] the bytes of every source file [src/r], whether
      or not a file was there before (unless a directory sits there);
    - has a directory at [dst/a] for every directory [src/a];
    - has called [shutil.copy2] once for each file stored below [src],
      from [src/r] to [dst/r], and not otherwise. *)
Theorem copy_tree_merges (E : env) (src dst : path) (w w' : world) :
  physical_dir (w_fs w) src → link_free (w_fs w) src →
  physical_dir (w_fs w) dst → link_free (w_fs w) dst →
  well_formed (w_fs w) →
  under src dst = false → under dst src = false →
  copy_tree E src dst w = (inr tt, w') →
  grows (w_fs w) (w_fs w') ∧
  same_outside (λ q, under dst q = true) (w_fs w) (w_fs w') ∧
  (∀ r c, r ≠ [] → w_fs w !! (src ++ r) = Some (File c) →
          w_fs w !! (dst ++ r) ≠ Some Dir →
          w_fs w' !! (dst ++ r) = Some (File c)) ∧
  (∀ a, node_at (w_fs w) (src ++ a) = Some Dir → node_at (w_fs w') (dst ++ a) = Some Dir) ∧
  ∃ rs, files_under (w_fs w) src rs ∧ w_log w' = w_log w ++ copy_events src dst rs.
Proof.
  intros Hs Hlfs Hd Hlfd Hwf Hsd Hds Hrun.
  pose proof (copy_tree_grows E src dst w) as Hg. rewrite Hrun in Hg.
  assert (merge_pre (w_fs w) src dst (w_fs w)) as HPre
    by (split_and!; auto using physical_dir_parent).
  pose proof (walk_result E (w_fs w) src dst Hs Hlfs Hwf Hsd Hds
                (recursion_limit E) [] w w' HPre I) as Hres.
  rewrite !app_nil_r in Hres. simpl in Hres.
  destruct (Hres Hrun) as (_ & (Hout & _) & Hfiles & Hdirs & Hlog).
  by split_and!.
Qed.

Lemma copy_tree_merges_witness :
  let src := ["game"; "loader"; "mods"; "A"] in
  let dst := ["game"; "loader"; "output"] in
  let w' := (copy_tree posix_env src dst (World merge_fs [])).2 in
  grows merge_fs (w_fs w') ∧
  same_outside (λ q, under dst q = true) merge_fs (w_fs w') ∧
  (∀ r c, r ≠ [] → merge_fs !! (src ++ r) = Some (File c) →
          merge_fs !! (dst ++ r) ≠ Some Dir →
          w_fs w' !! (dst ++ r) = Some (File c)) ∧
  (∀ a, node_at merge_fs (src ++ a) = Some Dir → node_at (w_fs w') (dst ++ a) = Some Dir) ∧
  ∃ rs, files_under merge_fs src rs ∧ w_log w' = [] ++ copy_events src dst rs.
Proof.
  apply (copy_tree_merges posix_env _ _ (World merge_fs [])).
  - by vm_compute.
  - by apply (bool_decide_unpack _); vm_compute.
  - by vm_compute.
  - by apply (bool_decide_unpack _); vm_compute.
  - by apply (bool_decide_unpack _); vm_compute.
  - by vm_compute.
  - by vm_compute.
  - apply injective_projections; [vm_compute|]; reflexivity.
Defined.

(** ** The directory linker *)

Lemma locate_chain_app (h : nat) (fs : fsmap) (cur d rest : path) :
  dir_chain fs cur d → rest ≠ [] → locate h fs cur (d ++ rest) = locate h fs (cur ++ d) rest.
Proof.
  revert cur. induction d as [|c d IH]; intros cur Hd Hrest; [by rewrite app_nil_r|].
  destruct Hd as [Hc Hd].
  replace (cur ++ c :: d) with ((cur ++ [c]) ++ d) by (by rewrite <- app_assoc).
  rewrite <- (IH _ Hd Hrest). simpl.
  destruct (d ++ rest) eqn:Hdr; [by destruct d, rest|].
  destruct h; simpl; by rewrite Hc.
Qed.

Lemma locate_through_link (h : nat) (fs : fsmap) (d t r : path) :
  physical_dir fs (parent d) →
  fs !! d = Some (Symlink t) ∨ fs !! d = Some (Junction t) →
  d ≠ [] → r ≠ [] →
  locate (S h) fs [] (d ++ r) = locate h fs [] (t ++ r).
Proof.
  intros Hd Hl Hne Hr. destruct (exists_last Hne) as (d' & x & ->).
  rewrite parent_snoc in Hd. rewrite <- app_assoc, locate_chain_app by done.
  destruct r as [|y r]; [done|]. simpl. by destruct Hl as [-> | ->].
Qed.

Lemma dir_chain_intro (fs : fsmap) (cur rest : path) :
  (∀ k, 0 < k ≤ length rest → fs !! (cur ++ take k rest) = Some Dir) →
  dir_chain fs cur rest.
Proof.
  revert cur. induction rest as [|c rest IH]; intros cur H; simpl; [done|]. split.
  - apply (H 1). simpl. lia.
  - apply IH. intros k Hk. rewrite <- app_assoc. apply (H (S k)). simpl. lia.
Qed.

Lemma nothing_below_absent (fs : fsmap) (d r : path) :
  well_formed fs → node_at fs d = None → fs !! (d ++ r) = None.
Proof.
  intros Hwf Hd. destruct (fs !! (d ++ r)) as [n|] eqn:Hn; [|done]. exfalso.
  destruct (decide (r = [])) as [->|Hr].
  - rewrite app_nil_r in Hn. destruct d; simpl in *; congruence.
  - pose proof (well_formed_ancestor fs d r Hwf) as H. rewrite Hn in H.
    rewrite H in Hd; [done|by eexists|done].
Qed.

Lemma source_file_chain (fs : fsmap) (src r : path) (x : string) :
  well_formed fs → physical_dir fs src → is_Some (fs !! (src ++ r ++ [x])) →
  physical_dir fs (src ++ r).
Proof.
  intros Hwf Hs Hx. unfold physical_dir. rewrite dir_chain_app. split; [done|]. simpl.
  apply dir_chain_intro. intros k Hk.
  assert (node_at fs (src ++ take k r) = Some Dir) as Hd.
  { apply (well_formed_ancestor fs _ (drop k r ++ [x])); [done| |by destruct (drop k r)].
    by rewrite <- app_assoc, (app_assoc (take k r)), take_drop. }
  destruct (take k r) eqn:Ht; [|by rewrite node_at_middle in Hd].
  apply (f_equal length) in Ht. rewrite length_take in Ht. simpl in Ht. lia.
Qed.

Section Linker.
Variable E : env.

Lemma read_file_physical (fs : fsmap) (d : path) (x : string) (c : content) :
  physical_dir fs d → fs !! (d ++ [x]) = Some (File c) →
  read_file E fs (d ++ [x]) = Some c.
Proof. intros Hd Hx. unfold read_file. by rewrite (stat_physical E fs d x (File c)). Qed.

(** Reading below a link to a directory reads below the directory. *)
Lemma read_through_link (fs : fsmap) (dest src r : path) (c : content) (l : node) :
  l = Symlink src ∨ l = Junction src →
  0 < link_budget E → well_formed fs → physical_dir fs src →
  physical_dir fs (parent dest) → node_at fs dest = None →
  r ≠ [] → fs !! (src ++ r) = Some (File c) →
  read_file E (<[dest := l]> fs) (dest ++ r) = Some c.
Proof.
  intros Hl Hb Hwf Hs Hd Hnew Hr Hc.
  assert (dest ≠ []) as Hne by (by intros ->).
  assert (fs !! dest = None) as Hnew' by (by destruct dest).
  pose proof (grows_insert_new fs dest l Hnew') as Hg.
  destruct (exists_last Hr) as (r' & x & ->).
  assert (physical_dir (<[dest := l]> fs) (src ++ r')) as Hchain.
  { apply (physical_dir_grows fs); [done|].
    apply (source_file_chain fs src r' x); [done..|]. by rewrite Hc. }
  assert (<[dest := l]> fs !! ((src ++ r') ++ [x]) = Some (File c)) as Hc'.
  { rewrite <- app_assoc, lookup_insert_ne; [done|]. intros ->. congruence. }
  unfold read_file. rewrite (stat_plain E _ _ ((src ++ r') ++ [x]) (File c)); [done| |done..].
  unfold lstat. destruct (link_budget E) as [|h]; [lia|].
  rewrite (locate_through_link h _ dest src).
  - rewrite app_assoc, locate_chain by done. simpl. rewrite node_at_snoc. by rewrite Hc'.
  - by apply (physical_dir_grows fs).
  - rewrite lookup_insert_eq. destruct Hl as [-> | ->]; eauto.
  - done.
  - by destruct r'.
Qed.

Lemma os_symlink_effect (target dest : path) (w w1 : world) (r : exn + unit) :
  os_symlink E target dest w = (r, w1) →
  w_log w1 = w_log w ++ [Call_symlink target dest] ∧
  ((r = inr tt ∧ ∃ l, locate (link_budget E) (w_fs w) [] dest = inr l ∧
                      node_at (w_fs w) l = None ∧
                      w_fs w1 = <[l := Symlink target]> (w_fs w)) ∨
   (∃ e, r = inl e ∧ w_fs w1 = w_fs w ∧ is_OSError e = true ∧
         (symlink_privilege E = true →
          ∀ l, locate (link_budget E) (w_fs w) [] dest = inr l → is_Some (node_at (w_fs w) l)))).
Proof.
  unfold os_symlink, bind, log, gets, raise, set_fs. simpl.
  destruct (symlink_privilege E); simpl; [|intros [= <- <-]; naive_solver].
  destruct (locate _ _ _ _) as [e'|l] eqn:Hloc; simpl.
  - intros [= <- <-]. split; [done|]. right. exists e'.
    split_and!; eauto using locate_error_is_OSError. done.
  - destruct (node_at (w_fs w) l) eqn:Hl; simpl; intros [= <- <-]; (split; [done|]).
    + right. exists FileExistsError. split_and!; try done. intros _ l' [= <-]. eauto.
    + left. eauto.
Qed.

Lemma mklink_junction_effect (dest target : path) (w w1 : world) (r : exn + unit) :
  mklink_junction E dest target w = (r, w1) →
  w_log w1 = w_log w ++ [Call_mklink dest target] ∧
  ((r = inr tt ∧ os_nt E = true ∧
    ∃ l, locate (link_budget E) (w_fs w) [] dest = inr l ∧ node_at (w_fs w) l = None ∧
         w_fs w1 = <[l := Junction target]> (w_fs w)) ∨
   (∃ e, r = inl e ∧ w_fs w1 = w_fs w)).
Proof.
  unfold mklink_junction, bind, log, gets, raise, set_fs. simpl.
  destruct (os_nt E); simpl; [|intros [= <- <-]; naive_solver].
  destruct (junction_available E); simpl; [|intros [= <- <-]; naive_solver].
  destruct (locate _ _ _ _) as [e'|l] eqn:Hloc; simpl; [intros [= <- <-]; naive_solver|].
  destruct (node_at (w_fs w) l) eqn:Hl; simpl; intros [= <- <-]; (split; [done|]).
  - right. eauto.
  - left. split_and!; [done..|]. exists l. done.
Qed.

(** C6: given a source tree of real directories and files and a
    destination that does not exist yet, beside the source and in a real
    directory, a returning directory linker has tried [os.symlink], then
    [mklink /J], then [shutil.copytree], in that order and no further than
    the first that worked; the string it returns names that one; the
    source is as it was; and every file of the source can be read with
    its bytes at the same relative path below the destination. *)
Theorem linker_reaches_source (src dest : path) (w w' : world) (m : string) :
  well_formed (w_fs w) → physical_dir (w_fs w) src → link_free (w_fs w) src →
  physical_dir (w_fs w) (parent dest) → node_at (w_fs w) dest = None →
  under src dest = false → 0 < link_budget E →
  _try_create_dir_link E src dest w = (inr m, w') →
  (∀ r c, r ≠ [] → w_fs w !! (src ++ r) = Some (File c) →
          read_file E (w_fs w') (dest ++ r) = Some c) ∧
  (∀ q, under src q = true → w_fs w' !! q = w_fs w !! q) ∧
  ((m = "symlink" ∧ w_fs w' = <[dest := Symlink src]> (w_fs w) ∧
    w_log w' = w_log w ++ [Call_symlink src dest]) ∨
   (m = "junction" ∧ w_fs w' = <[dest := Junction src]> (w_fs w) ∧
    w_log w' = w_log w ++ [Call_symlink src dest; Call_mklink dest src]) ∨
   (m = "copied" ∧ node_at (w_fs w') dest = Some Dir ∧
    ∃ rs, files_under (w_fs w) src rs ∧
          w_log w' = w_log w ++ [Call_symlink src dest; Call_mklink dest src;
                                 Call_copytree src dest] ++ copy_events src dest rs)).
Proof.
  intros Hwf Hs Hlf Hd Hnew Hsd Hb Hrun.
  assert (dest ≠ []) as Hne by (by intros ->).
  assert (w_fs w !! dest = None) as Hnew' by (by destruct dest).
  assert (∀ q, under src q = true → dest ≠ q) as Hapart.
  { intros q Hq <-. congruence. }
  unfold _try_create_dir_link, bind at 1, gets at 1 in Hrun.
  assert (path_resolve E (w_fs w) src = src) as Hres
    by (unfold path_resolve; by rewrite stat_physical_dir).
  rewrite Hres in Hrun. unfold bind at 1, try at 1 in Hrun.
  assert (locate (link_budget E) (w_fs w) [] dest = inr dest) as Hloc
    by by apply locate_physical_parent.
  destruct (os_symlink E src dest w) as [r1 w1] eqn:Hsym.
  apply os_symlink_effect in Hsym
    as [Hlog1 [(-> & l & Hl & _ & Hfs1)|(e & -> & Hfs1 & Hos & _)]].
  { (* the symbolic link was made *)
    unfold ret in Hrun. rewrite Hloc in Hl. injection Hl as <-. simplify_eq.
    split_and!.
    - intros r c Hr Hc. rewrite Hfs1. apply (read_through_link _ dest src); auto.
    - intros q Hq. rewrite Hfs1. by rewrite lookup_insert_ne by auto.
    - left; done. }
  rewrite Hos in Hrun. simpl in Hrun.
  destruct (os_nt E) eqn:Hnt; simpl in Hrun; [|done].
  unfold bind at 1, try at 1 in Hrun.
  destruct (mklink_junction E dest src w1) as [r2 w2] eqn:Hjn.
  apply mklink_junction_effect in Hjn
    as [Hlog2 [(-> & _ & l & Hl & _ & Hfs2)|(e2 & -> & Hfs2)]].
  { (* the junction was made *)
    unfold ret in Hrun. rewrite Hfs1 in Hl, Hfs2. rewrite Hloc in Hl. injection Hl as <-.
    simplify_eq.
    split_and!; [|intros q Hq; rewrite Hfs2; by rewrite lookup_insert_ne by auto|
                 right; left; split_and!; [done..|]; by rewrite Hlog2, Hlog1, <- app_assoc].
    intros r c Hr Hc. rewrite Hfs2. apply (read_through_link _ dest src); auto. }
  (* the tree was copied *)
  apply bind_inr in Hrun as ([] & w3 & Hcp & Hret). unfold ret in Hret. simplify_eq.
  unfold shutil_copytree, bind, log in Hcp. simpl in Hcp.
  rewrite Hfs2, Hfs1, Hlog2, Hlog1 in Hcp.
  assert (under dest src = false) as Hds.
  { apply under_false. intros r ->.
    pose proof (physical_dir_node _ _ Hs) as Hn.
    destruct (decide (r = [])) as [->|Hr]; [rewrite app_nil_r in Hn; congruence|].
    rewrite (well_formed_ancestor _ dest r Hwf) in Hnew; [done| |done].
    destruct (dest ++ r) eqn:Heq; [by destruct dest|]. simpl in Hn. by rewrite Hn. }
  assert (merge_pre (w_fs w) src dest (w_fs w)) as HPre.
  { split_and!; [done..| |done]. apply map_Forall_lookup_2. intros k n Hk Hu.
    apply under_true in Hu as [r ->]. by rewrite nothing_below_absent in Hk. }
  match type of Hcp with
  | copytree_from _ _ _ _ ?w0 = _ =>
    pose proof (copytree_result E (w_fs w) src dest Hs Hlf Hwf Hsd Hds
                  (recursion_limit E) [] w0 w' HPre I) as Hres'
  end.
  rewrite !app_nil_r in Hres'. simpl in Hres'.
  destruct (Hres' Hcp)
    as ((_ & Hd' & Hlf' & Hsame) & (Hout & Hg & _) & Hfiles & Hdirs & rs & Hfu & Hlog).
  split_and!; [|done|].
  - intros r c Hr Hc. destruct (exists_last Hr) as (r' & x & ->).
    rewrite app_assoc. apply read_file_physical.
    + unfold physical_dir. rewrite dir_chain_app.
      pose proof (source_file_chain _ src r' x Hwf Hs) as Hch. rewrite Hc in Hch.
      specialize (Hch (mk_is_Some _ _ eq_refl)).
      assert (∀ k, node_at (w_fs w') (dest ++ take k r') = Some Dir) as Hk.
      { intros k. apply Hdirs. apply physical_dir_node.
        rewrite <- (take_drop k r'), app_assoc in Hch.
        unfold physical_dir in Hch. rewrite dir_chain_app in Hch. tauto. }
      destruct (exists_last Hne) as (d' & y & ->). rewrite parent_snoc in Hd'.
      split.
      * unfold physical_dir in Hd'. rewrite dir_chain_app. split; [done|]. simpl.
        split; [|done]. specialize (Hk 0). simpl in Hk.
        by rewrite app_nil_r, node_at_snoc in Hk.
      * simpl. apply dir_chain_intro. intros k Hkr. specialize (Hk k).
        destruct (take k r') eqn:Ht; [|by rewrite node_at_middle in Hk].
        apply (f_equal length) in Ht. rewrite length_take in Ht. simpl in Ht. lia.
    + rewrite <- app_assoc. apply Hfiles; [done..|]. by rewrite nothing_below_absent.
  - right; right. split_and!; [done| |].
    { specialize (Hdirs []). rewrite !app_nil_r in Hdirs. by apply Hdirs, physical_dir_node. }
    exists rs. split; [done|]. rewrite Hlog. simpl. by rewrite <- !app_assoc.
Qed.
End Linker.

Lemma linker_reaches_source_witness :
  let E := locked_windows_env in
  let src := ["game"; "loader"; "output"; "data"] in
  let dest := ["game"; "data"] in
  let w' := (_try_create_dir_link E src dest (World built_fs [])).2 in
  (∀ r c, r ≠ [] → built_fs !! (src ++ r) = Some (File c) →
          read_file E (w_fs w') (dest ++ r) = Some c) ∧
  (∀ q, under src q = true → w_fs w' !! q = built_fs !! q) ∧
  (("copied" = "symlink" ∧ w_fs w' = <[dest := Symlink src]> built_fs ∧
    w_log w' = [] ++ [Call_symlink src dest]) ∨
   ("copied" = "junction" ∧ w_fs w' = <[dest := Junction src]> built_fs ∧
    w_log w' = [] ++ [Call_symlink src dest; Call_mklink dest src]) ∨
   ("copied" = "copied" ∧ node_at (w_fs w') dest = Some Dir ∧
    ∃ rs, files_under built_fs src rs ∧
          w_log w' = [] ++ [Call_symlink src dest; Call_mklink dest src;
                            Call_copytree src dest] ++ copy_events src dest rs)).
Proof.
  intros E src dest w'.
  apply (linker_reaches_source E src dest (World built_fs []) w' "copied").
  - by apply (bool_decide_unpack _); vm_compute.
  - by vm_compute.
  - by apply (bool_decide_unpack _); vm_compute.
  - by vm_compute.
  - by vm_compute.
  - by vm_compute.
  - vm_compute. lia.
  - apply injective_projections; [vm_compute|]; reflexivity.
Defined.

(** ** The deployer *)

(** *** Real file systems stay real *)

#[global] Instance stays_sound_preorder (E : env) : PreOrder (stays_sound E).
Proof. split; [intros fs H; exact H|]. intros fs1 fs2 fs3 H12 H23 H. exact (H23 (H12 H)). Qed.

#[global] Instance confined_preorder (dst : path) : PreOrder (confined dst).
Proof. unfold confined. apply _. Qed.

Lemma node_at_insert_ne (fs : fsmap) (l p : path) (n : node) :
  p ≠ l → node_at (<[l := n]> fs) p = node_at fs p.
Proof. intros Hne. destruct p; [done|]. simpl. by rewrite lookup_insert_ne. Qed.

Lemma node_at_delete_ne (fs : fsmap) (l p : path) :
  p ≠ l → node_at (delete l fs) p = node_at fs p.
Proof. intros Hne. destruct p; [done|]. simpl. by rewrite lookup_delete_ne. Qed.

Lemma parent_ne (l : path) : l ≠ [] → parent l ≠ l.
Proof.
  intros Hne Heq. destruct (exists_last Hne) as (d & x & ->). rewrite parent_snoc in Heq.
  apply (f_equal length) in Heq. rewrite length_app in Heq. simpl in Heq. lia.
Qed.

Lemma well_formed_insert (fs : fsmap) (l : path) (n : node) :
  well_formed fs → node_at fs l ≠ Some Dir → node_at fs (parent l) = Some Dir →
  well_formed (<[l := n]> fs).
Proof.
  intros Hwf Hl Hp. assert (l ≠ []) as Hne by (by intros ->).
  apply map_Forall_lookup_2. intros k m Hk. simpl.
  destruct (decide (k = l)) as [->|Hkl].
  - by rewrite node_at_insert_ne by (by apply parent_ne).
  - rewrite lookup_insert_ne in Hk by done.
    pose proof (map_Forall_lookup_1 _ _ _ _ Hwf Hk) as Hpk. simpl in Hpk.
    rewrite node_at_insert_ne; [done|]. intros Heq. by rewrite Heq in Hpk.
Qed.

Lemma well_formed_delete (fs : fsmap) (l : path) :
  well_formed fs → (∀ x, fs !! (l ++ [x]) = None) → well_formed (delete l fs).
Proof.
  intros Hwf Hch. apply map_Forall_lookup_2. intros k m Hk. simpl.
  apply lookup_delete_Some in Hk as [Hkl Hk].
  pose proof (map_Forall_lookup_1 _ _ _ _ Hwf Hk) as Hpk. simpl in Hpk.
  destruct (decide (k = [])) as [->|Hne]; [done|].
  rewrite node_at_delete_ne; [done|]. intros Heq.
  destruct (exists_last Hne) as (d & x & ->). rewrite parent_snoc in Heq. subst d.
  by rewrite Hch in Hk.
Qed.

Lemma well_formed_rmtree (fs : fsmap) (l : path) :
  well_formed fs → well_formed (filter (λ kv : path * node, under l kv.1 = false) fs).
Proof.
  intros Hwf. apply map_Forall_lookup_2. intros k m Hk. simpl.
  rewrite lookup_rmtree in Hk. destruct (under l k) eqn:Hu; [done|].
  pose proof (map_Forall_lookup_1 _ _ _ _ Hwf Hk) as Hpk. simpl in Hpk.
  destruct (decide (k = [])) as [->|Hne]; [done|].
  destruct (exists_last Hne) as (d & x & ->). rewrite parent_snoc in *.
  destruct d as [|c d]; [done|]. simpl in *. rewrite lookup_rmtree.
  destruct (under l (c :: d)) eqn:Hu'; [|done].
  assert (under l ((c :: d) ++ [x]) = true) as Hu2.
  { apply (under_trans l (c :: d)); [done|]. apply under_true. eauto. }
  simpl in Hu2. congruence.
Qed.

Lemma lstat_node (E : env) (fs : fsmap) (p l : path) (n : node) :
  lstat E fs p = inr (l, n) → node_at fs l = Some n.
Proof.
  unfold lstat. destruct (locate _ _ _ _) as [|l']; [done|].
  destruct (node_at fs l') eqn:H; [|done]. by intros [= <- <-].
Qed.

Lemma sound_insert (E : env) (fs : fsmap) (l : path) (n : node) :
  is_junction n = false ∨ os_nt E = true →
  node_at fs l ≠ Some Dir → node_at fs (parent l) = Some Dir →
  stays_sound E fs (<[l := n]> fs).
Proof.
  intros Hn Hl Hp [Hwf Hpl]. split; [by apply well_formed_insert|].
  intros Hnt. apply map_Forall_insert_2; [|by apply Hpl]. destruct Hn; congruence.
Qed.

Lemma sound_create (E : env) (fs : fsmap) (l : path) (n : node) :
  node_at fs l = None → node_at fs (parent l) = Some Dir → is_link n = false →
  stays_sound E fs (<[l := n]> fs).
Proof.
  intros Hl Hp Hn. apply sound_insert; [left; by destruct n|congruence|done].
Qed.

Lemma sound_overwrite (E : env) (fs : fsmap) (l : path) (c c' : content) :
  node_at fs l = Some (File c) → stays_sound E fs (<[l := File c']> fs).
Proof.
  intros Hl Hs. apply sound_insert; [by left|congruence| |done].
  destruct l as [|x l]; [done|]. destruct Hs as [Hwf _].
  apply (map_Forall_lookup_1 _ _ _ _ Hwf Hl).
Qed.

Lemma remove_keeps_sound (E : env) (p : path) :
  keeps (stays_sound E) (_remove_existing_path E p).
Proof.
  intros w [Hwf Hpl]. destruct (remove_shape E p w) as [_ [->|(l & n & Hl & H)]]; [done|].
  apply lstat_node in Hl. destruct H as [[-> Hleaf]| ->].
  - split.
    + apply well_formed_delete; [done|]. intros x.
      destruct (w_fs w !! (l ++ [x])) as [m|] eqn:Hx; [|done]. exfalso.
      destruct Hleaf as [Hn|Hempty].
      * pose proof (map_Forall_lookup_1 _ _ _ _ Hwf Hx) as Hp. simpl in Hp.
        rewrite parent_snoc in Hp. congruence.
      * assert (x ∈ listdir (w_fs w) l) as Hin by (apply elem_of_listdir; eauto).
        rewrite Hempty in Hin. by apply elem_of_nil in Hin.
    + intros Hnt. by apply map_Forall_delete, Hpl.
  - split; [by apply well_formed_rmtree|]. intros Hnt.
    apply map_Forall_lookup_2. intros k m Hk. rewrite lookup_rmtree in Hk.
    destruct (under l k); [done|]. by apply (map_Forall_lookup_1 _ _ _ _ (Hpl Hnt) Hk).
Qed.

Lemma os_symlink_keeps_sound (E : env) (target dest : path) :
  keeps (stays_sound E) (os_symlink E target dest).
Proof.
  intros w. destruct (os_symlink E target dest w) as [r w1] eqn:Hrun.
  simpl.
  apply os_symlink_effect in Hrun as [_ [(_ & l & Hl & Hn & ->)|(e & _ & -> & _)]];
    [|reflexivity].
  apply sound_insert; [by left|congruence|]. by apply (os_mkdir_target E _ dest).
Qed.

Lemma mklink_junction_keeps_sound (E : env) (dest target : path) :
  keeps (stays_sound E) (mklink_junction E dest target).
Proof.
  intros w. destruct (mklink_junction E dest target w) as [r w1] eqn:Hrun.
  simpl.
  apply mklink_junction_effect in Hrun as [_ [(_ & Hnt & l & Hl & Hn & ->)|(e & _ & ->)]];
    [|reflexivity].
  apply sound_insert; [by right|congruence|]. by apply (os_mkdir_target E _ dest).
Qed.

Lemma copy2_keeps_sound (E : env) (src dst : path) :
  keeps (stays_sound E) (shutil_copy2 E src dst).
Proof. apply copy2_additive; [apply _|apply sound_create|apply sound_overwrite]. Qed.

Lemma linker_keeps_sound (E : env) (src dest : path) :
  keeps (stays_sound E) (_try_create_dir_link E src dest).
Proof.
  unfold _try_create_dir_link.
  apply keeps_bind; [apply _|apply keeps_gets, _|]. intros src'.
  apply keeps_bind; [apply _|apply keeps_try, os_symlink_keeps_sound|].
  intros [e|[]]; [|apply keeps_ret, _].
  destruct (negb (is_OSError e)); [apply keeps_raise, _|].
  destruct (negb (os_nt E)); [apply keeps_raise, _|].
  apply keeps_bind; [apply _|apply keeps_try, mklink_junction_keeps_sound|].
  intros [e'|[]]; [|apply keeps_ret, _].
  apply keeps_bind; [apply _| |intros _; apply keeps_ret, _].
  apply shutil_copytree_additive; [apply _|apply sound_create|apply sound_overwrite].
Qed.

(** *** Writes that stay below their destination *)

Section Confined.
Variables (E : env) (dst : path).

Lemma confined_insert (fs : fsmap) (l : path) (n : node) :
  under dst l = true → is_link n = false → confined dst fs (<[l := n]> fs).
Proof.
  intros Hu Hn [Hd Hlf]. split_and!.
  - revert Hd. apply dir_chain_ext. intros k Hk. simpl.
    apply lookup_insert_ne. intros ->. apply under_true in Hu as [r Hr].
    destruct (decide (dst = [])) as [->|Hne]; [simpl in Hk; lia|].
    destruct (exists_last Hne) as (d & x & ->). rewrite parent_snoc in *.
    apply (f_equal length) in Hr. rewrite length_take, !length_app in Hr. simpl in Hr. lia.
  - by apply map_Forall_insert_2.
  - intros q Hq. apply lookup_insert_ne. intros ->. congruence.
Qed.

Lemma os_mkdir_confined (p : path) :
  under dst p = true → keeps (confined dst) (os_mkdir E p).
Proof.
  intros Hu w. destruct (os_mkdir_effect E p w) as [(l & Hloc & Hl & ->)|(e & -> & _)];
    [|reflexivity].
  simpl. intros [Hd Hlf]. apply under_true in Hu as [r ->].
  apply locate_plain_path in Hloc as [-> _]; [|by apply plain_path_region].
  apply confined_insert; [apply under_true; eauto|done|done].
Qed.

Lemma write_file_confined (p : path) (data : content) :
  under dst p = true → keeps (confined dst) (write_file E p data).
Proof.
  intros Hu w. destruct (write_file_effect E p data w) as [(l & Hl & ->)|(e & ->)];
    [|reflexivity].
  simpl. intros [Hd Hlf]. apply under_true in Hu as [r ->].
  apply open_wb_plain_path in Hl as [-> _];
    [|by apply plain_path_region|by apply no_link_at_region].
  apply confined_insert; [apply under_true; eauto|done|done].
Qed.

Lemma copy2_confined (src p : path) :
  under dst p = true → keeps (confined dst) (shutil_copy2 E src p).
Proof.
  intros Hu w. destruct (copy2_effect E src p w)
    as [(data & l & ls & p' & Hp' & _ & _ & Hl & ->)|[e ->]]; [|reflexivity].
  simpl. intros [Hd Hlf].
  assert (under dst p' = true) as Hu'.
  { destruct Hp' as [[-> _]|[-> _]]; [done|].
    apply (under_trans _ p); [done|]. apply under_true; eauto. }
  apply under_true in Hu' as [r ->].
  apply open_wb_plain_path in Hl as [-> _];
    [|by apply plain_path_region|by apply no_link_at_region].
  apply confined_insert; [apply under_true; eauto|done|done].
Qed.

Lemma os_makedirs_from_confined (n : nat) (exist_ok : bool) (name : path) :
  under dst name = true → keeps (confined dst) (os_makedirs_from E n exist_ok name).
Proof.
  revert name. induction n as [|n IH]; intros name Hu; rewrite os_makedirs_from_eq;
    (apply keeps_bind; [apply _| |intros _;
       apply keeps_bind; [apply _|by apply keeps_try, os_mkdir_confined|];
       intros [e|[]]; [apply (mkdir_handler_additive E _ exist_ok name e)|apply keeps_ret, _]]).
  - apply keeps_bind; [apply _|apply keeps_gets, _|]. intros ex.
    destruct (_ && _); apply keeps_ret, _.
  - intros w. unfold bind, gets. simpl.
    destruct (bool_decide (name ≠ []) && negb _) eqn:Hc; [|reflexivity].
    apply andb_true_iff in Hc as [Hne Hex]. apply negb_true_iff in Hex.
    apply bool_decide_eq_true in Hne. intros HPre.
    destruct (decide (name = dst)) as [->|Hnd].
    { destruct HPre as [Hd _]. by rewrite path_exists_physical_dir in Hex. }
    assert (under dst (parent name) = true) as Hpu.
    { apply under_true in Hu as [r ->]. destruct (decide (r = [])) as [->|Hr].
      - by rewrite app_nil_r in Hnd.
      - destruct (exists_last Hr) as (r' & x & ->).
        rewrite app_assoc, parent_snoc. apply under_true. eauto. }
    pose proof (IH (parent name) Hpu w HPre) as Hk. unfold try.
    destruct (os_makedirs_from E n exist_ok (parent name) w) as [[e|[]] w1]; simpl in *;
      [by destruct e|done].
Qed.

Lemma copytree_from_confined (depth : nat) (src p : path) :
  under dst p = true → keeps (confined dst) (copytree_from E depth src p).
Proof.
  revert src p. induction depth as [|depth IH]; intros src p Hu; simpl;
    [apply keeps_raise, _|].
  apply keeps_bind; [apply _|apply keeps_gets, _|]. intros entries.
  apply keeps_bind; [apply _|apply keeps_lift, _|]. intros names.
  apply keeps_bind; [apply _|by apply os_makedirs_from_confined|]. intros _.
  apply keeps_bind; [apply _| |intros []; [apply keeps_raise, _|apply keeps_ret, _]].
  apply keeps_fold_m; [apply _|]. intros errors name _.
  assert (under dst (p ++ [name]) = true) as Hu'.
  { apply (under_trans _ p); [done|]. apply under_true; eauto. }
  apply keeps_bind; [apply _|apply keeps_gets, _|]. intros isd.
  apply keeps_bind; [apply _| |].
  - apply keeps_try. destruct isd; [by apply IH|by apply copy2_confined].
  - intros [e|[]]; [|apply keeps_ret, _].
    destruct (is_OSError e); [apply keeps_ret, _|apply keeps_raise, _].
Qed.

Lemma shutil_copytree_confined (src p : path) :
  under dst p = true → keeps (confined dst) (shutil_copytree E src p).
Proof.
  intros Hu. unfold shutil_copytree. apply keeps_bind; [apply _|apply keeps_log, _|].
  intros _. by apply copytree_from_confined.
Qed.
End Confined.

(** *** What the safe remover leaves at its path *)

Lemma absent_link_free (fs : fsmap) (d : path) :
  well_formed fs → node_at fs d = None → link_free fs d.
Proof.
  intros Hwf Hd. apply map_Forall_lookup_2. intros k n Hk Hu.
  apply under_true in Hu as [r ->]. by rewrite nothing_below_absent in Hk.
Qed.

Lemma remove_result (E : env) (d : path) (name : string) (w w' : world) :
  physical_dir (w_fs w) d → platform_ok E (w_fs w) →
  _remove_existing_path E (d ++ [name]) w = (inr tt, w') →
  node_at (w_fs w') (d ++ [name]) = None.
Proof.
  intros Hd Hpl. rewrite node_at_snoc.
  pose proof (lstat_physical E _ d name Hd) as Hlst.
  destruct (w_fs w !! (d ++ [name])) as [n|] eqn:Hn.
  - assert (path_is_symlink E (w_fs w) (d ++ [name])
            = match n with Symlink _ => true | _ => false end) as Hlnk
      by (unfold path_is_symlink; rewrite Hlst; by destruct n).
    assert (_is_windows_reparse_point E (w_fs w) (d ++ [name]) = os_nt E && is_link n) as Hrp
      by (unfold _is_windows_reparse_point; rewrite Hlst; by destruct (os_nt E), n).
    assert (is_link n = false →
            path_exists E (w_fs w) (d ++ [name]) = true ∧
            path_is_dir E (w_fs w) (d ++ [name]) = bool_decide (n = Dir)) as Hreal.
    { intros Hnl. unfold path_exists, path_is_dir.
      rewrite (stat_physical E _ d name n) by done. by destruct n. }
    assert (os_nt E = false → is_junction n = false) as Hjn.
    { intros Hnt. apply (map_Forall_lookup_1 _ _ _ _ (Hpl Hnt) Hn). }
    destruct (path_exists E (w_fs w) (d ++ [name])) eqn:Hex,
      (path_is_dir E (w_fs w) (d ++ [name])) eqn:Hisd, (os_nt E) eqn:Hnt, n as [c| |t|t];
      simpl in Hlnk, Hrp; try (by destruct Hreal); try (by discriminate Hjn);
      unfold _remove_existing_path, os_unlink, os_rmdir, shutil_rmtree,
        bind, gets, ret, raise, set_fs; simpl;
      repeat (progress (rewrite ?Hex, ?Hlnk, ?Hrp, ?Hisd, ?Hlst, ?Hnt; simpl));
      intros [= <-]; simpl;
      first [apply lookup_delete_eq|by rewrite lookup_rmtree, under_refl].
  - assert (path_exists E (w_fs w) (d ++ [name]) = false) as Hex
      by (unfold path_exists; by rewrite (stat_absent E _ _ FileNotFoundError)).
    assert (path_is_symlink E (w_fs w) (d ++ [name]) = false) as Hlnk
      by (unfold path_is_symlink; by rewrite Hlst).
    assert (_is_windows_reparse_point E (w_fs w) (d ++ [name]) = false) as Hrp
      by (unfold _is_windows_reparse_point; rewrite Hlst; by destruct (os_nt E)).
    unfold _remove_existing_path, bind, gets, ret. simpl. rewrite Hex, Hlnk, Hrp. simpl.
    by intros [= <-].
Qed.

(** *** One entry of output/, then all of them *)

Lemma bind_ret_world {A B : Type} (m : M A) (b : B) (w : world) :
  (bind m (λ _, ret b) w).2 = (m w).2.
Proof. unfold bind. by destruct (m w) as [[e|a] w1]. Qed.

Section Deployer.
Variable E : env.

Lemma linker_confined (src dest : path) (w : world) :
  physical_dir (w_fs w) (parent dest) → well_formed (w_fs w) →
  node_at (w_fs w) dest = None →
  same_outside (λ q, under dest q = true)
    (w_fs w) (w_fs (_try_create_dir_link E src dest w).2).
Proof.
  intros Hd Hwf Hnew.
  assert (locate (link_budget E) (w_fs w) [] dest = inr dest) as Hloc
    by by apply locate_physical_parent.
  assert (∀ n, same_outside (λ q, under dest q = true) (w_fs w) (<[dest := n]> (w_fs w)))
    as Hins.
  { intros n q Hq. apply lookup_insert_ne. intros ->. by rewrite under_refl in Hq. }
  unfold _try_create_dir_link, bind at 1, gets at 1. simpl.
  set (src' := path_resolve E (w_fs w) src).
  unfold bind at 1, try at 1.
  destruct (os_symlink E src' dest w) as [r1 w1] eqn:Hsym.
  apply os_symlink_effect in Hsym as [_ [(-> & l & Hl & _ & Hfs1)|(e & -> & Hfs1 & _)]].
  { rewrite Hloc in Hl. injection Hl as <-. simpl. rewrite Hfs1. apply Hins. }
  destruct (negb (is_OSError e)); simpl; [rewrite Hfs1; reflexivity|].
  destruct (negb (os_nt E)); simpl; [rewrite Hfs1; reflexivity|].
  unfold bind at 1, try at 1.
  destruct (mklink_junction E dest src' w1) as [r2 w2] eqn:Hjn.
  apply mklink_junction_effect in Hjn as [_ [(-> & _ & l & Hl & _ & Hfs2)|(e2 & -> & Hfs2)]].
  { rewrite Hfs1, Hloc in Hl. injection Hl as <-. simpl. rewrite Hfs2, Hfs1. apply Hins. }
  rewrite bind_ret_world. rewrite <- Hfs1, <- Hfs2.
  apply (shutil_copytree_confined E dest src' dest (under_refl dest) w2).
  rewrite Hfs2, Hfs1. split; [done|by apply absent_link_free].
Qed.

Lemma deploy_step (names : list string) (name : string) (fs fs1 fs2 : fsmap) :
  name ∈ names → deployable E fs1 →
  same_outside (entries_region (game_dir E) names) fs fs1 →
  same_outside (λ q, under (game_dir E ++ [name]) q = true) fs1 fs2 →
  stays_sound E fs1 fs2 →
  deployable E fs2 ∧ same_outside (entries_region (game_dir E) names) fs fs2.
Proof.
  intros Hin [Hg Hs] Hout1 Hout Hss.
  assert (same_outside (entries_region (game_dir E) names) fs1 fs2) as Hout2.
  { eapply same_outside_mono; [|done]. intros q Hq. by exists name. }
  split; [|by etrans]. split; [by apply (physical_dir_outside fs1 _ _ names)|by apply Hss].
Qed.

Lemma deploy_item_keeps_frame (names : list string) (name : string) :
  name ∈ names →
  keeps (frame (deployable E) (entries_region (game_dir E) names))
    (_remove_existing_path E (game_dir E ++ [name]) ;;
     let* isd := gets (λ fs, path_is_dir E fs (output_dir E ++ [name])) in
     if isd then
       let* method := _try_create_dir_link E (output_dir E ++ [name]) (game_dir E ++ [name]) in
       ret tt
     else shutil_copy2 E (output_dir E ++ [name]) (game_dir E ++ [name])).
Proof.
  intros Hin w HPre.
  set (dest := game_dir E ++ [name]). set (item := output_dir E ++ [name]).
  pose proof HPre as [Hg [Hwf Hpl]].
  destruct (remove_keeps_frame E (game_dir E) names name Hin w Hg) as [Hg1 Hout1].
  pose proof (remove_keeps_sound E dest w (conj Hwf Hpl)) as Hs1.
  match goal with |- _ ∧ same_outside _ _ ?x => remember x as fs2 eqn:Hfs2 end.
  unfold bind at 1 in Hfs2. fold dest in Hg1, Hout1.
  destruct (_remove_existing_path E dest w) as [[e|[]] w1] eqn:Hrm;
    simpl in Hg1, Hout1, Hs1, Hfs2.
  { subst fs2. by split. }
  pose proof (remove_result E _ _ _ _ Hg Hpl Hrm) as Hnew. fold dest in Hnew.
  destruct Hs1 as [Hwf1 Hpl1].
  unfold bind at 1, gets at 1 in Hfs2. simpl in Hfs2.
  destruct (path_is_dir E (w_fs w1) item); subst fs2.
  - rewrite bind_ret_world.
    apply (deploy_step names name _ (w_fs w1)); [done|by split|done| |].
    + apply linker_confined; [by unfold dest; rewrite parent_snoc|done..].
    + apply linker_keeps_sound.
  - apply (deploy_step names name _ (w_fs w1)); [done|by split|done| |].
    + apply (copy2_confined E dest item dest (under_refl dest) w1).
      split; [by unfold dest; rewrite parent_snoc|by apply absent_link_free].
    + apply copy2_keeps_sound.
Qed.

Lemma deploy_keeps_frame (w : world) :
  frame (deployable E) (entries_region (game_dir E) (output_entries E (w_fs w)))
    (w_fs w) (w_fs (symlink_to_game E w).2).
Proof.
  unfold symlink_to_game, output_entries. unfold bind at 1.
  unfold path_iterdir, bind at 1, gets at 1. simpl.
  destruct (scandir E (w_fs w) (output_dir E)) as [e|names]; simpl; [reflexivity|].
  apply (keeps_for_each (frame (deployable E) (entries_region (game_dir E) names))).
  intros item Hitem. apply list_elem_of_fmap in Hitem as (name & -> & Hin).
  rewrite basename_snoc. by apply deploy_item_keeps_frame.
Qed.

(** C1, amended: in a real file system whose game folder is a real
    directory, a deploy run changes nothing but what sits at or below
    [game_dir/<name>] for the names of the top-level entries that
    output/ has when the run starts, whatever those names are; an
    undeploy run changes nothing but what sits at or below
    [game_dir/<name>] for the six managed names.  Every other stored
    path keeps its node and the game folder stays a real directory,
    whether the run ends well or raises. *)
Theorem deploy_touches_only_output_entries (w : world) :
  physical_dir (w_fs w) (game_dir E) → well_formed (w_fs w) → platform_ok E (w_fs w) →
  let deployed := w_fs (symlink_to_game E w).2 in
  let undeployed := w_fs (undeploy_from_game E w).2 in
  (∀ q, (∀ name rest, name ∈ output_entries E (w_fs w) → q ≠ game_dir E ++ name :: rest) →
        deployed !! q = w_fs w !! q) ∧
  (∀ q, (∀ name rest, name ∈ MANAGED_TOP_FOLDERS → q ≠ game_dir E ++ name :: rest) →
        undeployed !! q = w_fs w !! q) ∧
  physical_dir deployed (game_dir E) ∧ physical_dir undeployed (game_dir E).
Proof.
  intros Hg Hwf Hpl deployed undeployed.
  destruct (deploy_keeps_frame w (conj Hg (conj Hwf Hpl))) as [[Hg1 _] Hout1].
  destruct (undeploy_keeps_frame E w Hg) as [Hg2 Hout2].
  assert (∀ names q, (∀ name rest, name ∈ names → q ≠ game_dir E ++ name :: rest) →
                     ¬ entries_region (game_dir E) names q) as Hregion.
  { intros names q Hq (name & Hin & Hu). apply under_true in Hu as [rest ->].
    apply (Hq name rest Hin). by rewrite <- app_assoc. }
  split_and!; [|  |done..].
  - intros q Hq. apply Hout1. by apply Hregion.
  - intros q Hq. apply Hout2. by apply Hregion.
Qed.
End Deployer.

(** The claim C1 as it is worded does not hold of the deployer: output/
    holds the folder [saves], which is not a managed name, and the deploy
    run removes the game's own [saves] folder with the save in it and
    puts a link to [output/saves] in its place. *)
Lemma deploy_replaces_unmanaged_entry :
  let deployed := w_fs (symlink_to_game posix_env (World saves_built_fs [])).2 in
  ("saves" ∉ MANAGED_TOP_FOLDERS) ∧
  saves_built_fs !! ["game"; "saves"] = Some Dir ∧
  saves_built_fs !! ["game"; "saves"; "slot1"] = Some (File (bytes "save")) ∧
  deployed !! ["game"; "saves"] = Some (Symlink ["game"; "loader"; "output"; "saves"]) ∧
  deployed !! ["game"; "saves"; "slot1"] = None.
Proof. split; [by apply (bool_decide_unpack _); vm_compute|by vm_compute]. Qed.

Lemma deploy_touches_only_output_entries_witness :
  let w := World saves_built_fs [] in
  let deployed := w_fs (symlink_to_game posix_env w).2 in
  let undeployed := w_fs (undeploy_from_game posix_env w).2 in
  (∀ q, (∀ name rest, name ∈ output_entries posix_env saves_built_fs →
                      q ≠ game_dir posix_env ++ name :: rest) →
        deployed !! q = saves_built_fs !! q) ∧
  (∀ q, (∀ name rest, name ∈ MANAGED_TOP_FOLDERS → q ≠ game_dir posix_env ++ name :: rest) →
        undeployed !! q = saves_built_fs !! q) ∧
  physical_dir deployed (game_dir posix_env) ∧ physical_dir undeployed (game_dir posix_env).
Proof.
  apply (deploy_touches_only_output_entries posix_env (World saves_built_fs [])).
  - by vm_compute.
  - by apply (bool_decide_unpack _); vm_compute.
  - intros _. by apply (bool_decide_unpack _); vm_compute.
Defined.

(** * Further properties of the script *)

(** ** The safe remover on what is really there *)

Section Remover_total.
Variable E : env.

(** What the tests of the safe remover answer for a path in a real
    directory, from the node stored there. *)
Lemma remover_queries (fs : fsmap) (d : path) (name : string) (n : node) :
  physical_dir fs d → fs !! (d ++ [name]) = Some n →
  lstat E fs (d ++ [name]) = inr (d ++ [name], n) ∧
  path_is_symlink E fs (d ++ [name]) = match n with Symlink _ => true | _ => false end ∧
  _is_windows_reparse_point E fs (d ++ [name]) = os_nt E && is_link n ∧
  (is_link n = false →
   path_exists E fs (d ++ [name]) = true ∧
   path_is_dir E fs (d ++ [name]) = bool_decide (n = Dir)).
Proof.
  intros Hd Hn. pose proof (lstat_physical E _ d name Hd) as Hlst. rewrite Hn in Hlst.
  split_and!; [done| | |].
  - unfold path_is_symlink. rewrite Hlst. by destruct n.
  - unfold _is_windows_reparse_point. rewrite Hlst. by destruct (os_nt E), n.
  - intros Hnl. unfold path_exists, path_is_dir.
    rewrite (stat_physical E _ d name n) by done. by destruct n.
Qed.

(** On a regular file in a real directory the safe remover deletes that
    file and nothing else, returns, and calls none of the logged
    operations. *)
Theorem remove_regular_file (d : path) (name : string) (c : content) (w : world) :
  physical_dir (w_fs w) d → w_fs w !! (d ++ [name]) = Some (File c) →
  _remove_existing_path E (d ++ [name]) w
  = (inr tt, World (delete (d ++ [name]) (w_fs w)) (w_log w)).
Proof.
  intros Hd Hn. destruct (remover_queries _ d name _ Hd Hn) as (Hlst & Hlnk & Hrp & Hreal).
  destruct (Hreal eq_refl) as [Hex Hisd]. simpl in Hrp, Hisd.
  rewrite andb_false_r in Hrp.
  unfold _remove_existing_path, os_unlink, bind, gets, ret, raise, set_fs. simpl.
  rewrite Hex, Hlnk, Hrp. simpl. rewrite Hlnk. simpl. rewrite Hisd. simpl. by rewrite Hlst.
Qed.

(** On a real directory in a real directory the safe remover deletes the
    directory with all that is stored below it, and nothing else. *)
Theorem remove_regular_dir (d : path) (name : string) (w : world) :
  physical_dir (w_fs w) d → w_fs w !! (d ++ [name]) = Some Dir →
  _remove_existing_path E (d ++ [name]) w
  = (inr tt, World (filter (λ kv : path * node, under (d ++ [name]) kv.1 = false) (w_fs w))
                   (w_log w)).
Proof.
  intros Hd Hn. destruct (remover_queries _ d name _ Hd Hn) as (Hlst & Hlnk & Hrp & Hreal).
  destruct (Hreal eq_refl) as [Hex Hisd]. simpl in Hrp, Hisd.
  rewrite andb_false_r in Hrp.
  unfold _remove_existing_path, shutil_rmtree, bind, gets, ret, raise, set_fs. simpl.
  rewrite Hex, Hlnk, Hrp. simpl. rewrite Hlnk. simpl. rewrite Hisd. simpl.
  rewrite Hrp. simpl. by rewrite Hlst.
Qed.

Lemma remove_returns (d : path) (name : string) (w : world) :
  physical_dir (w_fs w) d → platform_ok E (w_fs w) →
  (_remove_existing_path E (d ++ [name]) w).1 = inr tt.
Proof.
  intros Hd Hpl.
  destruct (w_fs w !! (d ++ [name])) as [n|] eqn:Hn.
  - destruct (remover_queries _ d name _ Hd Hn) as (Hlst & Hlnk & Hrp & Hreal).
    assert (os_nt E = false → is_junction n = false) as Hjn.
    { intros Hnt. apply (map_Forall_lookup_1 _ _ _ _ (Hpl Hnt) Hn). }
    destruct (path_exists E (w_fs w) (d ++ [name])) eqn:Hex,
      (path_is_dir E (w_fs w) (d ++ [name])) eqn:Hisd, (os_nt E) eqn:Hnt, n as [c| |t|t];
      simpl in Hlnk, Hrp; try (by destruct Hreal); try (by discriminate Hjn);
      unfold _remove_existing_path, os_unlink, os_rmdir, shutil_rmtree,
        bind, gets, ret, raise, set_fs; simpl;
      repeat (progress (rewrite ?Hex, ?Hlnk, ?Hrp, ?Hisd, ?Hlst, ?Hnt; simpl));
      reflexivity.
  - destruct (queries_of_absent E (w_fs w) (d ++ [name]) FileNotFoundError)
      as (Hex & Hlnk & Hrp); [by rewrite lstat_physical, Hn|].
    unfold _remove_existing_path, bind, gets, ret. simpl. by rewrite Hex, Hlnk, Hrp.
Qed.
End Remover_total.

(** In a real directory of a real file system the safe remover always
    returns, whatever sits at the path: afterwards nothing sits there,
    nothing was logged, and every path that is not at or below it is as
    before. *)
Theorem remove_returns_and_clears (E : env) (d : path) (name : string) (w : world) :
  physical_dir (w_fs w) d → platform_ok E (w_fs w) →
  ∃ w', _remove_existing_path E (d ++ [name]) w = (inr tt, w') ∧
        node_at (w_fs w') (d ++ [name]) = None ∧
        w_log w' = w_log w ∧
        ∀ q, under (d ++ [name]) q = false → w_fs w' !! q = w_fs w !! q.
Proof.
  intros Hd Hpl. pose proof (remove_returns E d name w Hd Hpl) as Hret.
  destruct (_remove_existing_path E (d ++ [name]) w) as [r w'] eqn:Hrun.
  simpl in Hret. subst r.
  exists w'. split_and!; [done|by apply (remove_result E d name w)| |].
  - destruct (remove_shape E (d ++ [name]) w) as [Hlog _]. by rewrite Hrun in Hlog.
  - intros q Hq. pose proof (remove_changes_under E d name w Hd q) as H.
    rewrite Hrun in H. apply H. congruence.
Qed.

Lemma remove_regular_file_witness :
  _remove_existing_path posix_env (["game"; "saves"] ++ ["slot1"]) (World deployed_fs [])
  = (inr tt, World (delete (["game"; "saves"] ++ ["slot1"]) deployed_fs) []).
Proof.
  apply (remove_regular_file posix_env ["game"; "saves"] "slot1" (bytes "save")
           (World deployed_fs [])); by vm_compute.
Defined.

Lemma remove_regular_dir_witness :
  _remove_existing_path posix_env (["game"] ++ ["saves"]) (World deployed_fs [])
  = (inr tt,
     World (filter (λ kv : path * node, under (["game"] ++ ["saves"]) kv.1 = false)
              deployed_fs) []).
Proof.
  apply (remove_regular_dir posix_env ["game"] "saves" (World deployed_fs [])); by vm_compute.
Defined.

Lemma remove_returns_and_clears_witness :
  ∃ w', _remove_existing_path windows_env (["game"] ++ ["data"]) (World stale_junction_fs [])
        = (inr tt, w') ∧
        node_at (w_fs w') (["game"] ++ ["data"]) = None ∧
        w_log w' = [] ∧
        ∀ q, under (["game"] ++ ["data"]) q = false → w_fs w' !! q = stale_junction_fs !! q.
Proof.
  apply (remove_returns_and_clears windows_env ["game"] "data" (World stale_junction_fs [])).
  - by vm_compute.
  - intros H. discriminate H.
Defined.

(** ** Clearing output/ *)

Section Clear_output.
Variable E : env.

Lemma os_mkdir_new (p : path) (w : world) :
  physical_dir (w_fs w) (parent p) → node_at (w_fs w) p = None →
  os_mkdir E p w = (inr tt, World (<[p := Dir]> (w_fs w)) (w_log w)).
Proof.
  intros Hd Hp. unfold os_mkdir, bind, gets, set_fs. simpl.
  rewrite locate_physical_parent by done. simpl. by rewrite Hp.
Qed.

Lemma path_mkdir_new (exist_ok : bool) (p : path) (w : world) :
  physical_dir (w_fs w) (parent p) → node_at (w_fs w) p = None →
  path_mkdir E true exist_ok p w = (inr tt, World (<[p := Dir]> (w_fs w)) (w_log w)).
Proof.
  intros Hd Hp. unfold path_mkdir. rewrite path_mkdir_parents_eq.
  unfold bind, try. by rewrite os_mkdir_new.
Qed.

Lemma rmtree_absent_is_id (fs : fsmap) (d : path) :
  well_formed fs → node_at fs d = None →
  filter (λ kv : path * node, under d kv.1 = false) fs = fs.
Proof.
  intros Hwf Hd. apply map_eq. intros q. rewrite lookup_rmtree.
  destruct (under d q) eqn:Hu; [|done].
  apply under_true in Hu as [r ->]. by rewrite nothing_below_absent.
Qed.

Lemma physical_dir_rmtree_entry (fs : fsmap) (d : path) (x : string) :
  physical_dir fs d →
  physical_dir (filter (λ kv : path * node, under (d ++ [x]) kv.1 = false) fs) d.
Proof.
  apply dir_chain_ext. intros k _. simpl. by rewrite lookup_rmtree, prefix_not_under_entry.
Qed.

Lemma physical_dir_insert_entry (fs : fsmap) (d : path) (x : string) (n : node) :
  physical_dir fs d → physical_dir (<[d ++ [x] := n]> fs) d.
Proof.
  apply dir_chain_ext. intros k _. simpl. apply lookup_insert_ne.
  intros Heq. apply (f_equal length) in Heq.
  rewrite length_take, length_app in Heq. simpl in Heq. lia.
Qed.

Lemma clear_entry (d : path) (x : string) (w : world) :
  physical_dir (w_fs w) d → well_formed (w_fs w) →
  w_fs w !! (d ++ [x]) = None ∨ w_fs w !! (d ++ [x]) = Some Dir →
  ((let* ex := gets (λ fs, path_exists E fs (d ++ [x])) in
    if ex then shutil_rmtree E (d ++ [x]) else ret tt) ;;
   path_mkdir E true false (d ++ [x])) w
  = (inr tt,
     World (<[d ++ [x] := Dir]>
              (filter (λ kv : path * node, under (d ++ [x]) kv.1 = false) (w_fs w)))
           (w_log w)).
Proof.
  intros Hd Hwf Hout.
  set (fs1 := filter (λ kv : path * node, under (d ++ [x]) kv.1 = false) (w_fs w)).
  assert (physical_dir fs1 (parent (d ++ [x]))) as Hd1
    by (rewrite parent_snoc; by apply physical_dir_rmtree_entry).
  assert (node_at fs1 (d ++ [x]) = None) as Hn1.
  { rewrite node_at_snoc. unfold fs1. by rewrite lookup_rmtree, under_refl. }
  unfold bind at 1. unfold bind at 1, gets at 1. simpl.
  destruct Hout as [Hn|Hn].
  - assert (path_exists E (w_fs w) (d ++ [x]) = false) as ->.
    { unfold path_exists. rewrite (stat_absent E _ _ FileNotFoundError); [done|].
      by rewrite lstat_physical, Hn. }
    unfold ret. simpl.
    assert (fs1 = w_fs w) as Hid.
    { apply rmtree_absent_is_id; [done|]. by rewrite node_at_snoc. }
    rewrite Hid in Hd1, Hn1. rewrite Hid. by apply path_mkdir_new.
  - assert (path_exists E (w_fs w) (d ++ [x]) = true) as ->.
    { unfold path_exists. by rewrite (stat_physical E _ _ _ Dir). }
    unfold shutil_rmtree, bind, gets, set_fs. simpl.
    rewrite lstat_physical, Hn by done. cbv beta iota. fold fs1.
    by apply (path_mkdir_new false (d ++ [x]) (World fs1 (w_log w))).
Qed.

Lemma clear_output_run (w : world) :
  physical_dir (w_fs w) (builder_dir E) → well_formed (w_fs w) →
  w_fs w !! output_dir E = None ∨ w_fs w !! output_dir E = Some Dir →
  ∃ w', clear_output E w = (inr tt, w') ∧
        w_log w' = w_log w ∧
        physical_dir (w_fs w') (output_dir E) ∧
        (∀ r, r ≠ [] → w_fs w' !! (output_dir E ++ r) = None) ∧
        (∀ q, under (output_dir E) q = false → w_fs w' !! q = w_fs w !! q) ∧
        well_formed (w_fs w').
Proof.
  unfold clear_output, output_dir. generalize (builder_dir E) as d. intros d Hd Hwf Hout.
  eexists. split; [by apply clear_entry|]. simpl.
  set (fs1 := filter (λ kv : path * node, under (d ++ ["output"]) kv.1 = false) (w_fs w)).
  assert (fs1 !! (d ++ ["output"]) = None) as Hn1
    by (unfold fs1; by rewrite lookup_rmtree, under_refl).
  split_and!; [done| | | |].
  - apply physical_dir_snoc; [|by rewrite lookup_insert_eq].
    by apply physical_dir_insert_entry, physical_dir_rmtree_entry.
  - intros r Hr. rewrite lookup_insert_ne.
    + unfold fs1. rewrite lookup_rmtree.
      assert (under (d ++ ["output"]) ((d ++ ["output"]) ++ r) = true) as ->
        by (apply under_true; eauto). done.
    + intros Heq. apply (f_equal length) in Heq. rewrite (length_app _ r) in Heq.
      destruct r; [done|simpl in Heq; lia].
  - intros q Hq. rewrite lookup_insert_ne.
    + unfold fs1. by rewrite lookup_rmtree, Hq.
    + intros <-. by rewrite under_refl in Hq.
  - apply well_formed_insert.
    + by apply well_formed_rmtree.
    + rewrite node_at_snoc. by rewrite Hn1.
    + rewrite parent_snoc. by apply physical_dir_node, physical_dir_rmtree_entry.
Qed.

(** When output/ is a real directory, or is not there at all,
    [clear_output] returns and leaves an empty directory at output/:
    nothing is stored below it, and the rest of the file system is as
    before. *)
Theorem clear_output_leaves_empty_dir (w : world) :
  physical_dir (w_fs w) (builder_dir E) → well_formed (w_fs w) →
  w_fs w !! output_dir E = None ∨ w_fs w !! output_dir E = Some Dir →
  ∃ w', clear_output E w = (inr tt, w') ∧
        w_log w' = w_log w ∧
        physical_dir (w_fs w') (output_dir E) ∧
        listdir (w_fs w') (output_dir E) = [] ∧
        (∀ r, r ≠ [] → w_fs w' !! (output_dir E ++ r) = None) ∧
        (∀ q, under (output_dir E) q = false → w_fs w' !! q = w_fs w !! q).
Proof.
  intros Hd Hwf Hout.
  destruct (clear_output_run w Hd Hwf Hout) as (w' & Hrun & Hlog & Hphys & Hbelow & Hsame & _).
  exists w'. split_and!; [done..| |done|done].
  destruct (listdir (w_fs w') (output_dir E)) as [|x l] eqn:Hl; [done|]. exfalso.
  assert (x ∈ listdir (w_fs w') (output_dir E)) as Hin by (rewrite Hl; left).
  apply elem_of_listdir in Hin as [n Hn]. by rewrite Hbelow in Hn.
Qed.

(** When output/ is a file or a link, even a link to a directory,
    [clear_output] raises an [OSError] and changes nothing. *)
Theorem clear_output_refuses_non_directory (n : node) (w : world) :
  physical_dir (w_fs w) (builder_dir E) →
  w_fs w !! output_dir E = Some n → n ≠ Dir →
  ∃ e, clear_output E w = (inl e, w) ∧ is_OSError e = true.
Proof.
  unfold clear_output, output_dir. generalize (builder_dir E) as d. intros d Hd Hn Hnd.
  destruct (remover_queries E _ _ "output" n Hd Hn) as (Hlst & _ & _ & Hreal).
  assert (locate (link_budget E) (w_fs w) [] (d ++ ["output"]) = inr (d ++ ["output"]))
    as Hloc by (apply locate_physical_parent; by rewrite parent_snoc).
  assert (node_at (w_fs w) (d ++ ["output"]) = Some n) as Hnode by by rewrite node_at_snoc.
  unfold bind at 1. unfold bind at 1, gets at 1. cbv beta iota.
  destruct (path_exists E (w_fs w) (d ++ ["output"])) eqn:Hex.
  - unfold shutil_rmtree, bind, gets, raise. cbv beta iota. rewrite Hlst.
    destruct n; try done; eauto.
  - unfold ret at 1. cbv beta iota. unfold path_mkdir. rewrite path_mkdir_parents_eq.
    unfold bind at 1, try, os_mkdir, bind, gets, raise. cbv beta iota.
    rewrite Hloc. cbv beta iota. rewrite Hnode. simpl. eauto.
Qed.
End Clear_output.

(** ** The tree merger on a source that is no directory *)

(** When the source does not exist or is not a directory, [copy_tree]
    returns without an error and does nothing at all: not even the
    destination folder is made. *)
Theorem copy_tree_without_source (E : env) (src dst : path) (w : world) :
  path_is_dir E (w_fs w) src = false → 0 < recursion_limit E →
  copy_tree E src dst w = (inr tt, w).
Proof.
  intros Hisd Hrec. unfold copy_tree. destruct (recursion_limit E) as [|depth]; [lia|].
  simpl. unfold bind, gets, ret. simpl.
  unfold path_is_dir in Hisd. unfold scandir.
  by destruct (stat E (w_fs w) src) as [|[? []]].
Qed.

(** ** Unpacking an archive *)

Section Extraction.
Variable E : env.

Lemma extract_member_confined (target : path) (m : zip_member) :
  keeps (confined target) (extract_member E target m).
Proof.
  unfold extract_member.
  set (arcname := filter (λ x, x ∉ [""; "."; ".."]) m.1).
  apply keeps_bind; [apply _| |intros _].
  - intros w. unfold bind, gets. simpl.
    destruct (path_exists E (w_fs w) (parent (target ++ arcname))) eqn:Hex; [reflexivity|].
    intros HPre. destruct (decide (arcname = [])) as [Harc|Harc].
    + exfalso. rewrite Harc, app_nil_r in Hex. destruct HPre as [Hd _].
      by rewrite path_exists_physical_dir in Hex.
    + destruct (exists_last Harc) as (a & x & Ha).
      apply (os_makedirs_from_confined E target _ false (parent (target ++ arcname))); [|done].
      rewrite Ha, app_assoc, parent_snoc. apply under_true; eauto.
  - destruct m.2 as [data|].
    + apply write_file_confined. apply under_true; eauto.
    + apply keeps_bind; [apply _|apply keeps_gets, _|]. intros isd.
      destruct isd; [apply keeps_ret, _|]. apply os_mkdir_confined. apply under_true; eauto.
Qed.

(** Unpacking an archive into a folder that sits in a real directory and
    has no link below it changes nothing outside that folder, whatever
    the names of the members are and whether the unpacking ends well or
    raises; the folder still has no link below it afterwards. *)
Theorem extract_zip_stays_in_target (zip_path temp_dir : path) (w : world) :
  physical_dir (w_fs w) (parent temp_dir) → link_free (w_fs w) temp_dir →
  let fs' := w_fs (extract_zip E zip_path temp_dir w).2 in
  (∀ q, under temp_dir q = false → fs' !! q = w_fs w !! q) ∧
  physical_dir fs' (parent temp_dir) ∧ link_free fs' temp_dir.
Proof.
  intros Hd Hlf fs'.
  assert (keeps (confined temp_dir) (extract_zip E zip_path temp_dir)) as Hk.
  { unfold extract_zip, zip_extractall.
    apply keeps_bind; [apply _|apply keeps_gets, _|].
    intros [e|[l [data| | |]]]; try apply keeps_raise, _.
    destruct (unzip E data) as [members|]; [|apply keeps_raise, _].
    apply keeps_for_each; [apply _|]. intros m _. apply extract_member_confined. }
  destruct (Hk w (conj Hd Hlf)) as [[Hd' Hlf'] Hout].
  split_and!; [|done..]. intros q Hq. apply Hout. congruence.
Qed.
End Extraction.

(** ** What the undeployer leaves *)

Section Undeploy_result.
Variable E : env.



Lemma sibling_not_under (d : path) (x y : string) :
  x ≠ y → under (d ++ [x]) (d ++ [y]) = false.
Proof.
  intros Hne. apply under_false. intros r Heq. rewrite <- app_assoc in Heq.
  apply app_inv_head in Heq. simpl in Heq. congruence.
Qed.







End Undeploy_result.

(** ** A deploy that goes through *)

Lemma for_each_returns {A : Type} (I : list A → world → Prop) (body : A → M unit)
    (l : list A) (w : world) :
  I [] w →
  (∀ done x rest w1, l = done ++ x :: rest → I done w1 →
     ∃ w2, body x w1 = (inr tt, w2) ∧ I (done ++ [x]) w2) →
  ∃ w', for_each l body w = (inr tt, w') ∧ I l w'.
Proof.
  revert I w. induction l as [|x l IH]; intros I w H0 Hstep; simpl.
  { exists w. by unfold ret. }
  destruct (Hstep [] x l w eq_refl H0) as (w1 & Hx & H1).
  destruct (IH (λ done, I (x :: done)) w1 H1) as (w' & Hrun & Hl).
  { intros done y rest w2 -> Hd. apply (Hstep (x :: done) y rest w2); [done|done]. }
  exists w'. split; [|done]. unfold bind. by rewrite Hx.
Qed.

Lemma open_wb_new (E : env) (fs : fsmap) (p : path) :
  physical_dir fs (parent p) → node_at fs p = None → open_wb E fs p = inr p.
Proof.
  intros Hd Hn. unfold open_wb.
  destruct (link_budget E) as [|h] eqn:Hb; simpl;
    by rewrite (locate_physical_parent _ fs p Hd), Hn.
Qed.

Section Deploy_result.
Variable E : env.
Hypothesis Hpriv : symlink_privilege E = true.

Lemma entry_apart (g : path) (n b : string) (q : path) :
  n ≠ b → under (g ++ [n]) q = true → under (g ++ [b]) q = false.
Proof.
  intros Hne Hq. destruct (under (g ++ [b]) q) eqn:Hb; [|done]. exfalso.
  apply under_true in Hq as [r ->]. apply under_true in Hb as [r' Heq].
  rewrite <- !app_assoc in Heq. apply app_inv_head in Heq. simpl in Heq. congruence.
Qed.

(** One round of the deploy loop, for an entry of output/ that is a real
    directory or a regular file and is not in the way of its own
    destination. *)
Lemma deploy_item_result (n : string) (nd : node) (w : world) :
  physical_dir (w_fs w) (game_dir E) → sound E (w_fs w) →
  physical_dir (w_fs w) (output_dir E) →
  w_fs w !! (output_dir E ++ [n]) = Some nd → is_link nd = false →
  under (game_dir E ++ [n]) (output_dir E ++ [n]) = false →
  ∃ w',
    (_remove_existing_path E (game_dir E ++ [n]) ;;
     let* isd := gets (λ fs, path_is_dir E fs (output_dir E ++ [n])) in
     if isd then
       let* method := _try_create_dir_link E (output_dir E ++ [n]) (game_dir E ++ [n]) in
       ret tt
     else shutil_copy2 E (output_dir E ++ [n]) (game_dir E ++ [n])) w = (inr tt, w') ∧
    w_fs w' !! (game_dir E ++ [n])
      = Some (if bool_decide (nd = Dir) then Symlink (output_dir E ++ [n]) else nd) ∧
    (∀ q, under (game_dir E ++ [n]) q = false → w_fs w' !! q = w_fs w !! q) ∧
    w_log w' = w_log w ++ [if bool_decide (nd = Dir)
                           then Call_symlink (output_dir E ++ [n]) (game_dir E ++ [n])
                           else Call_copy2 (output_dir E ++ [n]) (game_dir E ++ [n])].
Proof.
  intros Hg [Hwf Hpl] Ho Hn Hnl Hap.
  set (dest := game_dir E ++ [n]). set (item := output_dir E ++ [n]). fold dest in Hap.
  fold item in Hn, Hap.
  pose proof (remove_returns E _ n w Hg Hpl) as Hret. fold dest in Hret.
  pose proof (remove_changes_under E _ n w Hg) as Hout1. fold dest in Hout1.
  destruct (remove_shape E dest w) as [Hlog1 _].
  unfold bind at 1.
  destruct (_remove_existing_path E dest w) as [r w1] eqn:Hrm. simpl in Hret, Hout1, Hlog1.
  subst r.
  pose proof (remove_result E _ _ _ _ Hg Hpl Hrm) as Hnew. fold dest in Hnew.
  assert (∀ q, under dest q = false → w_fs w1 !! q = w_fs w !! q) as Hout1'.
  { intros q Hq. apply Hout1. congruence. }
  assert (physical_dir (w_fs w1) (game_dir E)) as Hg1.
  { revert Hg. apply dir_chain_ext. intros k _. simpl. apply Hout1'.
    apply prefix_not_under_entry. }
  assert (physical_dir (w_fs w1) (output_dir E)) as Ho1.
  { revert Ho. apply dir_chain_ext. intros k _. simpl. apply Hout1'.
    destruct (under dest (take k (output_dir E))) eqn:Hu; [|done].
    rewrite (under_trans dest (take k (output_dir E)) item) in Hap; [done..|].
    apply under_true. exists (drop k (output_dir E) ++ [n]). unfold item.
    by rewrite app_assoc, take_drop. }
  assert (w_fs w1 !! item = Some nd) as Hn1 by (by rewrite Hout1').
  assert (stat E (w_fs w1) item = inr (item, nd)) as Hst by by apply stat_physical.
  assert (stat E (w_fs w1) dest = inl FileNotFoundError) as Hstd.
  { apply stat_absent. unfold dest in *. rewrite lstat_physical by done.
    rewrite node_at_snoc in Hnew. by rewrite Hnew. }
  assert (locate (link_budget E) (w_fs w1) [] dest = inr dest) as Hloc
    by (apply locate_physical_parent; unfold dest; by rewrite parent_snoc).
  unfold bind at 1, gets at 1. simpl. unfold path_is_dir at 1. rewrite Hst.
  destruct nd as [c| |t|t]; try done; simpl.
  - (* a file: copied *)
    unfold shutil_copy2, write_file, bind, log, gets, set_fs, samefile, path_is_dir.
    repeat (progress (rewrite ?Hstd, ?Hst; with_strategy opaque [open_wb] simpl)).
    rewrite open_wb_new by (done || (unfold dest; by rewrite parent_snoc)). simpl.
    eexists; split; [reflexivity|]; simpl.
    split_and!; [by rewrite lookup_insert_eq| |by rewrite Hlog1].
    intros q Hq. rewrite lookup_insert_ne by (intros <-; by rewrite under_refl in Hq).
    by apply Hout1'.
  - (* a directory: linked *)
    unfold _try_create_dir_link, bind, gets, try, os_symlink, bind, log, gets, set_fs, ret.
    simpl. unfold path_resolve. rewrite Hst. rewrite Hpriv. simpl.
    rewrite Hloc. simpl. rewrite Hnew. simpl.
    eexists; split; [reflexivity|]; simpl.
    split_and!; [by rewrite lookup_insert_eq| |by rewrite Hlog1].
    intros q Hq. rewrite lookup_insert_ne by (intros <-; by rewrite under_refl in Hq).
    by apply Hout1'.
Qed.
End Deploy_result.

Section Deploy_all.
Variable E : env.
Hypothesis Hpriv : symlink_privilege E = true.
Hypothesis Hbuilder : builder_dir E ≠ [].

Lemma builder_dir_split : builder_dir E = game_dir E ++ [basename (builder_dir E)].
Proof. unfold game_dir, parent, basename. by apply app_removelast_last. Qed.

Lemma output_dir_split :
  output_dir E = (game_dir E ++ [basename (builder_dir E)]) ++ ["output"].
Proof. unfold output_dir. by rewrite <- builder_dir_split. Qed.

Lemma output_physical (fs : fsmap) :
  physical_dir fs (output_dir E) ↔
  physical_dir fs (game_dir E) ∧ fs !! builder_dir E = Some Dir ∧
  fs !! output_dir E = Some Dir.
Proof.
  unfold output_dir, game_dir. destruct (exists_last Hbuilder) as (g & b & ->).
  rewrite parent_snoc. unfold physical_dir. rewrite !dir_chain_app. simpl. tauto.
Qed.

Lemma under_builder_apart (n : string) (q : path) :
  n ≠ basename (builder_dir E) → under (builder_dir E) q = true →
  under (game_dir E ++ [n]) q = false.
Proof.
  intros Hne Hq. rewrite builder_dir_split in Hq.
  destruct (under (game_dir E ++ [n]) q) eqn:Hu; [|done].
  by rewrite (entry_apart _ _ _ _ Hne Hu) in Hq.
Qed.

(** What a deploy leaves at [game_dir/<n>] for the entry [n] of output/. *)
Let deployed_entry (fs0 fs' : fsmap) (n : string) : Prop :=
  ∀ nd, fs0 !! (output_dir E ++ [n]) = Some nd →
        fs' !! (game_dir E ++ [n])
        = Some (if bool_decide (nd = Dir) then Symlink (output_dir E ++ [n]) else nd).

Lemma deploy_result (w : world) :
  physical_dir (w_fs w) (output_dir E) → sound E (w_fs w) →
  basename (builder_dir E) ∉ listdir (w_fs w) (output_dir E) →
  (∀ n nd, w_fs w !! (output_dir E ++ [n]) = Some nd → is_link nd = false) →
  ∃ w', symlink_to_game E w = (inr tt, w') ∧
        physical_dir (w_fs w') (game_dir E) ∧ sound E (w_fs w') ∧
        (∀ q, under (builder_dir E) q = true → w_fs w' !! q = w_fs w !! q) ∧
        (∀ n, deployed_entry (w_fs w) (w_fs w') n).
Proof.
  intros Ho Hs Hb Hreal. pose proof Ho as Ho'. apply output_physical in Ho' as (Hg & _ & _).
  set (names := listdir (w_fs w) (output_dir E)).
  set (I := λ (done : list path) (w1 : world),
    physical_dir (w_fs w1) (game_dir E) ∧ sound E (w_fs w1) ∧
    (∀ q, under (builder_dir E) q = true → w_fs w1 !! q = w_fs w !! q) ∧
    (∀ n, output_dir E ++ [n] ∈ done → deployed_entry (w_fs w) (w_fs w1) n)).
  unfold symlink_to_game. unfold bind at 1. unfold path_iterdir, bind at 1, gets at 1.
  simpl. rewrite scandir_physical_dir by done. simpl. fold names.
  match goal with
  | |- ∃ w', for_each ?l ?body w = _ ∧ _ =>
    destruct (for_each_returns I body l w) as (w' & Hrun & HI)
  end.
  { split_and!; try done. intros n Hin. by apply elem_of_nil in Hin. }
  { intros done x rest w1 Hl (Hg1 & Hs1 & Hsame1 & Hdone).
    assert (x ∈ (λ n, output_dir E ++ [n]) <$> names) as Hx.
    { rewrite Hl. apply elem_of_app. right. left. }
    apply list_elem_of_fmap in Hx as (n & -> & Hn).
    assert (n ≠ basename (builder_dir E)) as Hnb by (intros ->; done).
    apply elem_of_listdir in Hn as [nd Hnd].
    assert (under (builder_dir E) (output_dir E ++ [n]) = true) as Hub.
    { apply under_true. exists ["output"; n]. unfold output_dir. by rewrite <- app_assoc. }
    assert (physical_dir (w_fs w1) (output_dir E)) as Ho1.
    { apply output_physical. apply output_physical in Ho as (_ & Hbd & Hod).
      split_and!; [done| |].
      - rewrite Hsame1; [done|apply under_refl].
      - rewrite Hsame1; [done|]. apply under_true. by exists ["output"]. }
    rewrite basename_snoc.
    destruct (deploy_item_result E Hpriv n nd w1 Hg1 Hs1 Ho1) as (w2 & Hrun2 & Hd2 & Hout2 & _).
    { by rewrite Hsame1. }
    { by apply (Hreal n). }
    { by apply under_builder_apart. }
    exists w2. split; [done|].
    assert (names_ok : n ∈ [n]) by left.
    destruct (deploy_item_keeps_frame E [n] n names_ok w1 (conj Hg1 Hs1)) as [[Hg2 Hs2] _].
    rewrite Hrun2 in Hg2, Hs2. simpl in Hg2, Hs2.
    split_and!; [done|done| |].
    - intros q Hq. rewrite Hout2; [by apply Hsame1|by apply under_builder_apart].
    - intros m Hm nd' Hnd'. destruct (decide (m = n)) as [->|Hmn].
      + by simplify_eq.
      + apply elem_of_app in Hm as [Hm|Hm].
        * rewrite Hout2 by (by apply sibling_not_under). by apply Hdone.
        * apply list_elem_of_singleton in Hm. apply app_inv_head in Hm. congruence. }
  destruct HI as (Hg' & Hs' & Hsame' & Hdone).
  exists w'. split_and!; try done.
  intros n nd Hnd. apply Hdone; [|done].
  apply list_elem_of_fmap. exists n. split; [done|]. apply elem_of_listdir. eauto.
Qed.

Lemma output_entries_real (fs : fsmap) :
  link_free fs (output_dir E) →
  ∀ n nd, fs !! (output_dir E ++ [n]) = Some nd → is_link nd = false.
Proof.
  intros Hlf n nd Hnd. apply (map_Forall_lookup_1 _ _ _ _ Hlf Hnd). apply under_true. eauto.
Qed.

(** With the right to make symbolic links, in a real file system where
    output/ is a real directory that holds no link, and no entry named
    like the loader's own folder, a deploy always returns: every folder
    of output/ is then a symbolic link in the game folder, every file of
    output/ a copy there, and the loader's own folder is untouched. *)
Theorem deploy_links_every_entry (w : world) :
  physical_dir (w_fs w) (output_dir E) → well_formed (w_fs w) → platform_ok E (w_fs w) →
  basename (builder_dir E) ∉ listdir (w_fs w) (output_dir E) →
  link_free (w_fs w) (output_dir E) →
  ∃ w', symlink_to_game E w = (inr tt, w') ∧
        (∀ n, w_fs w !! (output_dir E ++ [n]) = Some Dir →
              w_fs w' !! (game_dir E ++ [n]) = Some (Symlink (output_dir E ++ [n]))) ∧
        (∀ n c, w_fs w !! (output_dir E ++ [n]) = Some (File c) →
                w_fs w' !! (game_dir E ++ [n]) = Some (File c)) ∧
        (∀ q, under (builder_dir E) q = true → w_fs w' !! q = w_fs w !! q).
Proof.
  intros Ho Hwf Hpl Hb Hlf. pose proof (output_entries_real _ Hlf) as Hreal.
  destruct (deploy_result w Ho (conj Hwf Hpl) Hb Hreal) as (w' & Hrun & _ & _ & Hsame & Hdep).
  exists w'. split_and!; [done| | |done].
  - intros n Hn. by rewrite (Hdep n Dir Hn).
  - intros n c Hn. by rewrite (Hdep n (File c) Hn).
Qed.

(** Under the same conditions a second deploy right after the first one
    returns as well and leaves the file system exactly as the first one
    left it. *)
Theorem deploy_twice_is_idempotent (w : world) :
  physical_dir (w_fs w) (output_dir E) → well_formed (w_fs w) → platform_ok E (w_fs w) →
  basename (builder_dir E) ∉ listdir (w_fs w) (output_dir E) →
  link_free (w_fs w) (output_dir E) →
  ∃ w1 w2, symlink_to_game E w = (inr tt, w1) ∧
           symlink_to_game E w1 = (inr tt, w2) ∧
           w_fs w2 = w_fs w1.
Proof.
  intros Ho Hwf Hpl Hb Hlf. pose proof (output_entries_real _ Hlf) as Hreal.
  destruct (deploy_result w Ho (conj Hwf Hpl) Hb Hreal)
    as (w1 & Hrun1 & Hg1 & Hs1 & Hsame1 & Hdep1).
  assert (∀ n, w_fs w1 !! (output_dir E ++ [n]) = w_fs w !! (output_dir E ++ [n])) as Hent.
  { intros n. apply Hsame1. apply under_true. exists ["output"; n].
    unfold output_dir. by rewrite <- app_assoc. }
  assert (physical_dir (w_fs w1) (output_dir E)) as Ho1.
  { apply output_physical. apply output_physical in Ho as (_ & Hbd & Hod).
    split_and!; [done| |].
    - rewrite Hsame1; [done|apply under_refl].
    - rewrite Hsame1; [done|]. apply under_true. by exists ["output"]. }
  destruct (deploy_result w1 Ho1 Hs1) as (w2 & Hrun2 & Hg2 & Hs2 & Hsame2 & Hdep2).
  { intros Hin. apply Hb. apply elem_of_listdir. apply elem_of_listdir in Hin.
    by rewrite <- Hent. }
  { intros n nd. rewrite Hent. apply Hreal. }
  exists w1, w2. split_and!; [done..|].
  apply map_eq. intros q.
  destruct (deploy_keeps_frame E w1 (conj Hg1 Hs1)) as [_ Hframe].
  rewrite Hrun2 in Hframe. simpl in Hframe.
  unfold output_entries in Hframe. rewrite scandir_physical_dir in Hframe by done.
  destruct (decide (Exists (λ name, under (game_dir E ++ [name]) q = true)
                      (listdir (w_fs w1) (output_dir E)))) as [Hin|Hout].
  2: { apply Hframe. intros (n & Hn & Hu). apply Hout, Exists_exists. eauto. }
  apply Exists_exists in Hin as (n & Hn & Hu).
  apply elem_of_listdir in Hn as [nd Hnd]. apply under_true in Hu as [r ->].
  pose proof (Hdep2 n nd Hnd) as H2. rewrite Hent in Hnd. pose proof (Hdep1 n nd Hnd) as H1.
  destruct (decide (r = [])) as [->|Hr]; [rewrite app_nil_r; congruence|].
  assert (∀ fs, well_formed fs →
                fs !! (game_dir E ++ [n])
                = Some (if bool_decide (nd = Dir) then Symlink (output_dir E ++ [n]) else nd) →
                fs !! ((game_dir E ++ [n]) ++ r) = None) as Hleaf.
  { intros fs Hwf' Hnode. destruct (fs !! ((game_dir E ++ [n]) ++ r)) eqn:Hq; [|done].
    exfalso. pose proof (well_formed_ancestor fs _ r Hwf' (mk_is_Some _ _ Hq) Hr) as Hd.
    rewrite node_at_snoc, Hnode in Hd. specialize (Hreal n nd Hnd).
    case_bool_decide; destruct nd; simplify_eq. }
  destruct Hs1 as [Hwf1 _], Hs2 as [Hwf2 _]. by rewrite !Hleaf.
Qed.
End Deploy_all.

(** ** The order of the overlays *)

Lemma string_compare_trans (s1 s2 s3 : string) :
  String.compare s1 s2 ≠ Gt → String.compare s2 s3 ≠ Gt → String.compare s1 s3 ≠ Gt.
Proof.
  revert s2 s3. induction s1 as [|c1 s1 IH]; intros [|c2 s2] [|c3 s3]; simpl; try done.
  unfold Ascii.compare.
  destruct (N.compare_spec (N_of_ascii c1) (N_of_ascii c2)) as [H12|H12|H12];
    destruct (N.compare_spec (N_of_ascii c2) (N_of_ascii c3)) as [H23|H23|H23];
    destruct (N.compare_spec (N_of_ascii c1) (N_of_ascii c3)) as [H13|H13|H13];
    try done; try lia.
  apply IH.
Qed.

Lemma string_leb_trans (s1 s2 s3 : string) :
  String.leb s1 s2 = true → String.leb s2 s3 = true → String.leb s1 s3 = true.
Proof.
  unfold String.leb. intros H12 H23.
  pose proof (string_compare_trans s1 s2 s3) as H.
  destruct (String.compare s1 s2), (String.compare s2 s3), (String.compare s1 s3);
    try done; exfalso; by apply H.
Qed.

#[global] Instance name_le_total : Total name_le.
Proof. intros a b. apply String.leb_total. Qed.

#[global] Instance name_le_trans : Transitive name_le.
Proof. intros a b c. apply string_leb_trans. Qed.

Lemma snoc_split {A : Type} (done l1 l2 : list A) (x y : A) :
  done ++ [x] = l1 ++ y :: l2 →
  (l2 = [] ∧ done = l1 ∧ x = y) ∨ ∃ l2', l2 = l2' ++ [x] ∧ done = l1 ++ y :: l2'.
Proof.
  intros Heq. destruct l2 as [|z l2 _] using rev_ind.
  - left. apply app_inj_tail in Heq as [-> ->]. done.
  - right. exists l2. rewrite app_comm_cons, app_assoc in Heq.
    apply app_inj_tail in Heq as [-> ->]. done.
Qed.

(** ** The tree merger, file by file *)

#[global] Instance stays_well_formed_preorder : PreOrder stays_well_formed.
Proof.
  split; [intros fs H; exact H|]. intros fs1 fs2 fs3 H12 H23 H. exact (H23 (H12 H)).
Qed.

#[global] Instance same_files_preorder : PreOrder same_files.
Proof.
  split; [by intros fs q c|]. intros fs1 fs2 fs3 H12 H23 q c. by rewrite (H12 q c).
Qed.

#[global] Instance files_exact_preorder (fs0 : fsmap) (src dst : path) :
  PreOrder (files_exact fs0 src dst).
Proof.
  split; [intros fs; split; eauto|].
  intros fs1 fs2 fs3 [Hs12 Ho12] [Hs23 Ho23]. split.
  - intros q c Hq Hnm. apply Hs23; [|done]. by apply Hs12.
  - intros q c Hq. destruct (Ho23 q c Hq) as [Hq2|?]; [|by right]. by apply Ho12.
Qed.

#[global] Instance merge_rel_exact_preorder (fs0 : fsmap) (src dst : path) :
  PreOrder (merge_rel_exact fs0 src dst).
Proof.
  split; [intros fs; by split|].
  intros fs1 fs2 fs3 [? ?] [? ?]. split; by etrans.
Qed.

#[global] Instance merging_exact_preorder (fs0 : fsmap) (src dst : path) :
  PreOrder (merging_exact fs0 src dst).
Proof. unfold merging_exact. apply _. Qed.

Section Mkdir_only.
Variable E : env.
Context (J : relation fsmap) `{!PreOrder J}.
Hypothesis J_mkdir : ∀ fs l, node_at fs l = None → J fs (<[l := Dir]> fs).

Lemma os_mkdir_only (p : path) : keeps J (os_mkdir E p).
Proof.
  intros w. destruct (os_mkdir_effect E p w) as [(l & Hloc & Hl & ->)|(e & -> & _)];
    [|reflexivity].
  by apply J_mkdir.
Qed.

Lemma path_mkdir_one_only (exist_ok : bool) (p : path) :
  keeps J (path_mkdir_one E exist_ok p).
Proof.
  unfold path_mkdir_one.
  apply keeps_bind; [apply _|apply keeps_try, os_mkdir_only|].
  intros [e|[]]; [|apply keeps_ret, _].
  destruct e; try apply keeps_raise, _; apply (mkdir_handler_additive E J exist_ok p).
Qed.

Lemma path_mkdir_parents_only (n : nat) (exist_ok : bool) (p : path) :
  keeps J (path_mkdir_parents E n exist_ok p).
Proof.
  revert exist_ok p. induction n as [|n IH]; intros exist_ok p;
    rewrite path_mkdir_parents_eq;
    (apply keeps_bind; [apply _|apply keeps_try, os_mkdir_only|]);
    (intros [e|[]]; [|apply keeps_ret, _]);
    destruct e; try apply keeps_raise, _; try apply (mkdir_handler_additive E J exist_ok p).
  case_bool_decide; [apply keeps_raise, _|].
  apply keeps_bind; [apply _|apply IH|]. intros _. apply path_mkdir_one_only.
Qed.

Lemma path_mkdir_only (parents exist_ok : bool) (p : path) :
  keeps J (path_mkdir E parents exist_ok p).
Proof.
  unfold path_mkdir.
  destruct parents; [apply path_mkdir_parents_only|apply path_mkdir_one_only].
Qed.
End Mkdir_only.

Lemma same_files_mkdir (fs : fsmap) (l : path) :
  node_at fs l = None → same_files fs (<[l := Dir]> fs).
Proof.
  intros Hl q c. destruct (decide (q = l)) as [->|Hne].
  - rewrite lookup_insert_eq. destruct l; [done|]. simpl in Hl. rewrite Hl. naive_solver.
  - by rewrite lookup_insert_ne.
Qed.

Section Merge_exact.
Variable E : env.
Variables (fs0 : fsmap) (src dst : path).
Hypothesis Hsrc0 : physical_dir fs0 src.
Hypothesis Hlf0 : link_free fs0 src.
Hypothesis Hwf0 : well_formed fs0.
Hypothesis Hsd : under src dst = false.
Hypothesis Hds : under dst src = false.

Lemma fits_after (fs fs' : fsmap) :
  merge_fits fs0 src dst fs → dirs_made fs0 src dst fs fs' → merge_fits fs0 src dst fs'.
Proof.
  intros Hfit Hdm r c Hr H0 Hd. destruct (Hdm _ Hd) as [Hd1|(a & Heq & Ha)].
  - by apply (Hfit r c).
  - apply app_inv_head in Heq as <-.
    destruct (src ++ r) eqn:Hsr; [by destruct src, r|]. simpl in Ha. congruence.
Qed.

Lemma exact_lift {A : Type} (m : M A) :
  keeps (merging fs0 src dst) m →
  (∀ w, merge_pre fs0 src dst (w_fs w) → merge_fits fs0 src dst (w_fs w) →
        files_exact fs0 src dst (w_fs w) (w_fs (m w).2)) →
  keeps (merging_exact fs0 src dst) m.
Proof.
  intros Hm Hf w [HPre Hfit]. destruct (Hm w HPre) as [HPre' Hrel].
  split; [split; [done|]|split; [done|by apply Hf]].
  destruct Hrel as (_ & _ & Hdm & _). by apply (fits_after (w_fs w)).
Qed.

Lemma same_files_exact (fs fs' : fsmap) :
  same_files fs fs' → files_exact fs0 src dst fs fs'.
Proof. intros H. split; intros q c Hq; [intros _; by apply H|left; by apply H]. Qed.

Lemma path_mkdir_keeps_exact (a : path) :
  node_at fs0 (src ++ a) = Some Dir →
  keeps (merging_exact fs0 src dst) (path_mkdir E true true (dst ++ a)).
Proof.
  intros Ha. apply exact_lift.
  - unfold path_mkdir. by apply path_mkdir_parents_keeps_merging.
  - intros w _ _. apply same_files_exact.
    apply (path_mkdir_only E same_files). apply same_files_mkdir.
Qed.

Lemma copy2_keeps_exact (r : path) (c : content) :
  r ≠ [] → fs0 !! (src ++ r) = Some (File c) →
  keeps (merging_exact fs0 src dst) (shutil_copy2 E (src ++ r) (dst ++ r)).
Proof.
  intros Hr H0. apply exact_lift; [by apply (copy2_keeps_merging E fs0 src dst) with c|].
  intros w HPre Hfit.
  destruct (copy2_effect E (src ++ r) (dst ++ r) w)
    as [(data & l & ls & dst' & Hdst' & Hst & _ & Hopen & ->)|[e ->]]; [simpl|reflexivity].
  destruct (merge_pre_src fs0 src dst Hlf0 _ r HPre) as (Hp & Hnl & Hnode).
  apply stat_plain_path in Hst as [-> Hdata]; [|done..].
  assert (data = c) as ->.
  { rewrite Hnode in Hdata. destruct (src ++ r) eqn:Hsr; [by destruct src, r|].
    simpl in Hdata. congruence. }
  destruct (merge_pre_dst fs0 src dst _ r HPre) as (Hp' & Hnl').
  assert (dst' = dst ++ r) as ->.
  { destruct Hdst' as [[-> _]|[_ Hisd]]; [done|]. exfalso.
    unfold path_is_dir in Hisd.
    destruct (stat E (w_fs w) (dst ++ r)) as [|[l' n]] eqn:Hst'; [done|].
    apply stat_plain_path in Hst' as [-> Hn]; [|done..]. destruct n; try done.
    apply (Hfit r c Hr H0). destruct (dst ++ r) eqn:Hdr; [by destruct dst, r|]. done. }
  apply open_wb_plain_path in Hopen as (-> & _ & _); [|done..].
  split.
  - intros q c0 Hq Hnm. rewrite lookup_insert_ne; [done|]. intros <-. by apply (Hnm r c).
  - intros q c0 Hq. destruct (decide (q = dst ++ r)) as [->|Hne].
    + rewrite lookup_insert_eq in Hq. simplify_eq. right. eauto.
    + rewrite lookup_insert_ne in Hq by done. by left.
Qed.

(** The body of the loop of [copy_tree]. *)
Let merge_body : path → list string → list string → M unit :=
  λ root dirs files,
    match strip_prefix src root with
    | None => raise ValueError
    | Some rel_path =>
      let target_root := dst ++ rel_path in
      path_mkdir E true true target_root ;;
      for_each files (λ file,
        let src_file := root ++ [file] in
        let dst_file := target_root ++ [file] in
        shutil_copy2 E src_file dst_file)
    end.

Lemma merge_body_keeps_exact (a : path) (dirs files : list string) :
  dir_chain fs0 src a →
  (∀ f, f ∈ files → ∃ c, fs0 !! (src ++ a ++ [f]) = Some (File c)) →
  keeps (merging_exact fs0 src dst) (merge_body (src ++ a) dirs files).
Proof.
  intros Ha Hfiles. unfold merge_body. rewrite strip_prefix_app.
  apply keeps_bind; [apply _| |intros _].
  - apply path_mkdir_keeps_exact. by apply source_chain_node.
  - apply keeps_for_each; [apply _|]. intros f Hf. destruct (Hfiles f Hf) as [c Hc].
    rewrite <- !app_assoc. apply (copy2_keeps_exact (a ++ [f]) c); [by destruct a|done].
Qed.

Lemma walk_keeps_exact (depth : nat) (a : path) :
  dir_chain fs0 src a →
  keeps (merging_exact fs0 src dst) (os_walk_for E depth (src ++ a) merge_body).
Proof.
  revert a. induction depth as [|depth IH]; intros a Ha; [apply keeps_raise, _|].
  intros w. rewrite os_walk_for_eq. unfold bind at 1, gets at 1.
  destruct (scandir E (w_fs w) (src ++ a)) as [e|names] eqn:Hscan;
    [intros HPre; split; [done|reflexivity]|].
  unfold bind at 1, gets at 1. unfold bind at 1, gets at 1.
  intros HPre2. pose proof HPre2 as [HPre Hfit].
  set (dirs := filter (λ n, path_is_dir E (w_fs w) ((src ++ a) ++ [n]) = true) names).
  set (files := filter (λ n, path_is_dir E (w_fs w) ((src ++ a) ++ [n]) = false) names).
  rewrite scandir_physical_dir in Hscan by (by apply (merge_pre_chain fs0 src dst)).
  simplify_eq.
  refine (keeps_bind (merging_exact fs0 src dst) _ _ _ _ w HPre2); [|intros _].
  - apply merge_body_keeps_exact; [done|]. intros f Hf.
    apply list_elem_of_filter in Hf as [Hdir Hin].
    destruct (source_entry_kinds E fs0 src dst Hlf0 _ a f HPre Ha)
      as (Hisd & _ & Hlist & Hkinds).
    apply Hlist in Hin as [n Hn]. rewrite Hisd in Hdir.
    destruct (Hkinds _ Hn) as [->|[c ->]]; [by rewrite bool_decide_eq_true_2 in Hdir|eauto].
  - apply keeps_for_each; [apply _|]. intros d Hd.
    apply list_elem_of_filter in Hd as [Hdir Hin].
    destruct (source_entry_kinds E fs0 src dst Hlf0 _ a d HPre Ha) as (Hisd & _ & _ & _).
    rewrite Hisd in Hdir. apply bool_decide_eq_true_1 in Hdir.
    apply keeps_bind; [apply _|apply keeps_gets, _|]. intros lnk.
    destruct lnk; [apply keeps_ret, _|].
    rewrite <- app_assoc. apply IH. by apply source_chain_snoc.
Qed.

(** All that a returning [copy_tree src dst] is known to do. *)
Lemma copy_tree_exact (w w' : world) :
  merge_pre fs0 src dst (w_fs w) → merge_fits fs0 src dst (w_fs w) →
  copy_tree E src dst w = (inr tt, w') →
  merge_pre fs0 src dst (w_fs w') ∧
  merge_rel fs0 src dst (w_fs w) (w_fs w') ∧
  files_exact fs0 src dst (w_fs w) (w_fs w') ∧
  (∀ r c, r ≠ [] → fs0 !! (src ++ r) = Some (File c) →
          w_fs w' !! (dst ++ r) = Some (File c)).
Proof.
  intros HPre Hfit Hrun.
  pose proof (walk_result E fs0 src dst Hsrc0 Hlf0 Hwf0 Hsd Hds
                (recursion_limit E) [] w w' HPre I) as Hres.
  rewrite !app_nil_r in Hres. simpl in Hres.
  destruct (Hres Hrun) as (HPre' & Hrel & Hfiles & _).
  pose proof (walk_keeps_exact (recursion_limit E) [] I w (conj HPre Hfit)) as Hex.
  rewrite app_nil_r in Hex. unfold copy_tree in Hrun. unfold merge_body in Hex.
  rewrite Hrun in Hex. simpl in Hex. destruct Hex as [_ [_ Hexact]].
  split_and!; [done..|]. intros r c Hr Hc. apply Hfiles; [done..|]. by apply (Hfit r c).
Qed.
End Merge_exact.

(** ** A build from folder overlays *)

Lemma stays_well_formed_create (fs : fsmap) (l : path) (n : node) :
  node_at fs l = None → node_at fs (parent l) = Some Dir → is_link n = false →
  stays_well_formed fs (<[l := n]> fs).
Proof. intros Hl Hp _ Hwf. apply well_formed_insert; [done|congruence|done]. Qed.

Lemma stays_well_formed_overwrite (fs : fsmap) (l : path) (c c' : content) :
  node_at fs l = Some (File c) → stays_well_formed fs (<[l := File c']> fs).
Proof.
  intros Hl Hwf. apply well_formed_insert; [done|congruence|].
  destruct l; [done|]. apply (map_Forall_lookup_1 _ _ _ _ Hwf Hl).
Qed.

Lemma link_free_ext (fs fs' : fsmap) (d : path) :
  (∀ q, under d q = true → fs' !! q = fs !! q) → link_free fs d → link_free fs' d.
Proof.
  intros Hext Hlf. apply map_Forall_lookup_2. intros k n Hk Hu.
  rewrite Hext in Hk by done. by apply (map_Forall_lookup_1 _ _ _ _ Hlf Hk).
Qed.

Lemma link_free_sub (fs : fsmap) (d d' : path) :
  under d d' = true → link_free fs d → link_free fs d'.
Proof.
  intros Hu Hlf. apply map_Forall_lookup_2. intros k n Hk Hu'.
  apply (map_Forall_lookup_1 _ _ _ _ Hlf Hk). by apply (under_trans _ d').
Qed.

Section Build_folders.
Variable E : env.

Lemma mods_output_apart (q : path) :
  under (mods_dir E) q = true → under (output_dir E) q = false.
Proof. by apply entry_apart. Qed.

Lemma output_mods_apart (q : path) :
  under (output_dir E) q = true → under (mods_dir E) q = false.
Proof. by apply entry_apart. Qed.

Lemma overlay_under_mods (a : string) (r : path) :
  under (mods_dir E) (mods_dir E ++ a :: r) = true.
Proof. apply under_true. eauto. Qed.

Lemma overlays_agree_spec (fs : fsmap) (a b : string) (r : path) (c : content) :
  overlays_agree E fs → fs !! (mods_dir E ++ a :: r) = Some (File c) →
  b ∈ listdir fs (mods_dir E) → fs !! (mods_dir E ++ b :: r) ≠ Some Dir.
Proof.
  intros Hag Ha Hb. pose proof (map_Forall_lookup_1 _ _ _ _ Hag Ha) as H. simpl in H.
  rewrite strip_prefix_app in H. rewrite Forall_forall in H. by apply H.
Qed.

Lemma overlay_listed (fs : fsmap) (a : string) (r : path) :
  well_formed fs → is_Some (fs !! (mods_dir E ++ a :: r)) → a ∈ listdir fs (mods_dir E).
Proof.
  intros Hwf Hs. apply elem_of_listdir. destruct (decide (r = [])) as [->|Hr]; [done|].
  assert (node_at fs ((mods_dir E ++ [a]) ++ r) = fs !! (mods_dir E ++ a :: r)) as Heq.
  { rewrite <- app_assoc. simpl. by destruct (mods_dir E). }
  pose proof (well_formed_ancestor fs (mods_dir E ++ [a]) r Hwf) as Hd.
  rewrite <- app_assoc in Hd. simpl in Hd. rewrite node_at_snoc in Hd.
  rewrite Hd; [eauto|done..].
Qed.

Lemma build_last_wins_core (L : list path) (fs fs1 : fsmap) (a : string) (r : path)
    (c : content) :
  StronglySorted name_le L → NoDup L → mods_dir E ++ [a] ∈ L →
  (∀ l1 a l2 r c, L = l1 ++ (mods_dir E ++ [a]) :: l2 →
     fs !! (mods_dir E ++ a :: r) = Some (File c) →
     (∀ b c', mods_dir E ++ [b] ∈ l2 → fs !! (mods_dir E ++ b :: r) ≠ Some (File c')) →
     fs1 !! (output_dir E ++ r) = Some (File c)) →
  fs !! (mods_dir E ++ a :: r) = Some (File c) →
  (∀ b c', fs !! (mods_dir E ++ b :: r) = Some (File c') → String.leb b a = true) →
  fs1 !! (output_dir E ++ r) = Some (File c).
Proof.
  intros HSS HND Hin Hlast Hc Hmax.
  apply list_elem_of_split in Hin as (l1 & l2 & Heq).
  apply (Hlast l1 a l2 r c Heq Hc). intros b c' Hbin Hc'.
  assert (String.leb a b = true) as Hab.
  { rewrite Heq in HSS. apply StronglySorted_app_1_r in HSS.
    apply StronglySorted_inv in HSS as [_ Hall]. rewrite Forall_forall in Hall.
    specialize (Hall _ Hbin). unfold name_le in Hall. by rewrite !basename_snoc in Hall. }
  assert (a = b) as -> by (apply String.leb_antisym; eauto).
  rewrite Heq in HND. apply NoDup_app in HND as (_ & _ & HND).
  apply NoDup_cons in HND as [Hnin _]. done.
Qed.

(** What holds of output/ when the overlays in [done] have been merged,
    in that order, starting from the file system [fs] with an empty
    output/. *)
Let build_inv (fs : fsmap) (done : list path) (fs1 : fsmap) : Prop :=
  (∀ q, under (output_dir E) q = false → fs1 !! q = fs !! q) ∧
  (physical_dir fs1 (output_dir E) ∧ link_free fs1 (output_dir E) ∧ well_formed fs1) ∧
  (∀ r, r ≠ [] → fs1 !! (output_dir E ++ r) = Some Dir →
        ∃ a, mods_dir E ++ [a] ∈ done ∧ fs !! (mods_dir E ++ a :: r) = Some Dir) ∧
  (∀ r c, fs1 !! (output_dir E ++ r) = Some (File c) →
          ∃ a, mods_dir E ++ [a] ∈ done ∧ fs !! (mods_dir E ++ a :: r) = Some (File c)) ∧
  (∀ l1 a l2 r c, done = l1 ++ (mods_dir E ++ [a]) :: l2 →
     fs !! (mods_dir E ++ a :: r) = Some (File c) →
     (∀ b c', mods_dir E ++ [b] ∈ l2 → fs !! (mods_dir E ++ b :: r) ≠ Some (File c')) →
     fs1 !! (output_dir E ++ r) = Some (File c)) ∧
  (∀ a r, mods_dir E ++ [a] ∈ done → fs !! (mods_dir E ++ a :: r) = Some Dir →
          fs1 !! (output_dir E ++ r) = Some Dir).

Lemma build_step (fs : fsmap) (a : string) (done : list path) (w1 w2 : world) :
  well_formed fs → fs !! mods_dir E = Some Dir → link_free fs (mods_dir E) →
  fs !! (mods_dir E ++ [a]) = Some Dir → overlays_agree E fs →
  build_inv fs done (w_fs w1) →
  process_mod E (mods_dir E ++ [a]) w1 = (inr tt, w2) →
  build_inv fs (done ++ [mods_dir E ++ [a]]) (w_fs w2).
Proof.
  intros Hwf Hmods Hlf Ha Hag (Hsame & (Ho & Hlfo & Hwf1) & Hdirs & Hfiles & Hlast & Hmir)
    Hrun.
  set (x := mods_dir E ++ [a]).
  assert (∀ r, x ++ r = mods_dir E ++ a :: r) as Hxr
    by (intros r; unfold x; by rewrite <- app_assoc).
  assert (∀ q, under (mods_dir E) q = true → w_fs w1 !! q = fs !! q) as Hsrc.
  { intros q Hq. apply Hsame. by apply mods_output_apart. }
  assert (physical_dir (w_fs w1) (builder_dir E)) as Hb1.
  { apply physical_dir_parent in Ho. unfold output_dir in Ho. by rewrite parent_snoc in Ho. }
  assert (physical_dir (w_fs w1) x) as Hx1.
  { unfold x, mods_dir. apply physical_dir_snoc; [apply physical_dir_snoc; [done|]|].
    - fold (mods_dir E). rewrite Hsrc; [done|apply under_refl].
    - fold (mods_dir E). rewrite Hsrc; [done|]. apply under_true. by exists [a]. }
  assert (under x (output_dir E) = false) as Hsd.
  { destruct (under x (output_dir E)) eqn:Hu; [|done].
    assert (under (mods_dir E) (output_dir E) = true) as Hmo.
    { apply (under_trans _ x); [|done]. apply under_true. by exists [a]. }
    apply mods_output_apart in Hmo. by rewrite under_refl in Hmo. }
  assert (under (output_dir E) x = false) as Hds.
  { apply mods_output_apart. apply under_true. by exists [a]. }
  assert (link_free (w_fs w1) x) as Hlfx.
  { apply (link_free_sub _ (mods_dir E)); [apply under_true; by exists [a]|].
    by apply (link_free_ext fs). }
  assert (merge_pre (w_fs w1) x (output_dir E) (w_fs w1)) as HPre.
  { split_and!; [done| |done|done]. unfold output_dir. by rewrite parent_snoc. }
  assert (merge_fits (w_fs w1) x (output_dir E) (w_fs w1)) as Hfit.
  { intros r c Hr Hc Hd. destruct (Hdirs r Hr Hd) as (a' & _ & Ha').
    rewrite Hxr, Hsrc in Hc by apply overlay_under_mods.
    apply (overlays_agree_spec fs a a' r c Hag Hc); [|done].
    apply (overlay_listed fs a' r Hwf). by rewrite Ha'. }
  unfold process_mod, bind at 1, gets at 1 in Hrun. simpl in Hrun. fold x in Hrun.
  assert (path_is_dir E (w_fs w1) x = true) as Hisd
    by (unfold path_is_dir; by rewrite stat_physical_dir).
  rewrite Hisd in Hrun.
  destruct (copy_tree_exact E (w_fs w1) x (output_dir E) Hx1 Hlfx Hwf1 Hsd Hds
              w1 w2 HPre Hfit Hrun)
    as ((_ & _ & Hlfo2 & Hsrc2) & (Hout & Hg & Hdm & _) & [Hstay Horigin] & Hcopied).
  pose proof (copy_tree_additive E stays_well_formed
                stays_well_formed_create stays_well_formed_overwrite x (output_dir E) w1)
    as Hwf2.
  rewrite Hrun in Hwf2. simpl in Hwf2. specialize (Hwf2 Hwf1).
  pose proof (walk_result E (w_fs w1) x (output_dir E) Hx1 Hlfx Hwf1 Hsd Hds
                (recursion_limit E) [] w1 w2 HPre I) as Hres.
  rewrite !app_nil_r in Hres. simpl in Hres.
  destruct (Hres Hrun) as (_ & _ & _ & Hmirror & _).
  split_and!.
  - intros q Hq. rewrite Hout by congruence. by apply Hsame.
  - by apply (physical_dir_grows (w_fs w1)).
  - done.
  - done.
  - intros r Hr Hd. destruct (Hdm _ Hd) as [Hd1|(a' & Heq & Ha')].
    + destruct (Hdirs r Hr Hd1) as (b & Hb & Hbd). exists b. split; [|done].
      apply elem_of_app. by left.
    + apply app_inv_head in Heq as <-. exists a. split; [apply elem_of_app; right; left|].
      rewrite <- Hsrc by apply overlay_under_mods. rewrite <- Hxr.
      destruct (x ++ r) eqn:Hxe; [by destruct x, r|]. done.
  - intros r c Hc. destruct (Horigin _ _ Hc) as [Hc1|(r' & Hr' & Heq & Hc')].
    + destruct (Hfiles r c Hc1) as (b & Hb & Hbf). exists b. split; [|done].
      apply elem_of_app. by left.
    + apply app_inv_head in Heq as <-. exists a. split; [apply elem_of_app; right; left|].
      rewrite <- Hsrc by apply overlay_under_mods. by rewrite <- Hxr.
  - intros l1 a0 l2 r c Hsplit Hc Hlater.
    apply snoc_split in Hsplit as [(-> & -> & Heq)|(l2' & -> & ->)].
    + apply app_inv_head in Heq. injection Heq as <-.
      assert (r ≠ []) as Hr by (intros ->; congruence).
      apply Hcopied; [done|]. rewrite Hxr, Hsrc; [done|apply overlay_under_mods].
    + apply Hstay.
      * apply (Hlast l1 a0 l2' r c eq_refl Hc). intros b c' Hb.
        apply Hlater. apply elem_of_app. by left.
      * intros r' c' Hr' Heq Hc'. apply app_inv_head in Heq as <-.
        rewrite Hxr, Hsrc in Hc' by apply overlay_under_mods.
        apply (Hlater a c'); [|done]. apply elem_of_app. right. left.
  - intros a0 r Hin Hd. apply elem_of_app in Hin as [Hin|Hin].
    + destruct (Hg _ _ (Hmir a0 r Hin Hd)) as (n' & Hn' & Hk). simpl in Hk. by subst.
    + apply list_elem_of_singleton, app_inv_head in Hin. injection Hin as ->.
      assert (node_at (w_fs w2) (output_dir E ++ r) = Some Dir) as Hn.
      { apply Hmirror. rewrite Hxr. rewrite <- Hsrc in Hd by apply overlay_under_mods.
        by destruct (mods_dir E). }
      destruct (decide (r = [])) as [->|Hr].
      * rewrite app_nil_r. unfold output_dir. rewrite <- node_at_snoc.
        apply physical_dir_node. by apply (physical_dir_grows (w_fs w1)).
      * destruct (output_dir E ++ r) eqn:Hq; [by destruct (output_dir E), r|done].
Qed.

Lemma build_run (w w' : world) :
  physical_dir (w_fs w) (builder_dir E) → well_formed (w_fs w) →
  w_fs w !! output_dir E = None ∨ w_fs w !! output_dir E = Some Dir →
  w_fs w !! mods_dir E = Some Dir → link_free (w_fs w) (mods_dir E) →
  folder_overlays E (w_fs w) → overlays_agree E (w_fs w) →
  build_mods E w = (inr tt, w') →
  ∃ L, StronglySorted name_le L ∧ NoDup L ∧
       (∀ a, mods_dir E ++ [a] ∈ L ↔ a ∈ listdir (w_fs w) (mods_dir E)) ∧
       build_inv (w_fs w) L (w_fs w').
Proof.
  intros Hb Hwf Hout Hmods Hlf Hfold Hag Hrun.
  unfold build_mods in Hrun. apply bind_inr in Hrun as ([] & w0 & Hclear & Hrun).
  destruct (clear_output_run E w Hb Hwf Hout)
    as (w0' & Hclear' & _ & Ho0 & Hbelow0 & Hsame0 & Hwf0).
  rewrite Hclear in Hclear'. injection Hclear' as <-.
  assert (∀ q, under (mods_dir E) q = true → w_fs w0 !! q = w_fs w !! q) as Hsrc0.
  { intros q Hq. apply Hsame0. by apply mods_output_apart. }
  assert (physical_dir (w_fs w0) (mods_dir E)) as Hm0.
  { unfold mods_dir. apply physical_dir_snoc.
    - apply physical_dir_parent in Ho0. unfold output_dir in Ho0.
      by rewrite parent_snoc in Ho0.
    - fold (mods_dir E). rewrite Hsrc0; [done|apply under_refl]. }
  apply bind_inr in Hrun as (items & w0' & Hiter & Hrun).
  unfold path_iterdir, bind, gets, lift, ret in Hiter. simpl in Hiter.
  rewrite scandir_physical_dir in Hiter by done. simpl in Hiter.
  injection Hiter as <- <-.
  set (items := (λ n, mods_dir E ++ [n]) <$> listdir (w_fs w0) (mods_dir E)) in *.
  assert (∀ a, a ∈ listdir (w_fs w0) (mods_dir E) ↔ a ∈ listdir (w_fs w) (mods_dir E))
    as Hlist.
  { intros a. rewrite !elem_of_listdir, Hsrc0; [done|]. apply under_true. by exists [a]. }
  assert (∀ a, mods_dir E ++ [a] ∈ merge_sort name_le items
               ↔ a ∈ listdir (w_fs w) (mods_dir E)) as HL.
  { intros a. rewrite merge_sort_Permutation, <- Hlist. unfold items.
    rewrite list_elem_of_fmap. split.
    - intros (n & Heq & Hn). apply app_inj_tail in Heq as [_ ->]. done.
    - intros Hn. eauto. }
  exists (merge_sort name_le items). split_and!.
  - apply StronglySorted_merge_sort; apply _.
  - rewrite merge_sort_Permutation. unfold items. apply NoDup_fmap_2; [|apply NoDup_listdir].
    intros n1 n2 Heq. by apply app_inj_tail in Heq as [_ ->].
  - done.
  - refine (for_each_inr (λ done w1, build_inv (w_fs w) done (w_fs w1)) _ _ w0 w' _ _ Hrun).
    + intros done x rest w1 w2 Hsplit Hinv Hx.
      assert (x ∈ merge_sort name_le items) as Hin
        by (rewrite Hsplit; apply elem_of_app; right; left).
      rewrite merge_sort_Permutation in Hin. unfold items in Hin.
      apply list_elem_of_fmap in Hin as (a & -> & Ha). apply Hlist in Ha.
      apply (build_step (w_fs w) a done w1 w2); try done.
      unfold folder_overlays in Hfold. rewrite Forall_forall in Hfold. by apply Hfold.
    + split_and!; [done|done| |done| | | |].
      * apply map_Forall_lookup_2. intros k n Hk Hu. apply under_true in Hu as [r ->].
        destruct (decide (r = [])) as [->|Hr]; [|by rewrite Hbelow0 in Hk].
        rewrite app_nil_r in Hk. apply physical_dir_node in Ho0.
        unfold output_dir in Ho0, Hk. rewrite node_at_snoc in Ho0. by simplify_eq.
      * intros r Hr Hd. by rewrite Hbelow0 in Hd.
      * intros r c Hc. destruct (decide (r = [])) as [->|Hr].
        -- rewrite app_nil_r in Hc. apply physical_dir_node in Ho0.
           unfold output_dir in Ho0, Hc. rewrite node_at_snoc in Ho0. congruence.
        -- by rewrite Hbelow0 in Hc.
      * intros l1 a l2 r c Hsplit. by destruct l1.
      * intros a r Hin. by apply elem_of_nil in Hin.
Qed.

(** Among the overlays that hold a file at a relative path, one sorts
    last. *)
Lemma last_of_list (p : string → bool) (l : list string) :
  (∃ a, a ∈ l ∧ p a = true) →
  ∃ a, a ∈ l ∧ p a = true ∧ ∀ b, b ∈ l → p b = true → String.leb b a = true.
Proof.
  induction l as [|x l IH]; intros (a & Hin & Ha); [by apply elem_of_nil in Hin|].
  destruct (decide (Exists (λ b, p b = true) l)) as [Hex|Hno].
  - apply Exists_exists in Hex. destruct (IH Hex) as (m & Hm & Hpm & Hmax).
    destruct (p x && String.leb m x) eqn:Hx.
    + apply andb_true_iff in Hx as [Hpx Hmx]. exists x. split_and!; [left|done|].
      intros b Hb Hpb. apply elem_of_cons in Hb as [->|Hb].
      * by destruct (String.leb_total x x).
      * apply (string_leb_trans b m x); auto.
    + exists m. split_and!; [by right|done|].
      intros b Hb Hpb. apply elem_of_cons in Hb as [->|Hb]; [|auto].
      rewrite Hpb in Hx. simpl in Hx. destruct (String.leb_total m x); [congruence|done].
  - exists x. assert (a = x) as ->.
    { apply elem_of_cons in Hin as [->|Hin]; [done|].
      exfalso. apply Hno, Exists_exists. eauto. }
    split_and!; [left|done|]. intros b Hb Hpb. apply elem_of_cons in Hb as [->|Hb].
    + by destruct (String.leb_total x x).
    + exfalso. apply Hno, Exists_exists. eauto.
Qed.

(** output/ after a build is a function of the overlays: two file
    systems that both are the result of merging the same overlays are
    the same below output/. *)
Lemma build_inv_determines (fs fsA fsB : fsmap) (LA LB : list path) (r : path) :
  well_formed fs → r ≠ [] →
  StronglySorted name_le LA → NoDup LA →
  (∀ a, mods_dir E ++ [a] ∈ LA ↔ a ∈ listdir fs (mods_dir E)) →
  StronglySorted name_le LB → NoDup LB →
  (∀ a, mods_dir E ++ [a] ∈ LB ↔ a ∈ listdir fs (mods_dir E)) →
  build_inv fs LA fsA → build_inv fs LB fsB →
  fsB !! (output_dir E ++ r) = fsA !! (output_dir E ++ r).
Proof.
  intros Hwf Hr HSA HNA HLA HSB HNB HLB
    (_ & (_ & HlfA & _) & HdirsA & HfilesA & HlastA & HmirA)
    (_ & (_ & HlfB & _) & HdirsB & HfilesB & HlastB & HmirB).
  assert (∀ a c, fs !! (mods_dir E ++ a :: r) = Some (File c) →
            ∃ c', fsA !! (output_dir E ++ r) = Some (File c') ∧
                  fsB !! (output_dir E ++ r) = Some (File c')) as Hfile.
  { intros a c Hc.
    destruct (last_of_list
                (λ b, match fs !! (mods_dir E ++ b :: r) with
                      | Some (File _) => true | _ => false end)
                (listdir fs (mods_dir E))) as (m & Hm & Hpm & Hmax).
    { exists a. split; [apply (overlay_listed fs a r Hwf); by rewrite Hc|by rewrite Hc]. }
    destruct (fs !! (mods_dir E ++ m :: r)) as [[cm| | |]|] eqn:Hcm; try done.
    assert (∀ b c', fs !! (mods_dir E ++ b :: r) = Some (File c') → String.leb b m = true)
      as Hmax'.
    { intros b c' Hb. apply Hmax; [|by rewrite Hb].
      apply (overlay_listed fs b r Hwf). by rewrite Hb. }
    exists cm. split.
    - apply (build_last_wins_core LA fs fsA m r cm); try done. by apply HLA.
    - apply (build_last_wins_core LB fs fsB m r cm); try done. by apply HLB. }
  assert (∀ a, fs !! (mods_dir E ++ a :: r) = Some Dir →
            fsA !! (output_dir E ++ r) = Some Dir ∧
            fsB !! (output_dir E ++ r) = Some Dir) as Hdir.
  { intros a Ha.
    assert (a ∈ listdir fs (mods_dir E)) as Hin
      by (apply (overlay_listed fs a r Hwf); by rewrite Ha).
    split; [apply (HmirA a r)|apply (HmirB a r)]; try done; [by apply HLA|by apply HLB]. }
  assert (under (output_dir E) (output_dir E ++ r) = true) as Hu
    by (apply under_true; eauto).
  destruct (fsA !! (output_dir E ++ r)) as [[c| | |]|] eqn:HA.
  - destruct (HfilesA r c HA) as (a & _ & Ha).
    destruct (Hfile a c Ha) as (c' & HA' & HB'). congruence.
  - destruct (HdirsA r Hr HA) as (a & _ & Ha). by destruct (Hdir a Ha) as [_ ->].
  - by pose proof (map_Forall_lookup_1 _ _ _ _ HlfA HA Hu).
  - by pose proof (map_Forall_lookup_1 _ _ _ _ HlfA HA Hu).
  - destruct (fsB !! (output_dir E ++ r)) as [[c| | |]|] eqn:HB; [| | | |done].
    + destruct (HfilesB r c HB) as (a & _ & Ha).
      destruct (Hfile a c Ha) as (c' & HA' & HB'). congruence.
    + destruct (HdirsB r Hr HB) as (a & _ & Ha). destruct (Hdir a Ha) as [HA' _]. congruence.
    + by pose proof (map_Forall_lookup_1 _ _ _ _ HlfB HB Hu).
    + by pose proof (map_Forall_lookup_1 _ _ _ _ HlfB HB Hu).
Qed.

(** The invariant only reads the overlays and what lies outside
    output/: it may be stated from any file system that agrees there. *)
Lemma build_inv_ext (fs fs' : fsmap) (done : list path) (fs1 : fsmap) :
  (∀ q, under (output_dir E) q = false → fs' !! q = fs !! q) →
  build_inv fs' done fs1 → build_inv fs done fs1.
Proof.
  intros Hext (Hsame & (Ho & Hlfo & Hwf1) & Hdirs & Hfiles & Hlast & Hmir).
  assert (∀ a r, fs' !! (mods_dir E ++ a :: r) = fs !! (mods_dir E ++ a :: r)) as Hm
    by (intros a r; apply Hext, mods_output_apart, overlay_under_mods).
  split_and!; try done.
  - intros q Hq. by rewrite Hsame, Hext.
  - intros r Hr Hd. destruct (Hdirs r Hr Hd) as (a & Hin & Ha). exists a. by rewrite <- Hm.
  - intros r c Hc. destruct (Hfiles r c Hc) as (a & Hin & Ha). exists a. by rewrite <- Hm.
  - intros l1 a l2 r c Hs Hc Hl. apply (Hlast l1 a l2 r c Hs); [by rewrite Hm|].
    intros b c' Hb. rewrite Hm. by apply Hl.
  - intros a r Hin Hd. apply (Hmir a r Hin). by rewrite Hm.
Qed.

(** Building twice in a row, from folder overlays: when both builds
    return, the second leaves the file system exactly as the first left
    it.  output/ is emptied and filled again with the same folders and
    the same bytes, and nothing outside output/ changes. *)
Theorem build_twice_gives_same_output (w w1 w2 : world) :
  physical_dir (w_fs w) (builder_dir E) → well_formed (w_fs w) →
  w_fs w !! output_dir E = None ∨ w_fs w !! output_dir E = Some Dir →
  w_fs w !! mods_dir E = Some Dir → link_free (w_fs w) (mods_dir E) →
  folder_overlays E (w_fs w) → overlays_agree E (w_fs w) →
  build_mods E w = (inr tt, w1) → build_mods E w1 = (inr tt, w2) →
  w_fs w2 = w_fs w1.
Proof.
  intros Hb Hwf Hout Hmods Hlf Hfold Hag Hrun1 Hrun2.
  destruct (build_run w w1 Hb Hwf Hout Hmods Hlf Hfold Hag Hrun1)
    as (LA & HSA & HNA & HLA & HinvA).
  pose proof HinvA as (Hext & (HoA & HlfA & HwfA) & _).
  assert (∀ a r, w_fs w1 !! (mods_dir E ++ a :: r) = w_fs w !! (mods_dir E ++ a :: r))
    as Hm by (intros a r; apply Hext, mods_output_apart, overlay_under_mods).
  assert (∀ a, a ∈ listdir (w_fs w1) (mods_dir E) ↔ a ∈ listdir (w_fs w) (mods_dir E))
    as Hlist by (intros a; by rewrite !elem_of_listdir, Hm).
  assert (physical_dir (w_fs w1) (builder_dir E)) as Hb1.
  { apply physical_dir_parent in HoA. unfold output_dir in HoA.
    by rewrite parent_snoc in HoA. }
  assert (w_fs w1 !! output_dir E = Some Dir) as Hout1.
  { apply physical_dir_node in HoA. unfold output_dir in *.
    by rewrite node_at_snoc in HoA. }
  assert (w_fs w1 !! mods_dir E = Some Dir) as Hmods1.
  { rewrite Hext; [done|]. apply mods_output_apart, under_refl. }
  assert (link_free (w_fs w1) (mods_dir E)) as Hlf1.
  { apply (link_free_ext (w_fs w)); [|done]. intros q Hq. by apply Hext, mods_output_apart. }
  assert (folder_overlays E (w_fs w1)) as Hfold1.
  { unfold folder_overlays in *. rewrite Forall_forall in *. intros a Ha.
    rewrite Hm. apply Hfold. by apply Hlist. }
  assert (overlays_agree E (w_fs w1)) as Hag1.
  { apply map_Forall_lookup_2. intros k n Hk.
    destruct (strip_prefix (mods_dir E) k) as [[|a r]|] eqn:Hs; try done.
    destruct n as [c| | |]; try done. apply strip_prefix_Some in Hs as ->.
    rewrite Hm in Hk. apply Forall_forall. intros b Hbin. rewrite Hm.
    apply (overlays_agree_spec (w_fs w) a b r c Hag Hk). by apply Hlist. }
  destruct (build_run w1 w2 Hb1 HwfA (or_intror Hout1) Hmods1 Hlf1 Hfold1 Hag1 Hrun2)
    as (LB & HSB & HNB & HLB & HinvB).
  apply (build_inv_ext (w_fs w)) in HinvB; [|done].
  apply map_eq. intros q. destruct (under (output_dir E) q) eqn:Hu.
  - apply under_true in Hu as [r ->]. destruct (decide (r = [])) as [->|Hr].
    + rewrite app_nil_r, Hout1. destruct HinvB as (_ & (HoB & _) & _).
      apply physical_dir_node in HoB. unfold output_dir in *.
      by rewrite node_at_snoc in HoB.
    + apply (build_inv_determines (w_fs w) (w_fs w1) (w_fs w2) LA LB r); try done.
      intros a. by rewrite HLB.
  - destruct HinvB as (HsameB & _). by rewrite HsameB, Hext.
Qed.
End Build_folders.

Section Build_theorems.
Variable E : env.

(** A build from folder overlays on a POSIX system, where [sorted()]
    compares the names character by character, when it returns: if the
    overlay [a] holds a file at the relative path [r], and every overlay
    that holds a file there has a name that sorts no later than [a],
    then output/ holds [a]'s bytes at [r].  Nothing outside output/ is
    changed.  The overlays are real folders without links, and no
    overlay has a file where another has a folder. *)
Theorem build_last_overlay_wins (w w' : world) :
  os_nt E = false →
  physical_dir (w_fs w) (builder_dir E) → well_formed (w_fs w) →
  w_fs w !! output_dir E = None ∨ w_fs w !! output_dir E = Some Dir →
  w_fs w !! mods_dir E = Some Dir → link_free (w_fs w) (mods_dir E) →
  folder_overlays E (w_fs w) → overlays_agree E (w_fs w) →
  build_mods E w = (inr tt, w') →
  (∀ a r c, w_fs w !! (mods_dir E ++ a :: r) = Some (File c) →
     (∀ b c', w_fs w !! (mods_dir E ++ b :: r) = Some (File c') → String.leb b a = true) →
     w_fs w' !! (output_dir E ++ r) = Some (File c)) ∧
  (∀ q, under (output_dir E) q = false → w_fs w' !! q = w_fs w !! q).
Proof.
  intros _ Hb Hwf Hout Hmods Hlf Hfold Hag Hrun.
  destruct (build_run E w w' Hb Hwf Hout Hmods Hlf Hfold Hag Hrun)
    as (L & HSS & HND & HL & Hsame & _ & _ & _ & Hlast & _).
  split; [|done]. intros a r c Hc Hmax.
  apply (build_last_wins_core E L (w_fs w) (w_fs w') a r c); try done.
  apply HL. apply (overlay_listed E _ a r Hwf). by rewrite Hc.
Qed.

(** After a build that returns, from overlays that are all real folders
    without links and of which none has a file where another has a
    folder, output/ holds nothing of its own: every file below output/
    is, with its bytes, a file of some overlay at the same relative
    path, and every folder below output/ is a folder of some overlay.
    What output/ held before the build is gone. *)
Theorem build_output_comes_from_overlays (w w' : world) :
  physical_dir (w_fs w) (builder_dir E) → well_formed (w_fs w) →
  w_fs w !! output_dir E = None ∨ w_fs w !! output_dir E = Some Dir →
  w_fs w !! mods_dir E = Some Dir → link_free (w_fs w) (mods_dir E) →
  folder_overlays E (w_fs w) → overlays_agree E (w_fs w) →
  build_mods E w = (inr tt, w') →
  (∀ r c, w_fs w' !! (output_dir E ++ r) = Some (File c) →
          ∃ a, w_fs w !! (mods_dir E ++ a :: r) = Some (File c)) ∧
  (∀ r, r ≠ [] → w_fs w' !! (output_dir E ++ r) = Some Dir →
        ∃ a, w_fs w !! (mods_dir E ++ a :: r) = Some Dir) ∧
  link_free (w_fs w') (output_dir E).
Proof.
  intros Hb Hwf Hout Hmods Hlf Hfold Hag Hrun.
  destruct (build_run E w w' Hb Hwf Hout Hmods Hlf Hfold Hag Hrun)
    as (L & _ & _ & _ & _ & (_ & Hlfo & _) & Hdirs & Hfiles & _).
  split_and!; [|  |done].
  - intros r c Hc. destruct (Hfiles r c Hc) as (a & _ & Ha). eauto.
  - intros r Hr Hd. destruct (Hdirs r Hr Hd) as (a & _ & Ha). eauto.
Qed.
End Build_theorems.

(** ** Build and deploy together *)

Lemma read_via_link (E : env) (fs : fsmap) (dest src r : path) (c : content) :
  0 < link_budget E → well_formed fs → physical_dir fs (parent dest) →
  fs !! dest = Some (Symlink src) → dest ≠ [] → physical_dir fs src →
  r ≠ [] → fs !! (src ++ r) = Some (File c) →
  read_file E fs (dest ++ r) = Some c.
Proof.
  intros Hb Hwf Hd Hl Hne Hs Hr Hc.
  destruct (exists_last Hr) as (r' & x & ->).
  assert (physical_dir fs (src ++ r')) as Hchain.
  { apply (source_file_chain fs src r' x); [done..|]. by rewrite Hc. }
  unfold read_file.
  rewrite (stat_plain E fs (dest ++ r' ++ [x]) ((src ++ r') ++ [x]) (File c)); [done| |done..].
  unfold lstat. destruct (link_budget E) as [|h]; [lia|].
  rewrite (locate_through_link h fs dest src); [|by eauto..|by destruct r'].
  rewrite app_assoc, locate_chain by done. simpl.
  by rewrite node_at_snoc, <- app_assoc, Hc.
Qed.

Section Build_and_deploy.
Variable E : env.
Hypothesis Hpriv : symlink_privilege E = true.
Hypothesis Hbudget : 0 < link_budget E.
Hypothesis Hbuilder : builder_dir E ≠ [].

(** The prompt answered with "b" on a POSIX system, with the right to
    make symbolic links, when it returns: the game folder shows the
    merged overlays.  If the overlay [a] holds a file at the relative
    path [r] and every overlay that holds a file there sorts no later
    than [a], then reading [game_dir/r] yields [a]'s bytes.  The
    overlays are all real folders without links, none has a file where
    another has a folder, and none has a top-level entry named like the
    loader's own folder. *)
Theorem build_and_deploy_shows_last_overlay (w w' : world) :
  os_nt E = false →
  physical_dir (w_fs w) (builder_dir E) → well_formed (w_fs w) → platform_ok E (w_fs w) →
  w_fs w !! output_dir E = None ∨ w_fs w !! output_dir E = Some Dir →
  w_fs w !! mods_dir E = Some Dir → link_free (w_fs w) (mods_dir E) →
  folder_overlays E (w_fs w) → overlays_agree E (w_fs w) →
  Forall (λ a, w_fs w !! (mods_dir E ++ [a; basename (builder_dir E)]) = None)
         (listdir (w_fs w) (mods_dir E)) →
  main E "b" w = (inr tt, w') →
  ∀ a r c, w_fs w !! (mods_dir E ++ a :: r) = Some (File c) →
    (∀ b c', w_fs w !! (mods_dir E ++ b :: r) = Some (File c') → String.leb b a = true) →
    read_file E (w_fs w') (game_dir E ++ r) = Some c.
Proof.
  intros _ Hb Hwf Hpl Hout Hmods Hlf Hfold Hag Hspare Hrun a r c Hc Hmax.
  unfold main in Hrun. rewrite bool_decide_eq_true_2 in Hrun by done.
  apply bind_inr in Hrun as ([] & w1 & Hbuild & Hdeploy).
  destruct (build_run E w w1 Hb Hwf Hout Hmods Hlf Hfold Hag Hbuild)
    as (L & HSS & HND & HL & Hsame & (Ho1 & Hlfo1 & Hwf1) & Hdirs & Hfiles & Hlast & _).
  assert (a ∈ listdir (w_fs w) (mods_dir E)) as Ha
    by (apply (overlay_listed E _ a r Hwf); by rewrite Hc).
  assert (w_fs w1 !! (output_dir E ++ r) = Some (File c)) as Hc1.
  { apply (build_last_wins_core E L (w_fs w) (w_fs w1) a r c); try done. by apply HL. }
  assert (platform_ok E (w_fs w1)) as Hpl1.
  { intros Hnt. apply map_Forall_lookup_2. intros k n Hk.
    destruct (under (output_dir E) k) eqn:Hu.
    - pose proof (map_Forall_lookup_1 _ _ _ _ Hlfo1 Hk Hu). by destruct n.
    - rewrite Hsame in Hk by done. apply (map_Forall_lookup_1 _ _ _ _ (Hpl Hnt) Hk). }
  assert (basename (builder_dir E) ∉ listdir (w_fs w1) (output_dir E)) as Hnb.
  { intros Hin. apply elem_of_listdir in Hin as [n Hn].
    assert (∃ a', w_fs w !! (mods_dir E ++ [a'; basename (builder_dir E)]) = Some n)
      as [a' Ha'].
    { pose proof (map_Forall_lookup_1 _ _ _ _ Hlfo1 Hn) as Hnl.
      destruct n as [c0| |t|t].
      - destruct (Hfiles _ _ Hn) as (a' & _ & Ha'). eauto.
      - destruct (Hdirs [basename (builder_dir E)] ltac:(done) Hn) as (a' & _ & Ha'). eauto.
      - discriminate Hnl. apply under_true. eauto.
      - discriminate Hnl. apply under_true. eauto. }
    rewrite Forall_forall in Hspare. rewrite Hspare in Ha'; [done|].
    apply (overlay_listed E _ a' [basename (builder_dir E)] Hwf). by rewrite Ha'. }
  destruct (deploy_result E Hpriv Hbuilder w1 Ho1 (conj Hwf1 Hpl1) Hnb
              (output_entries_real E _ Hlfo1))
    as (w2 & Hdeploy2 & Hg2 & [Hwf2 _] & Hsame2 & Hdep).
  rewrite Hdeploy in Hdeploy2. injection Hdeploy2 as <-.
  assert (∀ r', w_fs w' !! (output_dir E ++ r') = w_fs w1 !! (output_dir E ++ r')) as Hout2.
  { intros r'. apply Hsame2. apply under_true. exists ("output" :: r').
    unfold output_dir. by rewrite <- app_assoc. }
  destruct r as [|n r'].
  { unfold folder_overlays in Hfold. rewrite Forall_forall in Hfold.
    rewrite (Hfold a Ha) in Hc. done. }
  destruct (decide (r' = [])) as [->|Hr'].
  - apply read_file_physical; [done|]. by rewrite (Hdep n (File c) Hc1).
  - assert (w_fs w1 !! (output_dir E ++ [n]) = Some Dir) as Hn1.
    { pose proof (well_formed_ancestor (w_fs w1) (output_dir E ++ [n]) r' Hwf1) as Hd.
      rewrite <- app_assoc, node_at_snoc in Hd. simpl in Hd. apply Hd; [|done].
      by rewrite Hc1. }
    replace (game_dir E ++ n :: r') with ((game_dir E ++ [n]) ++ r')
      by (by rewrite <- app_assoc).
    apply (read_via_link E _ _ (output_dir E ++ [n])); try done.
    + by rewrite parent_snoc.
    + by rewrite (Hdep n Dir Hn1).
    + by destruct (game_dir E).
    + apply physical_dir_snoc; [|by rewrite Hout2].
      apply (output_physical E Hbuilder). apply (output_physical E Hbuilder) in Ho1
        as (_ & Hbd & Hod).
      split_and!; [done| |].
      * rewrite Hsame2; [done|apply under_refl].
      * specialize (Hout2 []). rewrite app_nil_r in Hout2. by rewrite Hout2.
    + rewrite <- app_assoc. simpl. by rewrite Hout2.
Qed.
End Build_and_deploy.

(** ** A build without a mods folder *)

(** When mods/ does not exist, [build_mods] raises [FileNotFoundError],
    but only after it has emptied output/: what output/ held is gone. *)
Theorem build_without_mods_empties_output (E : env) (w : world) :
  physical_dir (w_fs w) (builder_dir E) → well_formed (w_fs w) →
  w_fs w !! output_dir E = None ∨ w_fs w !! output_dir E = Some Dir →
  w_fs w !! mods_dir E = None →
  ∃ w', build_mods E w = (inl FileNotFoundError, w') ∧
        physical_dir (w_fs w') (output_dir E) ∧
        (∀ r, r ≠ [] → w_fs w' !! (output_dir E ++ r) = None) ∧
        (∀ q, under (output_dir E) q = false → w_fs w' !! q = w_fs w !! q).
Proof.
  intros Hb Hwf Hout Hmods.
  destruct (clear_output_run E w Hb Hwf Hout) as (w0 & Hclear & _ & Ho0 & Hbelow & Hsame & _).
  exists w0. split; [|done].
  unfold build_mods, bind at 1. rewrite Hclear.
  unfold bind at 1, path_iterdir, bind at 1, gets at 1. simpl.
  assert (scandir E (w_fs w0) (mods_dir E) = inl FileNotFoundError) as ->; [|done].
  unfold scandir. rewrite (stat_absent E _ _ FileNotFoundError); [done|].
  unfold mods_dir. rewrite lstat_physical.
  - fold (mods_dir E). rewrite Hsame, Hmods; [done|].
    apply (entry_apart _ "mods" "output"); [done|apply under_refl].
  - apply physical_dir_parent in Ho0. unfold output_dir in Ho0. by rewrite parent_snoc in Ho0.
Qed.

(** ** The reparse point probe *)

(** For a path in a real directory, [_is_windows_reparse_point] answers
    [True] exactly on Windows and when a symbolic link or a junction sits
    at the path; where nothing sits at the path it answers [False]
    instead of failing. *)
Theorem reparse_point_probe (E : env) (fs : fsmap) (d : path) (x : string) :
  physical_dir fs d →
  _is_windows_reparse_point E fs (d ++ [x])
  = os_nt E && match fs !! (d ++ [x]) with Some n => is_link n | None => false end.
Proof.
  intros Hd. destruct (fs !! (d ++ [x])) as [n|] eqn:Hn.
  - by destruct (remover_queries E fs d x n Hd Hn) as (_ & _ & -> & _).
  - destruct (queries_of_absent E fs (d ++ [x]) FileNotFoundError) as (_ & _ & ->).
    + by rewrite lstat_physical, Hn.
    + by rewrite andb_false_r.
Qed.

(** ** What unpacking writes *)

Section Makedirs_only.
Variable E : env.
Context (J : relation fsmap) `{!PreOrder J}.
Hypothesis J_mkdir : ∀ fs l, node_at fs l = None → J fs (<[l := Dir]> fs).

Lemma os_makedirs_only (exist_ok : bool) (name : path) :
  keeps J (os_makedirs E exist_ok name).
Proof.
  unfold os_makedirs. generalize (length name) as n. intros n. revert name.
  induction n as [|n IH]; intros name; simpl;
    (apply keeps_bind; [apply _| |intros _]);
    try (apply keeps_bind; [apply _|by apply keeps_try, os_mkdir_only|];
         intros [e|[]]; [apply (mkdir_handler_additive E J exist_ok name)|apply keeps_ret, _]);
    (apply keeps_bind; [apply _|apply keeps_gets, _|]); intros ex;
    destruct (bool_decide (name ≠ []) && negb ex); try apply keeps_ret, _.
  apply keeps_bind; [apply _|apply keeps_try, IH|].
  intros [e|[]]; [|apply keeps_ret, _].
  destruct e; first [apply keeps_ret, _|apply keeps_raise, _].
Qed.
End Makedirs_only.

Section Extraction_result.
Variable E : env.

(** One member that is unpacked without an error: no file changes but the
    one the member names, and that one holds the member's bytes. *)
Lemma extract_member_result (target : path) (p : path) (data : option content)
    (w w' : world) :
  physical_dir (w_fs w) (parent target) → link_free (w_fs w) target →
  extract_member E target (p, data) w = (inr tt, w') →
  (physical_dir (w_fs w') (parent target) ∧ link_free (w_fs w') target) ∧
  (∀ q c, w_fs w !! q = Some (File c) →
          data = None ∨ q ≠ target ++ filter (λ x, x ∉ [""; "."; ".."]) p →
          w_fs w' !! q = Some (File c)) ∧
  (∀ c, data = Some c →
        w_fs w' !! (target ++ filter (λ x, x ∉ [""; "."; ".."]) p) = Some (File c)).
Proof.
  intros Hd Hlf Hrun.
  pose proof (extract_member_confined E target (p, data) w (conj Hd Hlf)) as [HPre' _].
  rewrite Hrun in HPre'. simpl in HPre'. split; [done|].
  unfold extract_member in Hrun. simpl in Hrun.
  set (arcname := filter (λ x, x ∉ [""; "."; ".."]) p) in *.
  apply bind_inr in Hrun as ([] & w1 & Hup & Hrun).
  assert (same_files (w_fs w) (w_fs w1) ∧
          physical_dir (w_fs w1) (parent target) ∧ link_free (w_fs w1) target)
    as (Hsf1 & Hd1 & Hlf1).
  { unfold bind, gets in Hup. simpl in Hup.
    destruct (path_exists E (w_fs w) (parent (target ++ arcname))) eqn:Hex.
    - unfold ret in Hup. simplify_eq. split; [reflexivity|done].
    - split.
      + pose proof (os_makedirs_only E same_files same_files_mkdir false
                      (parent (target ++ arcname)) w) as H. by rewrite Hup in H.
      + destruct (decide (arcname = [])) as [Harc|Harc].
        { exfalso. rewrite Harc, app_nil_r in Hex.
          by rewrite path_exists_physical_dir in Hex. }
        destruct (exists_last Harc) as (a & x & Ha).
        pose proof (os_makedirs_from_confined E target
                      (length (parent (target ++ arcname))) false
                      (parent (target ++ arcname))) as Hk.
        destruct (Hk ltac:(rewrite Ha, app_assoc, parent_snoc; apply under_true; eauto)
                    w (conj Hd Hlf)) as [H _].
        unfold os_makedirs in Hup. by rewrite Hup in H. }
  destruct data as [c|].
  - destruct (write_file_effect E (target ++ arcname) c w1) as [(l & Hl & Heq)|(e & Heq)];
      rewrite Heq in Hrun; [|done].
    injection Hrun as <-. simpl.
    apply open_wb_plain_path in Hl as (-> & _ & _);
      [|by apply plain_path_region|by apply no_link_at_region].
    split.
    + intros q c0 Hq [?|Hne]; [done|]. rewrite lookup_insert_ne by done. by apply Hsf1.
    + intros c0 [= <-]. by rewrite lookup_insert_eq.
  - split; [|done]. intros q c0 Hq _.
    apply bind_inr in Hrun as (isd & w2 & Hisd & Hrun).
    unfold gets in Hisd. injection Hisd as <- <-.
    destruct (path_is_dir E (w_fs w1) (target ++ arcname)).
    + unfold ret in Hrun. injection Hrun as <-. by apply Hsf1.
    + pose proof (os_mkdir_only E same_files same_files_mkdir (target ++ arcname) w1) as H.
      rewrite Hrun in H. simpl in H. apply H. by apply Hsf1.
Qed.

(** On POSIX, when an archive is unpacked without an error into a folder
    that sits in a real directory and has no link below it, every file
    member that no later member overwrites is found below the folder, at
    its name without the empty, [.] and [..] parts, with its exact
    bytes. *)
Theorem extract_zip_writes_members (zip_path temp_dir l : path) (bytes : content)
    (members : list zip_member) (w w' : world) :
  os_nt E = false →
  physical_dir (w_fs w) (parent temp_dir) → link_free (w_fs w) temp_dir →
  stat E (w_fs w) zip_path = inr (l, File bytes) → unzip E bytes = Some members →
  extract_zip E zip_path temp_dir w = (inr tt, w') →
  ∀ before name data after,
    members = before ++ (name, Some data) :: after →
    Forall (λ m : zip_member,
              m.2 = None ∨
              filter (λ x, x ∉ [""; "."; ".."]) m.1 ≠ filter (λ x, x ∉ [""; "."; ".."]) name)
           after →
    w_fs w' !! (temp_dir ++ filter (λ x, x ∉ [""; "."; ".."]) name) = Some (File data).
Proof.
  intros _ Hd Hlf Hst Hzip Hrun.
  unfold extract_zip, zip_extractall, bind at 1, gets at 1 in Hrun. simpl in Hrun.
  rewrite Hst, Hzip in Hrun.
  set (I := λ (done : list zip_member) (w1 : world),
    (physical_dir (w_fs w1) (parent temp_dir) ∧ link_free (w_fs w1) temp_dir) ∧
    ∀ before name data after,
      done = before ++ (name, Some data) :: after →
      Forall (λ m : zip_member,
                m.2 = None ∨
                filter (λ x, x ∉ [""; "."; ".."]) m.1
                ≠ filter (λ x, x ∉ [""; "."; ".."]) name) after →
      w_fs w1 !! (temp_dir ++ filter (λ x, x ∉ [""; "."; ".."]) name) = Some (File data)).
  assert (I members w') as [_ HI]; [|done].
  refine (for_each_inr I _ _ w w' _ _ Hrun).
  - intros done [p data] rest w1 w2 _ [[Hd1 Hlf1] Hdone] Hx.
    destruct (extract_member_result temp_dir p data w1 w2 Hd1 Hlf1 Hx)
      as (HPre2 & Hstay & Hnew).
    split; [done|]. intros before name c after Hsplit Hafter.
    apply snoc_split in Hsplit as [(-> & -> & Heq)|(after' & -> & ->)].
    + injection Heq as -> ->. by apply Hnew.
    + apply Forall_app in Hafter as [Hafter' Hlast].
      rewrite Forall_singleton in Hlast. simpl in Hlast.
      apply Hstay; [by apply (Hdone before name c after')|].
      destruct Hlast as [?|Hne]; [by left|right]. intros Heq.
      apply app_inv_head in Heq. congruence.
  - split; [done|]. intros before name data after Hsplit. by destruct before.
Qed.
End Extraction_result.

(** ** The properties above, on sample worlds *)

Lemma clear_output_leaves_empty_dir_witness :
  ∃ w', clear_output posix_env (World two_overlays_fs []) = (inr tt, w') ∧
        w_log w' = [] ∧
        physical_dir (w_fs w') (output_dir posix_env) ∧
        listdir (w_fs w') (output_dir posix_env) = [] ∧
        (∀ r, r ≠ [] → w_fs w' !! (output_dir posix_env ++ r) = None) ∧
        (∀ q, under (output_dir posix_env) q = false → w_fs w' !! q = two_overlays_fs !! q).
Proof.
  apply (clear_output_leaves_empty_dir posix_env (World two_overlays_fs [])).
  - by vm_compute.
  - by apply (bool_decide_unpack _); vm_compute.
  - right. by vm_compute.
Defined.

Lemma clear_output_refuses_non_directory_witness :
  ∃ e, clear_output posix_env (World linked_output_fs []) = (inl e, World linked_output_fs [])
       ∧ is_OSError e = true.
Proof.
  apply (clear_output_refuses_non_directory posix_env (Symlink ["game"; "elsewhere"])
           (World linked_output_fs [])).
  - by vm_compute.
  - by vm_compute.
  - done.
Defined.

Lemma copy_tree_without_source_witness :
  copy_tree posix_env ["game"; "nowhere"] ["game"; "loader"; "output"]
    (World two_overlays_fs [])
  = (inr tt, World two_overlays_fs []).
Proof.
  apply (copy_tree_without_source posix_env ["game"; "nowhere"] ["game"; "loader"; "output"]
           (World two_overlays_fs [])).
  - by vm_compute.
  - vm_compute. lia.
Defined.

Lemma extract_zip_stays_in_target_witness :
  let temp_dir := ["game"; "loader"; "output"; "__temp__"] in
  let fs' := w_fs (extract_zip posix_env ["game"; "loader"; "mods"; "C.zip"] temp_dir
                     (World archive_fs [])).2 in
  (∀ q, under temp_dir q = false → fs' !! q = archive_fs !! q) ∧
  physical_dir fs' (parent temp_dir) ∧ link_free fs' temp_dir.
Proof.
  apply (extract_zip_stays_in_target posix_env ["game"; "loader"; "mods"; "C.zip"]
           ["game"; "loader"; "output"; "__temp__"] (World archive_fs [])).
  - by vm_compute.
  - by apply (bool_decide_unpack _); vm_compute.
Defined.


Lemma deploy_links_every_entry_witness :
  ∃ w', symlink_to_game posix_env (World built_fs []) = (inr tt, w') ∧
        (∀ n, built_fs !! (output_dir posix_env ++ [n]) = Some Dir →
              w_fs w' !! (game_dir posix_env ++ [n])
              = Some (Symlink (output_dir posix_env ++ [n]))) ∧
        (∀ n c, built_fs !! (output_dir posix_env ++ [n]) = Some (File c) →
                w_fs w' !! (game_dir posix_env ++ [n]) = Some (File c)) ∧
        (∀ q, under (builder_dir posix_env) q = true → w_fs w' !! q = built_fs !! q).
Proof.
  apply (deploy_links_every_entry posix_env eq_refl ltac:(done) (World built_fs [])).
  - by vm_compute.
  - by apply (bool_decide_unpack _); vm_compute.
  - intros _. by apply (bool_decide_unpack _); vm_compute.
  - by apply (bool_decide_unpack _); vm_compute.
  - by apply (bool_decide_unpack _); vm_compute.
Defined.

Lemma deploy_twice_is_idempotent_witness :
  ∃ w1 w2, symlink_to_game posix_env (World built_fs []) = (inr tt, w1) ∧
           symlink_to_game posix_env w1 = (inr tt, w2) ∧
           w_fs w2 = w_fs w1.
Proof.
  apply (deploy_twice_is_idempotent posix_env eq_refl ltac:(done) (World built_fs [])).
  - by vm_compute.
  - by apply (bool_decide_unpack _); vm_compute.
  - intros _. by apply (bool_decide_unpack _); vm_compute.
  - by apply (bool_decide_unpack _); vm_compute.
  - by apply (bool_decide_unpack _); vm_compute.
Defined.

Lemma build_last_overlay_wins_witness :
  let w' := (build_mods posix_env (World two_overlays_fs [])).2 in
  (∀ a r c, two_overlays_fs !! (mods_dir posix_env ++ a :: r) = Some (File c) →
     (∀ b c', two_overlays_fs !! (mods_dir posix_env ++ b :: r) = Some (File c') →
              String.leb b a = true) →
     w_fs w' !! (output_dir posix_env ++ r) = Some (File c)) ∧
  (∀ q, under (output_dir posix_env) q = false → w_fs w' !! q = two_overlays_fs !! q).
Proof.
  apply (build_last_overlay_wins posix_env (World two_overlays_fs [])).
  - reflexivity.
  - by vm_compute.
  - by apply (bool_decide_unpack _); vm_compute.
  - right. by vm_compute.
  - by vm_compute.
  - by apply (bool_decide_unpack _); vm_compute.
  - by apply (bool_decide_unpack _); vm_compute.
  - by apply (bool_decide_unpack _); vm_compute.
  - apply injective_projections; [vm_compute|]; reflexivity.
Defined.

Lemma build_output_comes_from_overlays_witness :
  let w' := (build_mods posix_env (World two_overlays_fs [])).2 in
  (∀ r c, w_fs w' !! (output_dir posix_env ++ r) = Some (File c) →
          ∃ a, two_overlays_fs !! (mods_dir posix_env ++ a :: r) = Some (File c)) ∧
  (∀ r, r ≠ [] → w_fs w' !! (output_dir posix_env ++ r) = Some Dir →
        ∃ a, two_overlays_fs !! (mods_dir posix_env ++ a :: r) = Some Dir) ∧
  link_free (w_fs w') (output_dir posix_env).
Proof.
  apply (build_output_comes_from_overlays posix_env (World two_overlays_fs [])).
  - by vm_compute.
  - by apply (bool_decide_unpack _); vm_compute.
  - right. by vm_compute.
  - by vm_compute.
  - by apply (bool_decide_unpack _); vm_compute.
  - by apply (bool_decide_unpack _); vm_compute.
  - by apply (bool_decide_unpack _); vm_compute.
  - apply injective_projections; [vm_compute|]; reflexivity.
Defined.

Lemma build_twice_gives_same_output_witness :
  let w1 := (build_mods posix_env (World two_overlays_fs [])).2 in
  let w2 := (build_mods posix_env w1).2 in
  w_fs w2 = w_fs w1.
Proof.
  apply (build_twice_gives_same_output posix_env (World two_overlays_fs [])).
  - by vm_compute.
  - by apply (bool_decide_unpack _); vm_compute.
  - right. by vm_compute.
  - by vm_compute.
  - by apply (bool_decide_unpack _); vm_compute.
  - by apply (bool_decide_unpack _); vm_compute.
  - by apply (bool_decide_unpack _); vm_compute.
  - apply injective_projections; [vm_compute|]; reflexivity.
  - apply injective_projections; [vm_compute|]; reflexivity.
Defined.

Lemma build_and_deploy_shows_last_overlay_witness :
  let w' := (main posix_env "b" (World two_overlays_fs [])).2 in
  read_file posix_env (w_fs w') (game_dir posix_env ++ ["data"; "x.txt"]) = Some (bytes "2").
Proof.
  apply (build_and_deploy_shows_last_overlay posix_env eq_refl ltac:(vm_compute; lia)
           ltac:(done) (World two_overlays_fs [])) with (a := "B").
  - reflexivity.
  - by vm_compute.
  - by apply (bool_decide_unpack _); vm_compute.
  - intros _. by apply (bool_decide_unpack _); vm_compute.
  - right. by vm_compute.
  - by vm_compute.
  - by apply (bool_decide_unpack _); vm_compute.
  - by apply (bool_decide_unpack _); vm_compute.
  - by apply (bool_decide_unpack _); vm_compute.
  - by apply (bool_decide_unpack _); vm_compute.
  - apply injective_projections; [vm_compute|]; reflexivity.
  - by vm_compute.
  - intros b c' Hb.
    assert (b ∈ listdir two_overlays_fs (mods_dir posix_env)) as Hin.
    { apply (overlay_listed posix_env _ b ["data"; "x.txt"]).
      - by apply (bool_decide_unpack _); vm_compute.
      - exact (mk_is_Some _ _ Hb). }
    assert (Forall (λ b, String.leb b "B" = true)
              (listdir two_overlays_fs (mods_dir posix_env))) as Hall
      by (by apply (bool_decide_unpack _); vm_compute).
    rewrite Forall_forall in Hall. by apply Hall.
Defined.

Lemma build_without_mods_empties_output_witness :
  ∃ w', build_mods posix_env (World built_fs []) = (inl FileNotFoundError, w') ∧
        physical_dir (w_fs w') (output_dir posix_env) ∧
        (∀ r, r ≠ [] → w_fs w' !! (output_dir posix_env ++ r) = None) ∧
        (∀ q, under (output_dir posix_env) q = false → w_fs w' !! q = built_fs !! q).
Proof.
  apply (build_without_mods_empties_output posix_env (World built_fs [])).
  - by vm_compute.
  - by apply (bool_decide_unpack _); vm_compute.
  - right. by vm_compute.
  - by vm_compute.
Defined.

Lemma reparse_point_probe_witness :
  _is_windows_reparse_point windows_env stale_junction_fs (["game"] ++ ["data"])
  = os_nt windows_env &&
    match stale_junction_fs !! (["game"] ++ ["data"]) with
    | Some n => is_link n
    | None => false
    end.
Proof.
  apply (reparse_point_probe windows_env stale_junction_fs ["game"] "data"). by vm_compute.
Defined.

Lemma extract_zip_writes_members_witness :
  let temp_dir := ["game"; "loader"; "output"; "__temp__"] in
  let w' := (extract_zip posix_env ["game"; "loader"; "mods"; "C.zip"] temp_dir
               (World archive_fs [])).2 in
  w_fs w' !! (temp_dir ++ filter (λ x, x ∉ [""; "."; ".."]) ["levels"; "intro.lvl"])
  = Some (File (bytes "intro")).
Proof.
  apply (extract_zip_writes_members posix_env ["game"; "loader"; "mods"; "C.zip"]
           ["game"; "loader"; "output"; "__temp__"] ["game"; "loader"; "mods"; "C.zip"]
           (bytes "ZIP:levels")
           [(["levels"], None); (["levels"; "intro.lvl"], Some (bytes "intro"))]
           (World archive_fs []))
    with (before := [(["levels"], None)]) (after := []).
  - reflexivity.
  - by vm_compute.
  - by apply (bool_decide_unpack _); vm_compute.
  - by vm_compute.
  - by vm_compute.
  - apply injective_projections; [vm_compute|]; reflexivity.
  - reflexivity.
  - constructor.
Defined.
